(** * The datasource proxy middleware of the Perses API server

    A shallow embedding of [internal/api/core/middleware/proxy.go] and the
    properties its specification states about it.

    Layout:
    - [GoString], [base64], [textproto]: byte strings and the two library
      functions behind basic authentication and header keys;
    - [regexp]: a backtracking matcher with Go's leftmost-first priorities,
      the loop behind [FindAllString] and [FindAllStringSubmatch], and a
      relation that says what a match is;
    - the data model, one module per Go package, the collaborators (stores,
      crypto service, reverse proxy) and the monad of effects;
    - section [Middleware]: the functions of [proxy.go], one definition per
      function;
    - the vocabulary of the statements and a small concrete installation;
    - the facts and the theorems about the statements of the specification;
    - the further properties of [proxy.go]: what the extraction functions
      return, templates inside a path, the request that is served and the
      pipelines from the path to the upstream. *)

From Stdlib Require Import ZArith NArith Ascii String List Lia Bool.
From stdpp Require Import base option list gmap strings.

Local Open Scope string_scope.
Local Open Scope list_scope.
Local Open Scope stdpp_scope.

(* ===================================================================== *)
(** * Go strings as byte sequences *)
(* ===================================================================== *)

Module GoString.

(** A Go [string] is a sequence of bytes; [ascii] is a byte. *)
Abbreviation bytes := list_ascii_of_string.
Abbreviation str := string_of_list_ascii.

(** [len(s) > 0] *)
Definition nonEmpty (s : string) : bool :=
  match s with EmptyString => false | String _ _ => true end.

(** [s[lo:hi]] for [lo <= hi <= len(s)]. *)
Definition slice (s : list ascii) (lo hi : nat) : list ascii :=
  take (hi - lo) (drop lo s).

End GoString.

(** [encoding/base64], [StdEncoding.EncodeToString]: three bytes give four
    symbols of the standard alphabet, a short last group is padded with [=]. *)
Module base64.

Definition encodeStd : string :=
  "ABCDEFGHIJKLMNOPQRSTUVWXYZabcdefghijklmnopqrstuvwxyz0123456789+/".

Definition symbol (n : N) : ascii :=
  default "="%char (GoString.bytes encodeStd !! N.to_nat n).

Fixpoint encode (src : list ascii) : list ascii :=
  match src with
  | [] => []
  | [a] =>
      let v := (N_of_ascii a * 65536)%N in
      [symbol (v / 262144); symbol ((v / 4096) mod 64); "="; "="]%char%N
  | [a; b] =>
      let v := (N_of_ascii a * 65536 + N_of_ascii b * 256)%N in
      [symbol (v / 262144); symbol ((v / 4096) mod 64); symbol ((v / 64) mod 64); "="%char]%N
  | a :: b :: c :: rest =>
      let v := (N_of_ascii a * 65536 + N_of_ascii b * 256 + N_of_ascii c)%N in
      (symbol (v / 262144) :: symbol ((v / 4096) mod 64)
         :: symbol ((v / 64) mod 64) :: symbol (v mod 64) :: encode rest)%N
  end.

Definition EncodeToString (src : string) : string :=
  GoString.str (encode (GoString.bytes src)).

End base64.

(** [net/textproto], [CanonicalMIMEHeaderKey]: a key made of token bytes only
    gets its first letter and every letter after a hyphen in upper case and
    the other letters in lower case; any other key is returned unchanged. *)
Module textproto.

Definition between (lo hi c : ascii) : bool :=
  (N_of_ascii lo <=? N_of_ascii c)%N && (N_of_ascii c <=? N_of_ascii hi)%N.

Definition validHeaderFieldByte (c : ascii) : bool :=
  between "a" "z" c || between "A" "Z" c || between "0" "9" c
  || existsb (Ascii.eqb c) (GoString.bytes "!#$%&'*+-.^_`|~").

Definition toUpper (c : ascii) : ascii := ascii_of_N (N_of_ascii c - 32).
Definition toLower (c : ascii) : ascii := ascii_of_N (N_of_ascii c + 32).

Fixpoint canonical (upper : bool) (a : list ascii) : list ascii :=
  match a with
  | [] => []
  | c :: a' =>
      let c' :=
        if upper && between "a" "z" c then toUpper c
        else if negb upper && between "A" "Z" c then toLower c
        else c in
      c' :: canonical (Ascii.eqb c' "-") a'
  end.

Definition CanonicalMIMEHeaderKey (s : string) : string :=
  if forallb validHeaderFieldByte (GoString.bytes s)
  then GoString.str (canonical true (GoString.bytes s))
  else s.

End textproto.

(* ===================================================================== *)
(** * Package [regexp] *)
(* ===================================================================== *)

(** The middleware uses three compiled patterns to classify request paths and
    one compiled pattern per allow-list entry.  Package [regexp] belongs to
    the Go distribution; what follows is an executable account of the part of
    it the middleware calls: the syntax tree of a pattern, matching with
    leftmost-first (Perl-like) priorities, and the loop behind
    [FindAllString] and [FindAllStringSubmatch].

    Input is read byte by byte, where Go decodes UTF-8.  On paths of ASCII
    bytes ([isASCII] below) the two agree, and what is stated about the
    patterns of an allow-list is stated for such paths.  For the three
    patterns of the middleware they
    agree on every input: their literals and their class are ASCII, which no
    byte of a longer encoding is, and the dot stands under a star and stops
    at the line feed alone, so that it takes the bytes of a longer encoding
    one after the other up to the same offset. *)

Module regexp.

(** Syntax trees, named after the operators of [regexp/syntax]. *)
Inductive Regexp : Type :=
| EmptyMatch                                   (* matches the empty string *)
| Literal (c : ascii)                          (* one byte                *)
| AnyCharNotNL                                 (* [.]                     *)
| CharClass (ranges : list (ascii * ascii))    (* [[a-z...]]              *)
| BeginText                                    (* [^] without flag m      *)
| EndText                                      (* [$] without flag m      *)
| Capture (i : nat) (re : Regexp)              (* [( )], group number [i] *)
| Star (re : Regexp)                           (* greedy [*]              *)
| Quest (re : Regexp)                          (* greedy [?]              *)
| Concat (r1 r2 : Regexp)
| Alternate (r1 r2 : Regexp).

(** Greedy [+]: one occurrence, then the loop. *)
Definition Plus (re : Regexp) : Regexp := Concat re (Star re).

Definition newline : ascii := "010"%char.

Definition inRange (c : ascii) (r : ascii * ascii) : bool :=
  (N_of_ascii (fst r) <=? N_of_ascii c)%N && (N_of_ascii c <=? N_of_ascii (snd r))%N.

Definition inClass (ranges : list (ascii * ascii)) (c : ascii) : bool :=
  existsb (inRange c) ranges.

Definition notNL (c : ascii) : bool := negb (Ascii.eqb c newline).

(** Number of capture groups. *)
Fixpoint NumSubexp (re : Regexp) : nat :=
  match re with
  | Capture i r => Nat.max i (NumSubexp r)
  | Star r | Quest r => NumSubexp r
  | Concat r1 r2 | Alternate r1 r2 => Nat.max (NumSubexp r1) (NumSubexp r2)
  | _ => 0
  end.

(** Capture registers: for each group the pair of byte offsets of its last
    participation in the match, [None] while it has not taken part. *)
Abbreviation Caps := (list (option (nat * nat))).

Section Backtrack.
Context {A : Type}.

(** A continuation receives the offset reached, the input left from
    there on, and the capture registers. *)
Abbreviation Cont := (nat -> list ascii -> Caps -> option A).

(** The loop of a greedy star: try one more iteration first and leave
    the loop only when that fails.  An iteration that consumes nothing
    is abandoned, which is what keeps the loop finite; [fuel] counts
    the bytes left and is never the reason to stop early.  The patterns
    of the middleware have no group under a star, so the registers an
    abandoned iteration would have written are of no concern. *)
Fixpoint starLoop (step : nat -> list ascii -> Caps -> Cont -> option A)
    (fuel : nat) (pos : nat) (s : list ascii) (caps : Caps) (k : Cont) : option A :=
  match fuel with
  | 0 => k pos s caps
  | S fuel' =>
      match step pos s caps
              (fun pos' s' caps' =>
                 if (pos <? pos')%nat then starLoop step fuel' pos' s' caps' k else None) with
      | Some x => Some x
      | None => k pos s caps
      end
  end.

(** [backtrack re pos s caps k]: match [re] at offset [pos], where [s] is
    the input from [pos] on, then continue with [k]; alternatives are
    tried in priority order and the first success is the answer. *)
Fixpoint backtrack (re : Regexp) (pos : nat) (s : list ascii) (caps : Caps) (k : Cont)
    : option A :=
  match re with
  | EmptyMatch => k pos s caps
  | Literal c =>
      match s with
      | x :: s' => if Ascii.eqb x c then k (S pos) s' caps else None
      | [] => None
      end
  | AnyCharNotNL =>
      match s with
      | x :: s' => if notNL x then k (S pos) s' caps else None
      | [] => None
      end
  | CharClass ranges =>
      match s with
      | x :: s' => if inClass ranges x then k (S pos) s' caps else None
      | [] => None
      end
  | BeginText => if (pos =? 0)%nat then k pos s caps else None
  | EndText => match s with [] => k pos s caps | _ :: _ => None end
  | Capture i r =>
      backtrack r pos s caps
        (fun pos' s' caps' => k pos' s' (<[i := Some (pos, pos')]> caps'))
  | Star r => starLoop (backtrack r) (length s) pos s caps k
  | Quest r =>
      match backtrack r pos s caps k with
      | Some x => Some x
      | None => k pos s caps
      end
  | Concat r1 r2 =>
      backtrack r1 pos s caps (fun pos' s' caps' => backtrack r2 pos' s' caps' k)
  | Alternate r1 r2 =>
      match backtrack r1 pos s caps k with
      | Some x => Some x
      | None => backtrack r2 pos s caps k
      end
  end.
End Backtrack.

(** ** Reading a pattern *)

(** The part of the pattern syntax the patterns of the middleware are
    written in: literals, [.], [^], [$], classes with ranges, groups
    (capturing, and non-capturing with [?:]), [|] and the greedy [*], [+],
    [?]; a backslash makes the next byte a literal.  Anything else is
    answered with [None]. *)

Fixpoint parseClass (s : list ascii) (acc : list (ascii * ascii))
    : option (list (ascii * ascii) * list ascii) :=
  match s with
  | [] => None
  | "]"%char :: rest => Some (rev acc, rest)
  | "\"%char :: c :: rest => parseClass rest ((c, c) :: acc)
  | lo :: rest =>
      match rest with
      | "-"%char :: hi :: rest' =>
          if Ascii.eqb hi "]" then parseClass rest ((lo, lo) :: acc)
          else if (N_of_ascii hi <? N_of_ascii lo)%N then None
          else parseClass rest' ((lo, hi) :: acc)
      | _ => parseClass rest ((lo, lo) :: acc)
      end
  end.

Fixpoint mkConcat (items : list Regexp) : Regexp :=
  match items with
  | [] => EmptyMatch
  | [r] => r
  | r :: items' => Concat r (mkConcat items')
  end.

Fixpoint mkAlternate (branches : list Regexp) : Regexp :=
  match branches with
  | [] => EmptyMatch
  | [r] => r
  | r :: branches' => Alternate r (mkAlternate branches')
  end.

(** [parse fuel ncap s alts cur]: [alts] are the finished branches of the
    alternation being read, [cur] the items of the current branch, last
    first; [ncap] counts the capturing groups opened so far.  Reading stops
    at the end of the input or before an unmatched closing parenthesis. *)
Fixpoint parse (fuel : nat) (ncap : nat) (s : list ascii)
    (alts : list Regexp) (cur : list Regexp) : option (Regexp * nat * list ascii) :=
  match fuel with
  | 0 => None
  | S fuel' =>
      let finish := mkAlternate (alts ++ [mkConcat (rev cur)]) in
      match s with
      | [] => Some (finish, ncap, [])
      | c :: rest =>
          if Ascii.eqb c ")" then Some (finish, ncap, s)
          else if Ascii.eqb c "|" then parse fuel' ncap rest (alts ++ [mkConcat (rev cur)]) []
          else if Ascii.eqb c "*" then
            match cur with
            | r :: cur' => parse fuel' ncap rest alts (Star r :: cur')
            | [] => None
            end
          else if Ascii.eqb c "+" then
            match cur with
            | r :: cur' => parse fuel' ncap rest alts (Plus r :: cur')
            | [] => None
            end
          else if Ascii.eqb c "?" then
            match cur with
            | r :: cur' => parse fuel' ncap rest alts (Quest r :: cur')
            | [] => None
            end
          else if Ascii.eqb c "(" then
            match rest with
            | "?"%char :: ":"%char :: rest' =>
                match parse fuel' ncap rest' [] [] with
                | Some (r, ncap', ")"%char :: rest'') => parse fuel' ncap' rest'' alts (r :: cur)
                | _ => None
                end
            | _ =>
                match parse fuel' (S ncap) rest [] [] with
                | Some (r, ncap', ")"%char :: rest'') =>
                    parse fuel' ncap' rest'' alts (Capture (S ncap) r :: cur)
                | _ => None
                end
            end
          else if Ascii.eqb c "[" then
            match rest with
            | "^"%char :: _ => None
            | _ =>
                match parseClass rest [] with
                | Some (ranges, rest') => parse fuel' ncap rest' alts (CharClass ranges :: cur)
                | None => None
                end
            end
          else if Ascii.eqb c "." then parse fuel' ncap rest alts (AnyCharNotNL :: cur)
          else if Ascii.eqb c "^" then parse fuel' ncap rest alts (BeginText :: cur)
          else if Ascii.eqb c "$" then parse fuel' ncap rest alts (EndText :: cur)
          else if Ascii.eqb c "\" then
            match rest with
            | x :: rest' =>
                if textproto.between "a" "z" x || textproto.between "A" "Z" x
                   || textproto.between "0" "9" x
                then None
                else parse fuel' ncap rest' alts (Literal x :: cur)
            | [] => None
            end
          else if Ascii.eqb c "{" then None
          else parse fuel' ncap rest alts (Literal c :: cur)
      end
  end.

(** [regexp.Compile] *)
Definition Compile (pattern : string) : option Regexp :=
  match parse (S (String.length pattern)) 0 (GoString.bytes pattern) [] [] with
  | Some (re, _, []) => Some re
  | _ => None
  end.

(** [regexp.MustCompile]; it panics where [Compile] fails, which for the
    patterns written out in this file it does not.  [Compile] above reads
    the part of the syntax that [parse] covers and answers [None] on every
    other pattern, whether Go accepts it or not; no statement is made about
    a pattern compiled from such a text. *)
Definition MustCompile (pattern : string) : Regexp :=
  default EmptyMatch (Compile pattern).

(** ** Running a pattern *)

(** One match: the registers, register 0 holding the whole match. *)
Definition matchAt (re : Regexp) (pos : nat) (s : list ascii) : option Caps :=
  backtrack re pos s (replicate (S (NumSubexp re)) None)
    (fun pos' _ caps => Some (<[0 := Some (pos, pos')]> caps)).

(** [doExecute]: the leftmost match starting at offset [pos] or later;
    [s] is the input from [pos] on. *)
Fixpoint doExecute (re : Regexp) (pos : nat) (s : list ascii) : option Caps :=
  match matchAt re pos s with
  | Some m => Some m
  | None =>
      match s with
      | [] => None
      | _ :: s' => doExecute re (S pos) s'
      end
  end.

(** Offsets of the whole match. *)
Definition bounds (m : Caps) : nat * nat :=
  match m with
  | Some b :: _ => b
  | _ => (0, 0)%nat
  end.

(** [allMatches] with no limit on the number of matches ([n = -1]): the
    successive non-overlapping matches.  An empty match directly after the
    previous match is skipped, and after an empty match the search moves on
    by one position.  [prevMatchEnd = None] stands for Go's [-1]. *)
Fixpoint allMatches (fuel : nat) (re : Regexp) (whole : list ascii)
    (pos : nat) (prevMatchEnd : option nat) : list Caps :=
  match fuel with
  | 0 => []
  | S fuel' =>
      if (length whole <? pos)%nat then []
      else
        match doExecute re pos (drop pos whole) with
        | None => []
        | Some m =>
            let '(mstart, mend) := bounds m in
            let accept :=
              negb ((mend =? pos)%nat && bool_decide (prevMatchEnd = Some mstart)) in
            let pos' :=
              if (mend =? pos)%nat
              then (if (pos <? length whole)%nat then pos + 1 else length whole + 1)%nat
              else mend in
            (if accept then [m] else []) ++ allMatches fuel' re whole pos' (Some mend)
        end
  end.

Definition FindAllIndex (re : Regexp) (whole : list ascii) : list Caps :=
  allMatches (length whole + 2) re whole 0 None.

(** The text of a register, the empty string for a group that took no part. *)
Definition group (whole : list ascii) (c : option (nat * nat)) : string :=
  match c with
  | Some (lo, hi) => GoString.str (GoString.slice whole lo hi)
  | None => ""
  end.

(** [re.FindAllStringSubmatch(s, -1)] *)
Definition FindAllStringSubmatch (re : Regexp) (s : string) : list (list string) :=
  map (map (group (GoString.bytes s))) (FindAllIndex re (GoString.bytes s)).

(** [re.FindAllString(s, -1)] *)
Definition FindAllString (re : Regexp) (s : string) : list string :=
  map (fun m => group (GoString.bytes s) (Some (bounds m))) (FindAllIndex re (GoString.bytes s)).

(** [re.MatchString(s)] *)
Definition MatchString (re : Regexp) (s : string) : bool :=
  match doExecute re 0 (GoString.bytes s) with
  | Some _ => true
  | None => false
  end.

(** ** What a match is *)

(** [Matches pre re u post]: in the input [pre ++ u ++ post] the pattern [re]
    matches the part [u].  The context matters to [^] and [$] only.  An
    iteration of a star is taken to be non-empty, which loses no match. *)
Inductive Matches : list ascii -> Regexp -> list ascii -> list ascii -> Prop :=
| MEmptyMatch pre post : Matches pre EmptyMatch [] post
| MLiteral pre c post : Matches pre (Literal c) [c] post
| MAnyCharNotNL pre c post : notNL c = true -> Matches pre AnyCharNotNL [c] post
| MCharClass pre ranges c post :
    inClass ranges c = true -> Matches pre (CharClass ranges) [c] post
| MBeginText post : Matches [] BeginText [] post
| MEndText pre : Matches pre EndText [] []
| MCapture pre i r u post : Matches pre r u post -> Matches pre (Capture i r) u post
| MStarNil pre r post : Matches pre (Star r) [] post
| MStarCons pre r u1 u2 post :
    u1 <> [] -> Matches pre r u1 (u2 ++ post) -> Matches (pre ++ u1) (Star r) u2 post ->
    Matches pre (Star r) (u1 ++ u2) post
| MQuestNone pre r post : Matches pre (Quest r) [] post
| MQuestSome pre r u post : Matches pre r u post -> Matches pre (Quest r) u post
| MConcat pre r1 r2 u1 u2 post :
    Matches pre r1 u1 (u2 ++ post) -> Matches (pre ++ u1) r2 u2 post ->
    Matches pre (Concat r1 r2) (u1 ++ u2) post
| MAlternateL pre r1 r2 u post : Matches pre r1 u post -> Matches pre (Alternate r1 r2) u post
| MAlternateR pre r1 r2 u post : Matches pre r2 u post -> Matches pre (Alternate r1 r2) u post.

Definition Found (re : Regexp) (whole : list ascii) : Prop :=
  exists pre u post, whole = pre ++ u ++ post /\ Matches pre re u post.

(** What the matcher finds from a given place is a match at that place.
    This is the shape of the soundness statement, used for [backtrack] and
    for the loop of a star. *)
Definition SoundAt {A} (re : Regexp)
    (step : nat -> list ascii -> Caps -> (nat -> list ascii -> Caps -> option A) -> option A)
    : Prop :=
  forall pre s caps k x,
    step (length pre) s caps k = Some x ->
    exists u post caps',
      s = u ++ post /\ Matches pre re u post /\ k (length pre + length u) post caps' = Some x.

End regexp.

(* ===================================================================== *)
(** * Data model and collaborators *)
(* ===================================================================== *)

(** Go's [error] values as the middleware meets them: the HTTP errors it
    builds itself with [echo.NewHTTPError], and the errors handed to it by
    the stores and libraries it calls. *)
Inductive error : Type :=
| HTTPError (Code : Z) (Message : string)   (* [*echo.HTTPError] *)
| KeyNotFound (detail : string)             (* a store's "no such key" *)
| Failure (detail : string).                (* any other error *)

Module databaseModel.
(** Modelled from the spec: package [databaseModel] is not among the files
    under study.  Section 6 gives every store the three outcomes
    value, NotFound and StoreError; [IsKeyNotFound] recognises the second. *)
Definition IsKeyNotFound (err : error) : bool :=
  match err with
  | KeyNotFound _ => true
  | _ => false
  end.
End databaseModel.

Module url.
Record URL : Type := { Scheme : string; Host : string; Path : string }.
End url.

Module tls.
Definition VersionTLS10 : Z := 0x0301.
Definition VersionTLS11 : Z := 0x0302.
Definition VersionTLS12 : Z := 0x0303.
Definition VersionTLS13 : Z := 0x0304.

(** The fields of [tls.Config] a client configuration built here can set.
    [RootCAs = None] is Go's [nil]: the host's root CA set. *)
Record Config : Type := {
  RootCAs : option string;
  Certificates : option (string * string);
  ServerName : string;
  InsecureSkipVerify : bool;
  MinVersion : Z;
  MaxVersion : Z
}.

(** [&tls.Config{MinVersion: v}], every other field at its zero value. *)
Definition withMinVersion (v : Z) : Config :=
  {| RootCAs := None; Certificates := None; ServerName := "";
     InsecureSkipVerify := false; MinVersion := v; MaxVersion := 0 |}.
End tls.

Module promConfig.
(** [config.TLSConfig] of [github.com/prometheus/common]. *)
Record TLSConfig : Type := {
  CA : string;
  Cert : string;
  Key : string;
  CAFile : string;
  CertFile : string;
  KeyFile : string;
  ServerName : string;
  InsecureSkipVerify : bool;
  MinVersion : Z;
  MaxVersion : Z
}.

Definition TLSVersionsTable : gmap string Z :=
  {[ "TLS13" := tls.VersionTLS13; "TLS12" := tls.VersionTLS12;
     "TLS11" := tls.VersionTLS11; "TLS10" := tls.VersionTLS10 ]}.

(** [TLSVersions[name]], zero for a name the map does not hold. *)
Definition TLSVersions (name : string) : Z := default 0%Z (TLSVersionsTable !! name).
End promConfig.

Module http.
Definition StatusForbidden : Z := 403.
Definition StatusNotFound : Z := 404.
Definition StatusInternalServerError : Z := 500.
Definition StatusBadGateway : Z := 502.

Definition StatusText (code : Z) : string :=
  if (code =? 403)%Z then "Forbidden"
  else if (code =? 404)%Z then "Not Found"
  else if (code =? 500)%Z then "Internal Server Error"
  else if (code =? 502)%Z then "Bad Gateway"
  else "".

(** [http.Header], a map from canonical keys to the values of the key. *)
Abbreviation Header := (gmap string (list string)).

Definition Header_Get (h : Header) (key : string) : string :=
  match h !! textproto.CanonicalMIMEHeaderKey key with
  | Some (v :: _) => v
  | _ => ""
  end.

Definition Header_Set (h : Header) (key value : string) : Header :=
  <[textproto.CanonicalMIMEHeaderKey key := [value]]> h.

Definition Header_Values (h : Header) (key : string) : list string :=
  default [] (h !! textproto.CanonicalMIMEHeaderKey key).

Record Request : Type := {
  Method : string;
  URL : url.URL;
  Host : string;
  Header_ : Header      (* the field [Header] *)
}.

Definition withHost (r : Request) (host : string) : Request :=
  {| Method := Method r; URL := URL r; Host := host; Header_ := Header_ r |}.

Definition withHeader (r : Request) (h : Header) : Request :=
  {| Method := Method r; URL := URL r; Host := Host r; Header_ := h |}.

Definition withPath (r : Request) (path : string) : Request :=
  {| Method := Method r;
     URL := {| url.Scheme := url.Scheme (URL r); url.Host := url.Host (URL r);
               url.Path := path |};
     Host := Host r; Header_ := Header_ r |}.

(** [r.SetBasicAuth(username, password)] *)
Definition SetBasicAuth (r : Request) (username password : string) : Request :=
  withHeader r
    (Header_Set (Header_ r) "Authorization"
       ("Basic " +:+ base64.EncodeToString (username +:+ ":" +:+ password))).

(** The fields of [http.Transport] the middleware sets; durations in
    nanoseconds. *)
Record Transport : Type := {
  ProxyFromEnvironment : bool;
  DialTimeout : Z;
  DialKeepAlive : Z;
  TLSHandshakeTimeout : Z;
  IdleConnTimeout : Z;
  ForceAttemptHTTP2 : bool;
  TLSClientConfig : option tls.Config
}.

(** The value of the sentinel panic [http.ErrAbortHandler]. *)
Definition ErrAbortHandler : string := "net/http: abort Handler".
End http.

Module time.
Definition Second : Z := 1000000000.
End time.

Module echo.
Definition HeaderXRealIP : string := "X-Real-Ip".
Definition HeaderXForwardedProto : string := "X-Forwarded-Proto".

(** [echo.NewHTTPError(code, message...)]: without a message the status
    text of the code is the message. *)
Definition NewHTTPError (code : Z) (message : option string) : error :=
  HTTPError code (default (http.StatusText code) message).
End echo.

(** Package [pkg/model/api/v1/secret].  The declarations are not among the
    files under study; the fields are the ones [proxy.go] reads.  The two
    accessors [GetPassword] and [GetCredentials] resolve a value that is
    stored inline or in a file and can fail; their outcome for a given
    object is carried by the object. *)
Module secret.
Record BasicAuth : Type := {
  Username : string;
  GetPassword : string * option error
}.

Record Authorization : Type := {
  Type_ : string;                              (* the field [Type] *)
  GetCredentials : string * option error
}.

Record TLSConfig : Type := {
  CA : string;
  Cert : string;
  Key : string;
  CAFile : string;
  CertFile : string;
  KeyFile : string;
  ServerName : string;
  InsecureSkipVerify : bool
}.
End secret.

Module datasourceHTTP.
Record AllowedEndpoint : Type := {
  EndpointPattern : regexp.Regexp;
  Method : string
}.

(** [Headers] is a Go map; the list holds its entries in the order in
    which [range] yields them. *)
Record Config : Type := {
  URL : url.URL;
  AllowedEndpoints : list AllowedEndpoint;
  Headers : list (string * string);
  Secret : string
}.
End datasourceHTTP.

Module v1.
Record SecretSpec : Type := {
  BasicAuth : option secret.BasicAuth;
  Authorization : option secret.Authorization;
  TLSConfig : secret.TLSConfig
}.

(** The plugin of a datasource: its kind and a specification whose shape
    depends on the kind.  The middleware never looks inside; it hands the
    specification to [ValidateAndExtract]. *)
Record Plugin : Type := { Kind : string; Spec : string }.

Record DatasourceSpec : Type := { plugin : Plugin }.   (* the field [Plugin] *)

Definition DatasourceSpec_zero : DatasourceSpec :=
  {| plugin := {| Kind := ""; Spec := "" |} |}.

(** Stored entities, reduced to their [Spec]. *)
Record GlobalDatasource : Type := { GlobalDatasource_Spec : DatasourceSpec }.
Record Datasource : Type := { Datasource_Spec : DatasourceSpec }.
Record GlobalSecret : Type := { GlobalSecret_Spec : SecretSpec }.
Record Secret : Type := { Secret_Spec : SecretSpec }.
Record DashboardSpec : Type := { Datasources : gmap string DatasourceSpec }.
Record Dashboard : Type := { Dashboard_Spec : DashboardSpec }.
End v1.

(** ** Effects *)

(** What a run of the middleware does to the outside: the calls to the five
    stores, to the crypto service and to the reverse proxy, in order. *)
Inductive Event : Type :=
| GlobalDTS_Get (name : string)
| DTS_Get (project name : string)
| Dashboard_Get (project name : string)
| Secret_Get (project name : string)
| GlobalSecret_Get (name : string)
| Crypto_Decrypt (scrt : option v1.SecretSpec)
| ReverseProxy_ServeHTTP (target : url.URL) (transport : http.Transport) (req : http.Request).

(** The state a handler works on: the request of the [echo.Context], which
    the handlers update in place, and the calls made so far. *)
Record World : Type := {
  request : http.Request;
  trace : list Event
}.

(** A Go call returns, or panics. *)
Inductive Res (A : Type) : Type :=
| Ret (a : A)
| Panic (reason : string).
Arguments Ret {A} a.
Arguments Panic {A} reason.

Definition M (A : Type) : Type := World -> Res A * World.

Definition ret {A} (a : A) : M A := fun w => (Ret a, w).

Definition bind {A B} (m : M A) (k : A -> M B) : M B :=
  fun w =>
    match m w with
    | (Ret a, w') => k a w'
    | (Panic r, w') => (Panic r, w')
    end.

Definition panic {A} (reason : string) : M A := fun w => (Panic reason, w).

Definition liftRes {A} (r : Res A) : M A := fun w => (r, w).

Definition emit (ev : Event) : M unit :=
  fun w => (Ret tt, {| request := request w; trace := trace w ++ [ev] |}).

Definition getRequest : M http.Request := fun w => (Ret (request w), w).

Definition setRequest (r : http.Request) : M unit :=
  fun w => (Ret tt, {| request := r; trace := trace w |}).

Declare Scope go_scope.
Delimit Scope go_scope with go.
Notation "'let*' x ':=' m 'in' k" := (bind m (fun x => k))
  (at level 10, x pattern, m at level 100, k at level 200) : go_scope.
Notation "m ;; k" := (bind m (fun _ => k))
  (at level 100, right associativity) : go_scope.
Local Open Scope go_scope.

Definition nilPointer : string := "invalid memory address or nil pointer dereference".

(** ** Collaborators *)

Module crypto.
(** [Decrypt(spec *v1.SecretSpec) error] rewrites the object behind the
    pointer.  Given the pointer ([None] is [nil]) it yields the object as
    it is after the call and the error, unless it panics. *)
Record Crypto : Type := {
  Decrypt : option v1.SecretSpec -> Res (option v1.SecretSpec * option error)
}.
End crypto.

(** The struct [Proxy]: the five stores, each by its [Get] method, and the
    crypto service.  A [Get] returns a pointer and an error. *)
Record Proxy : Type := {
  Dashboard : string -> string -> option v1.Dashboard * option error;
  Secret : string -> string -> option v1.Secret * option error;
  GlobalSecret : string -> option v1.GlobalSecret * option error;
  DTS : string -> string -> option v1.Datasource * option error;
  GlobalDTS : string -> option v1.GlobalDatasource * option error;
  Crypto : crypto.Crypto
}.

(** What else the middleware calls and this development takes as given. *)
Record Runtime : Type := {
  (** [strconv.Quote], the rendering of verb [%q] *)
  Quote : string -> string;
  (** [datasourceHTTP.ValidateAndExtract] *)
  ValidateAndExtract : string -> option datasourceHTTP.Config * option error;
  (** [promConfig.NewTLSConfig] *)
  NewTLSConfig : promConfig.TLSConfig -> option tls.Config * option error;
  (** [echo.Context.RealIP] and [echo.Context.Scheme] *)
  RealIP : http.Request -> string;
  Scheme : http.Request -> string;
  (** The round trip of [httputil.ReverseProxy.ServeHTTP] over the
      [http.Transport] it is given: [None] when the upstream answered,
      otherwise the text of the transport error that reaches
      [ErrorHandler]. *)
  RoundTrip : url.URL -> http.Transport -> http.Request -> option string;
  (** The copy of the upstream's answer to the client, once the round trip
      has succeeded: [true] when the copy fails while the request is served
      by an [http.Server]; [ServeHTTP] then panics with
      [http.ErrAbortHandler]. *)
  CopyAborts : url.URL -> http.Transport -> http.Request -> bool
}.

(* ===================================================================== *)
(** * The middleware, [proxy.go] *)
(* ===================================================================== *)

(** The logging calls of the source ([logrus]) have no part in the control
    flow and are left out. *)

Import regexp.

Definition globalProxyMatcher : Regexp :=
  Eval vm_compute in
    MustCompile "/proxy/globaldatasources/([a-zA-Z-0-9_-]+)(/.*)?".

Definition projectProxyMatcher : Regexp :=
  Eval vm_compute in
    MustCompile "/proxy/projects/([a-zA-Z-0-9_-]+)/datasources/([a-zA-Z-0-9_-]+)(/.*)?".

Definition dashboardProxyMatcher : Regexp :=
  Eval vm_compute in
    MustCompile "/proxy/projects/([a-zA-Z-0-9_-]+)/dashboards/([a-zA-Z-0-9_-]+)/datasources/([a-zA-Z-0-9_-]+)(/.*)?".

Definition notProperlyFormatted : error :=
  echo.NewHTTPError http.StatusBadGateway
    (Some "unable to forward the request to the datasource, request not properly formatted").

(** [matchingGroups[0]]; the callers look at it only behind a check of the
    length. *)
Definition firstMatch (matchingGroups : list (list string)) : list string :=
  nth 0 matchingGroups [].

Definition extractGlobalDatasourceAndPath (requestPath : string)
    : string * string * option error :=
  let matchingGroups := FindAllStringSubmatch globalProxyMatcher requestPath in
  if (1 <? length matchingGroups)%nat || (length matchingGroups =? 0)%nat
     || (length (firstMatch matchingGroups) <=? 1)%nat
  then ("", "", Some notProperlyFormatted)
  else
    let dtsName := nth 1 (firstMatch matchingGroups) "" in
    let path :=
      if (2 <? length (firstMatch matchingGroups))%nat
         && GoString.nonEmpty (nth 2 (firstMatch matchingGroups) "")
      then nth 2 (firstMatch matchingGroups) ""
      else "/" in
    (dtsName, path, None).

Definition extractProjectDatasourceAndPath (requestPath : string)
    : string * string * string * option error :=
  let matchingGroups := FindAllStringSubmatch projectProxyMatcher requestPath in
  if (1 <? length matchingGroups)%nat || (length matchingGroups =? 0)%nat
     || (length (firstMatch matchingGroups) <=? 2)%nat
  then ("", "", "", Some notProperlyFormatted)
  else
    let projectName := nth 1 (firstMatch matchingGroups) "" in
    let dtsName := nth 2 (firstMatch matchingGroups) "" in
    let path :=
      if (3 <? length (firstMatch matchingGroups))%nat
         && GoString.nonEmpty (nth 3 (firstMatch matchingGroups) "")
      then nth 3 (firstMatch matchingGroups) ""
      else "/" in
    (projectName, dtsName, path, None).

Definition extractProjectDashboardDatasourceAndPath (requestPath : string)
    : string * string * string * string * option error :=
  let matchingGroups := FindAllStringSubmatch dashboardProxyMatcher requestPath in
  if (1 <? length matchingGroups)%nat || (length matchingGroups =? 0)%nat
     || (length (firstMatch matchingGroups) <=? 3)%nat
  then ("", "", "", "", Some notProperlyFormatted)
  else
    let projectName := nth 1 (firstMatch matchingGroups) "" in
    let dashboardName := nth 2 (firstMatch matchingGroups) "" in
    let dtsName := nth 3 (firstMatch matchingGroups) "" in
    let path :=
      if (4 <? length (firstMatch matchingGroups))%nat
         && GoString.nonEmpty (nth 4 (firstMatch matchingGroups) "")
      then nth 4 (firstMatch matchingGroups) ""
      else "/" in
    (projectName, dashboardName, dtsName, path, None).

Record httpProxy : Type := {
  config : datasourceHTTP.Config;
  secret_ : option v1.SecretSpec;        (* the field [secret] *)
  path : string
}.

Section Middleware.
Variable rt : Runtime.

Definition datasourceDoesNotExist (name : string) : error :=
  echo.NewHTTPError http.StatusNotFound
    (Some ("unable to forward the request to the datasource " +:+ Quote rt name
           +:+ ", datasource doesn't exist")).

Definition secretDoesNotExist (dtsName name : string) : error :=
  echo.NewHTTPError http.StatusNotFound
    (Some ("unable to forward the request to the datasource " +:+ Quote rt dtsName
           +:+ ", secret " +:+ Quote rt name +:+ " attached doesn't exist")).

Definition internalServerError : error :=
  echo.NewHTTPError http.StatusInternalServerError (Some "internal server error").

(** ** The resolvers *)

Definition getGlobalDatasource (e : Proxy) (name : string)
    : M (v1.DatasourceSpec * option error) :=
  emit (GlobalDTS_Get name) ;;
  let '(dts, err) := GlobalDTS e name in
  match err with
  | Some err =>
      if databaseModel.IsKeyNotFound err
      then ret (v1.DatasourceSpec_zero, Some (datasourceDoesNotExist name))
      else ret (v1.DatasourceSpec_zero, Some internalServerError)
  | None =>
      match dts with
      | Some dts => ret (v1.GlobalDatasource_Spec dts, None)
      | None => panic nilPointer
      end
  end.

Definition getProjectDatasource (e : Proxy) (projectName name : string)
    : M (v1.DatasourceSpec * option error) :=
  emit (DTS_Get projectName name) ;;
  let '(dts, err) := DTS e projectName name in
  match err with
  | Some err =>
      if databaseModel.IsKeyNotFound err
      then ret (v1.DatasourceSpec_zero, Some (datasourceDoesNotExist name))
      else ret (v1.DatasourceSpec_zero, Some internalServerError)
  | None =>
      match dts with
      | Some dts => ret (v1.Datasource_Spec dts, None)
      | None => panic nilPointer
      end
  end.

Definition getDashboardDatasource (e : Proxy) (projectName dashboardName name : string)
    : M (v1.DatasourceSpec * option error) :=
  emit (Dashboard_Get projectName dashboardName) ;;
  let '(db, err) := Dashboard e projectName dashboardName in
  match err with
  | Some err =>
      if databaseModel.IsKeyNotFound err
      then ret (v1.DatasourceSpec_zero, Some (datasourceDoesNotExist name))
      else ret (v1.DatasourceSpec_zero, Some internalServerError)
  | None =>
      match db with
      | Some db =>
          match v1.Datasources (v1.Dashboard_Spec db) !! name with
          | None => ret (v1.DatasourceSpec_zero, Some (datasourceDoesNotExist name))
          | Some dtsSpec => ret (dtsSpec, None)
          end
      | None => panic nilPointer
      end
  end.

Definition getGlobalSecret (e : Proxy) (dtsName name : string)
    : M (option v1.SecretSpec * option error) :=
  emit (GlobalSecret_Get name) ;;
  let '(scrt, err) := GlobalSecret e name in
  match err with
  | Some err =>
      if databaseModel.IsKeyNotFound err
      then ret (None, Some (secretDoesNotExist dtsName name))
      else ret (None, Some internalServerError)
  | None =>
      match scrt with
      | Some scrt => ret (Some (v1.GlobalSecret_Spec scrt), None)
      | None => panic nilPointer
      end
  end.

Definition getProjectSecret (e : Proxy) (projectName dtsName name : string)
    : M (option v1.SecretSpec * option error) :=
  emit (Secret_Get projectName name) ;;
  let '(scrt, err) := Secret e projectName name in
  match err with
  | Some err =>
      if databaseModel.IsKeyNotFound err
      then ret (None, Some (secretDoesNotExist dtsName name))
      else ret (None, Some internalServerError)
  | None =>
      match scrt with
      | Some scrt => ret (Some (v1.Secret_Spec scrt), None)
      | None => panic nilPointer
      end
  end.

(** ** Building the descriptor *)

(** The tail of [newProxy], from [if cfg != nil] on. *)
Definition newProxyResult (cfg : option datasourceHTTP.Config) (path : string)
    (scrt : option v1.SecretSpec) : option httpProxy * option error :=
  match cfg with
  | Some cfg => (Some {| config := cfg; path := path; secret_ := scrt |}, None)
  | None =>
      (None, Some (echo.NewHTTPError http.StatusBadGateway
                     (Some "datasource type 'v1.DatasourceSpec' not managed")))
  end.

(** A [nil] return value of [newProxy] is [None].  Note the test after
    [retrieveSecret]: the source returns when [err == nil]. *)
Definition newProxy (spec : v1.DatasourceSpec) (path : string) (crypto : crypto.Crypto)
    (retrieveSecret : string -> M (option v1.SecretSpec * option error))
    : M (option httpProxy * option error) :=
  let '(cfg, err) := ValidateAndExtract rt (v1.Spec (v1.plugin spec)) in
  match err with
  | Some _ =>
      ret (None, Some (echo.NewHTTPError http.StatusBadGateway
                         (Some "unable to find the http config")))
  | None =>
      match cfg with
      | None => panic nilPointer                    (* [cfg.Secret] on a nil [cfg] *)
      | Some c =>
          if GoString.nonEmpty (datasourceHTTP.Secret c) then
            let* (scrt, err) := retrieveSecret (datasourceHTTP.Secret c) in
            match err with
            | None => ret (None, err)               (* [if err == nil { return nil, err }] *)
            | Some _ =>
                emit (Crypto_Decrypt scrt) ;;
                let* (scrt, decryptErr) := liftRes (crypto.Decrypt crypto scrt) in
                match decryptErr with
                | Some _ =>
                    ret (None, Some (echo.NewHTTPError http.StatusInternalServerError None))
                | None => ret (newProxyResult cfg path scrt)
                end
            end
          else ret (newProxyResult cfg path None)
      end
  end.

(** ** Preparing the request *)

(** The request of the context is updated in place. *)
Definition setupAuthentication (h : httpProxy) : M (option error) :=
  match secret_ h with
  | None => ret None
  | Some scrt =>
      let* afterBasic :=
        match v1.BasicAuth scrt with
        | Some basicAuth =>
            let '(password, err) := secret.GetPassword basicAuth in
            match err with
            | Some err => ret (Some err)
            | None =>
                let* req := getRequest in
                setRequest (http.SetBasicAuth req (secret.Username basicAuth) password) ;;
                ret None
            end
        | None => ret None
        end in
      match afterBasic with
      | Some err => ret (Some err)
      | None =>
          match v1.Authorization scrt with
          | Some auth =>
              let '(credential, err) := secret.GetCredentials auth in
              match err with
              | Some err => ret (Some err)
              | None =>
                  let* req := getRequest in
                  setRequest
                    (http.withHeader req
                       (http.Header_Set (http.Header_ req) "Authorization"
                          (secret.Type_ auth +:+ " " +:+ credential))) ;;
                  ret None
              end
          | None => ret None
          end
      end
  end.

(** [for k, v := range h.config.Headers { req.Header.Set(k, v) }] *)
Fixpoint setHeaders (headers : list (string * string)) (hd : http.Header) : http.Header :=
  match headers with
  | [] => hd
  | (k, v) :: headers' => setHeaders headers' (http.Header_Set hd k v)
  end.

Definition prepareRequest (h : httpProxy) : M (option error) :=
  let* req := getRequest in
  setRequest (http.withHost req (url.Host (datasourceHTTP.URL (config h)))) ;;
  let* req := getRequest in
  (if (String.length (http.Header_Get (http.Header_ req) echo.HeaderXRealIP) =? 0)%nat
   then setRequest (http.withHeader req
                      (http.Header_Set (http.Header_ req) echo.HeaderXRealIP (RealIP rt req)))
   else ret tt) ;;
  let* req := getRequest in
  (if (String.length (http.Header_Get (http.Header_ req) echo.HeaderXForwardedProto) =? 0)%nat
   then setRequest (http.withHeader req
                      (http.Header_Set (http.Header_ req) echo.HeaderXForwardedProto
                         (Scheme rt req)))
   else ret tt) ;;
  let* req := getRequest in
  (if (0 <? length (datasourceHTTP.Headers (config h)))%nat
   then setRequest (http.withHeader req
                      (setHeaders (datasourceHTTP.Headers (config h)) (http.Header_ req)))
   else ret tt) ;;
  setupAuthentication h.

(** ** The transport *)

Definition prepareTLSConfig (h : httpProxy) : option tls.Config * option error :=
  match secret_ h with
  | None => (Some (tls.withMinVersion tls.VersionTLS12), None)
  | Some scrt =>
      let cfg :=
        {| promConfig.CA := secret.CA (v1.TLSConfig scrt);
           promConfig.Cert := secret.Cert (v1.TLSConfig scrt);
           promConfig.Key := secret.Key (v1.TLSConfig scrt);
           promConfig.CAFile := secret.CAFile (v1.TLSConfig scrt);
           promConfig.CertFile := secret.CertFile (v1.TLSConfig scrt);
           promConfig.KeyFile := secret.KeyFile (v1.TLSConfig scrt);
           promConfig.ServerName := secret.ServerName (v1.TLSConfig scrt);
           promConfig.InsecureSkipVerify := secret.InsecureSkipVerify (v1.TLSConfig scrt);
           promConfig.MinVersion := promConfig.TLSVersions "TLS12";
           promConfig.MaxVersion := promConfig.TLSVersions "TLS13" |} in
      NewTLSConfig rt cfg
  end.

Definition prepareTransport (h : httpProxy) : option http.Transport * option error :=
  let '(tlsConfig, err) := prepareTLSConfig h in
  match err with
  | Some _ =>
      (None, Some (echo.NewHTTPError http.StatusBadGateway (Some "unable build the tls config")))
  | None =>
      (Some {| http.ProxyFromEnvironment := true;
               http.DialTimeout := 30 * time.Second;
               http.DialKeepAlive := 30 * time.Second;
               http.TLSHandshakeTimeout := 10 * time.Second;
               http.IdleConnTimeout := 90 * time.Second;
               http.ForceAttemptHTTP2 := true;
               http.TLSClientConfig := tlsConfig |}, None)
  end.

(** ** Serving *)

(** The loop over the allow-list: [true] as soon as an entry has the
    method of the request and a pattern that is found in the path. *)
Definition isAllowed (h : httpProxy) (req : http.Request) : bool :=
  existsb
    (fun allowedEndpoint =>
       String.eqb (datasourceHTTP.Method allowedEndpoint) (http.Method req)
       && (0 <? length (FindAllString (datasourceHTTP.EndpointPattern allowedEndpoint)
                          (path h)))%nat)
    (datasourceHTTP.AllowedEndpoints (config h)).

Definition notAllowed (h : httpProxy) (req : http.Request) : error :=
  echo.NewHTTPError http.StatusForbidden
    (Some ("you are not allowed to use this endpoint " +:+ Quote rt (path h)
           +:+ " with the HTTP method " +:+ http.Method req)).

(** [reverseProxy.ServeHTTP(res, req)] with the [ErrorHandler] that [serve]
    installs, and the [proxyErr] that [serve] returns after it: the error of
    the round trip, if any; else, when the copy of the answer fails, the
    panic of [ServeHTTP]; else no error. *)
Definition ServeHTTP (target : url.URL) (transport : http.Transport) (req : http.Request)
    : Res (option error) :=
  match RoundTrip rt target transport req with
  | Some detail => Ret (Some (Failure detail))
  | None =>
      if CopyAborts rt target transport req then Panic http.ErrAbortHandler else Ret None
  end.

Definition serve (h : httpProxy) : M (option error) :=
  let* req := getRequest in
  if (0 <? length (datasourceHTTP.AllowedEndpoints (config h)))%nat && negb (isAllowed h req)
  then ret (Some (notAllowed h req))
  else
    let* err := prepareRequest h in
    match err with
    | Some _ => ret (Some (echo.NewHTTPError http.StatusInternalServerError None))
    | None =>
        let* req := getRequest in
        setRequest (http.withPath req (path h)) ;;
        let '(transport, transportErr) := prepareTransport h in
        match transportErr with
        | Some transportErr => ret (Some transportErr)
        | None =>
            match transport with
            | None => panic nilPointer
            | Some transport =>
                let* req := getRequest in
                emit (ReverseProxy_ServeHTTP (datasourceHTTP.URL (config h)) transport req) ;;
                liftRes (ServeHTTP (datasourceHTTP.URL (config h)) transport req)
            end
        end
    end.

(** [pr.serve(ctx)] for the interface value [pr]: a [nil] interface has no
    method to call. *)
Definition callServe (pr : option httpProxy) : M (option error) :=
  match pr with
  | Some h => serve h
  | None => panic nilPointer
  end.

(** ** The three pipelines *)

Definition proxyGlobalDatasource (e : Proxy) : M (option error) :=
  let* req := getRequest in
  let '(dtsName, path, err) := extractGlobalDatasourceAndPath (url.Path (http.URL req)) in
  match err with
  | Some err => ret (Some err)
  | None =>
      let* (dts, err) := getGlobalDatasource e dtsName in
      match err with
      | Some err => ret (Some err)
      | None =>
          let* (pr, err) :=
            newProxy dts path (Crypto e) (fun name => getGlobalSecret e dtsName name) in
          match err with
          | Some err => ret (Some err)
          | None => callServe pr
          end
      end
  end.

Definition proxyProjectDatasource (e : Proxy) : M (option error) :=
  let* req := getRequest in
  let '(projectName, dtsName, path, err) :=
    extractProjectDatasourceAndPath (url.Path (http.URL req)) in
  match err with
  | Some err => ret (Some err)
  | None =>
      let* (dts, err) := getProjectDatasource e projectName dtsName in
      match err with
      | Some err => ret (Some err)
      | None =>
          let* (pr, err) :=
            newProxy dts path (Crypto e)
              (fun name => getProjectSecret e projectName dtsName name) in
          match err with
          | Some err => ret (Some err)
          | None => callServe pr
          end
      end
  end.

Definition proxyDashboardDatasource (e : Proxy) : M (option error) :=
  let* req := getRequest in
  let '(projectName, dashboardName, dtsName, path, err) :=
    extractProjectDashboardDatasourceAndPath (url.Path (http.URL req)) in
  match err with
  | Some err => ret (Some err)
  | None =>
      let* (dts, err) := getDashboardDatasource e projectName dashboardName dtsName in
      match err with
      | Some err => ret (Some err)
      | None =>
          let* (pr, err) :=
            newProxy dts path (Crypto e)
              (fun name => getProjectSecret e projectName dtsName name) in
          match err with
          | Some err => ret (Some err)
          | None => callServe pr
          end
      end
  end.

(** The method [Proxy] of the struct [Proxy]; [next] is the handler the
    middleware wraps. *)
Definition Proxy_Proxy (e : Proxy) (next : M (option error)) : M (option error) :=
  let* req := getRequest in
  let requestPath := url.Path (http.URL req) in
  let globalDatasourceMatch := MatchString globalProxyMatcher requestPath in
  let projectDatasourceMatch := MatchString projectProxyMatcher requestPath in
  let dashboardDatasourceMatch := MatchString dashboardProxyMatcher requestPath in
  if negb globalDatasourceMatch && negb projectDatasourceMatch && negb dashboardDatasourceMatch
  then next
  else if globalDatasourceMatch then proxyGlobalDatasource e
  else if projectDatasourceMatch then proxyProjectDatasource e
  else proxyDashboardDatasource e.

End Middleware.

(* ===================================================================== *)
(** * Vocabulary of the statements *)
(* ===================================================================== *)

(** ** Request paths *)

(** The parts the three matchers are made of.  The class of the names,
    "[a-zA-Z-0-9_-]": letters, digits, underscore and hyphen (the hyphen
    after "Z" stands for itself). *)
Definition nameRanges : list (ascii * ascii) :=
  [("a", "z"); ("A", "Z"); ("-", "-"); ("0", "9"); ("_", "_"); ("-", "-")]%char.

Definition nameClass : Regexp := CharClass nameRanges.

(** The optional last group, a slash and what follows up to a line feed,
    as group [i]. *)
Definition restGroup (i : nat) : Regexp :=
  Quest (Capture i (Concat (Literal "/") (Star AnyCharNotNL))).

(** The literal bytes [p], then [r]. *)
Fixpoint prefixed (p : list ascii) (r : Regexp) : Regexp :=
  match p with
  | [] => r
  | c :: p' => Concat (Literal c) (prefixed p' r)
  end.

(** The input [s] is at its end or starts with a byte that fails [p]. *)
Definition stopsAt (p : ascii -> bool) (s : list ascii) : Prop :=
  match s with
  | [] => True
  | y :: _ => p y = false
  end.

(** Every byte is below 0x80.  Go's [regexp] reads its input as UTF-8, one
    character at a time; on such an input every byte is one character, and
    the byte-wise reading of module [regexp] is the reading of Go. *)
Definition isASCII (s : string) : bool :=
  forallb (fun c => (N_of_ascii c <? 128)%N) (GoString.bytes s).

(** A name as the templates have it: one or more bytes of the class. *)
Definition validName (name : string) : bool :=
  GoString.nonEmpty name && forallb (inClass nameRanges) (GoString.bytes name).

(** A suffix as the templates have it: nothing, or a slash followed by
    bytes other than line feed. *)
Definition validRest (rest : string) : bool :=
  match GoString.bytes rest with
  | [] => true
  | c :: rest' => Ascii.eqb c "/" && forallb notNL rest'
  end.

(** The forwarded path for a suffix. *)
Definition forwarded (rest : string) : string :=
  if GoString.nonEmpty rest then rest else "/".

(** The register of the suffix group: unset when there is no suffix. *)
Definition restRegister (pos : nat) (rest : string) : option (nat * nat) :=
  if GoString.nonEmpty rest then Some (pos, (pos + String.length rest)%nat) else None.

Definition LF : string := String newline "".

(** The project a project-scoped path names, and the one a dashboard-scoped
    path names. *)
Definition projectOf (requestPath : string) : string :=
  let '(projectName, _, _, _) := extractProjectDatasourceAndPath requestPath in projectName.

Definition dashboardProjectOf (requestPath : string) : string :=
  let '(projectName, _, _, _, _) := extractProjectDashboardDatasourceAndPath requestPath in
  projectName.

Definition requestPath (w : World) : string := url.Path (http.URL (request w)).

(** The path holds a template somewhere: the fixed parts of the template
    with names of the class, whatever stands before and after. *)
Definition holdsGlobalTemplate (path : string) : Prop :=
  exists pre name post,
    path = pre +:+ "/proxy/globaldatasources/" +:+ name +:+ post /\ validName name = true.

Definition holdsProjectTemplate (path : string) : Prop :=
  exists pre project name post,
    path = pre +:+ "/proxy/projects/" +:+ project +:+ "/datasources/" +:+ name +:+ post /\
    validName project = true /\ validName name = true.

Definition holdsDashboardTemplate (path : string) : Prop :=
  exists pre project dashboard name post,
    path = pre +:+ "/proxy/projects/" +:+ project +:+ "/dashboards/" +:+ dashboard
             +:+ "/datasources/" +:+ name +:+ post /\
    validName project = true /\ validName dashboard = true /\ validName name = true.

(** ** Traces *)

(** The calls a computation adds to the trace when run from [w]. *)
Definition newEvents {A} (m : M A) (w : World) : list Event :=
  drop (length (trace w)) (trace (snd (m w))).

(** [m], run from [w], keeps the calls made so far and adds only calls
    that satisfy [P]. *)
Definition emitsOnly {A} (P : Event -> Prop) (m : M A) (w : World) : Prop :=
  exists evs, trace (snd (m w)) = trace w ++ evs /\ Forall P evs.

(** A call the global pipeline may make: none to a project store. *)
Definition globalScoped (ev : Event) : Prop :=
  match ev with
  | DTS_Get _ _ | Dashboard_Get _ _ | Secret_Get _ _ => False
  | _ => True
  end.

(** A call a pipeline working for [project] may make: none to a global
    store, and to a project store only under [project]. *)
Definition projectScoped (project : string) (ev : Event) : Prop :=
  match ev with
  | GlobalDTS_Get _ | GlobalSecret_Get _ => False
  | DTS_Get p _ | Dashboard_Get p _ | Secret_Get p _ => p = project
  | _ => True
  end.

Definition anyEvent (ev : Event) : Prop := True.

(** The world [w] with the calls [evs] added to its trace. *)
Definition record (w : World) (evs : list Event) : World :=
  {| request := request w; trace := trace w ++ evs |}.

(** ** Outcomes of [serve] *)

(** Some entry of the allow-list has the method and a pattern that matches
    somewhere in the forwarded path. *)
Definition permits (h : httpProxy) (method : string) : Prop :=
  exists entry,
    entry ∈ datasourceHTTP.AllowedEndpoints (config h) /\
    datasourceHTTP.Method entry = method /\
    Found (datasourceHTTP.EndpointPattern entry) (GoString.bytes (path h)).

(** The reverse proxy was called. *)
Definition dispatched {A} (m : M A) (w : World) : Prop :=
  exists target transport req, ReverseProxy_ServeHTTP target transport req ∈ newEvents m w.


(** The call returned an HTTP error with this status. *)
Definition answers (code : Z) (r : Res (option error)) : bool :=
  match r with
  | Ret (Some (HTTPError c _)) => (c =? code)%Z
  | _ => false
  end.

(* ===================================================================== *)
(** * A small installation *)
(* ===================================================================== *)

(** Concrete stores, a concrete runtime and a few requests, on which the
    general statements are instantiated and the pipelines are run. *)

Module Demo.

(** A rendering of verb [%q] that is exact on the printable ASCII strings
    without quote or backslash used below. *)
Definition quote (s : string) : string := String "034" (s +:+ String "034" "").

Definition upstream : url.URL :=
  {| url.Scheme := "http"; url.Host := "prometheus.example:9090"; url.Path := "" |}.

Definition configWithSecret : datasourceHTTP.Config :=
  {| datasourceHTTP.URL := upstream;
     datasourceHTTP.AllowedEndpoints := [];
     datasourceHTTP.Headers := [];
     datasourceHTTP.Secret := "s1" |}.

Definition configPlain : datasourceHTTP.Config :=
  {| datasourceHTTP.URL := upstream;
     datasourceHTTP.AllowedEndpoints := [];
     datasourceHTTP.Headers := [];
     datasourceHTTP.Secret := "" |}.

Definition noTLS : secret.TLSConfig :=
  {| secret.CA := ""; secret.Cert := ""; secret.Key := ""; secret.CAFile := "";
     secret.CertFile := ""; secret.KeyFile := ""; secret.ServerName := "";
     secret.InsecureSkipVerify := false |}.

Definition basicSecret : v1.SecretSpec :=
  {| v1.BasicAuth := Some {| secret.Username := "u"; secret.GetPassword := ("p", None) |};
     v1.Authorization := None;
     v1.TLSConfig := noTLS |}.

Definition bothSecret : v1.SecretSpec :=
  {| v1.BasicAuth := Some {| secret.Username := "u"; secret.GetPassword := ("p", None) |};
     v1.Authorization :=
       Some {| secret.Type_ := "Bearer"; secret.GetCredentials := ("tok", None) |};
     v1.TLSConfig := noTLS |}.

Definition runtime : Runtime :=
  {| Quote := quote;
     ValidateAndExtract := fun spec =>
       if String.eqb spec "http-with-secret" then (Some configWithSecret, None)
       else if String.eqb spec "http" then (Some configPlain, None)
       else (None, Some (Failure "no http config"));
     NewTLSConfig := fun c =>
       (Some {| tls.RootCAs :=
                  if GoString.nonEmpty (promConfig.CA c) then Some (promConfig.CA c) else None;
                tls.Certificates := None;
                tls.ServerName := promConfig.ServerName c;
                tls.InsecureSkipVerify := promConfig.InsecureSkipVerify c;
                tls.MinVersion := promConfig.MinVersion c;
                tls.MaxVersion := promConfig.MaxVersion c |}, None);
     RealIP := fun _ => "192.0.2.7";
     Scheme := fun _ => "https";
     RoundTrip := fun _ _ _ => None;
     CopyAborts := fun _ _ _ => false |}.

Definition datasource (spec : string) : v1.DatasourceSpec :=
  {| v1.plugin := {| v1.Kind := "PrometheusDatasource"; v1.Spec := spec |} |}.

Definition notFound {T} : option T * option error := (None, Some (KeyNotFound "key not found")).

(** Project [p1] holds the datasource [prom1] and the dashboard [d1], whose
    embedded datasource has the key [ds-key]; the global datasource is
    [gprom].  All three name the secret [s1]; [withSecret] says whether the
    project and the global secret stores hold it. *)
Definition stores (withSecret : bool) (crypto : crypto.Crypto) : Proxy :=
  {| Dashboard := fun project name =>
       if String.eqb project "p1" && String.eqb name "d1"
       then (Some {| v1.Dashboard_Spec :=
                       {| v1.Datasources := {[ "ds-key" := datasource "http-with-secret" ]} |} |},
             None)
       else notFound;
     Secret := fun project name =>
       if withSecret && String.eqb project "p1" && String.eqb name "s1"
       then (Some {| v1.Secret_Spec := basicSecret |}, None)
       else notFound;
     GlobalSecret := fun name =>
       if withSecret && String.eqb name "s1"
       then (Some {| v1.GlobalSecret_Spec := basicSecret |}, None)
       else notFound;
     DTS := fun project name =>
       if String.eqb project "p1" && String.eqb name "prom1"
       then (Some {| v1.Datasource_Spec := datasource "http-with-secret" |}, None)
       else notFound;
     GlobalDTS := fun name =>
       if String.eqb name "gprom"
       then (Some {| v1.GlobalDatasource_Spec := datasource "http-with-secret" |}, None)
       else notFound;
     Crypto := crypto |}.

(** Stores that are out of order: every call fails with an error that is
    not "not found". *)
Definition brokenStores (crypto : crypto.Crypto) : Proxy :=
  {| Dashboard := fun _ _ => (None, Some (Failure "connection refused"));
     Secret := fun _ _ => (None, Some (Failure "connection refused"));
     GlobalSecret := fun _ => (None, Some (Failure "connection refused"));
     DTS := fun _ _ => (None, Some (Failure "connection refused"));
     GlobalDTS := fun _ => (None, Some (Failure "connection refused"));
     Crypto := crypto |}.

(** A crypto service that leaves a secret as it is and cannot do without
    one. *)
Definition identityCrypto : crypto.Crypto :=
  {| crypto.Decrypt := fun scrt =>
       match scrt with
       | Some s => Ret (Some s, None)
       | None => Panic nilPointer
       end |}.

Definition get (requestPath : string) : http.Request :=
  {| http.Method := "GET";
     http.URL := {| url.Scheme := ""; url.Host := ""; url.Path := requestPath |};
     http.Host := "perses.example";
     http.Header_ := ∅ |}.

Definition world (requestPath : string) : World :=
  {| request := get requestPath; trace := [] |}.

Definition next : M (option error) := ret None.

(** A runtime whose TLS builder rejects every configuration. *)
Definition runtimeBadTLS : Runtime :=
  {| Quote := quote;
     ValidateAndExtract := ValidateAndExtract runtime;
     NewTLSConfig := fun _ => (None, Some (Failure "unable to load specified CA cert"));
     RealIP := RealIP runtime;
     Scheme := Scheme runtime;
     RoundTrip := RoundTrip runtime;
     CopyAborts := CopyAborts runtime |}.

(** A datasource that accepts [GET] on the query endpoint only. *)
Definition queryOnly : datasourceHTTP.AllowedEndpoint :=
  {| datasourceHTTP.EndpointPattern := MustCompile "/api/v1/query";
     datasourceHTTP.Method := "GET" |}.

Definition configGated : datasourceHTTP.Config :=
  {| datasourceHTTP.URL := upstream;
     datasourceHTTP.AllowedEndpoints := [queryOnly];
     datasourceHTTP.Headers := [];
     datasourceHTTP.Secret := "" |}.

Definition gated (forwardedPath : string) : httpProxy :=
  {| config := configGated; secret_ := None; path := forwardedPath |}.

Definition withSecret (scrt : v1.SecretSpec) : httpProxy :=
  {| config := configPlain; secret_ := Some scrt; path := "/api/v1/query" |}.

Definition post (requestPath : string) : World :=
  {| request :=
       {| http.Method := "POST";
          http.URL := {| url.Scheme := ""; url.Host := ""; url.Path := requestPath |};
          http.Host := "perses.example";
          http.Header_ := ∅ |};
     trace := [] |}.

(** The path of the end-to-end example. *)
Definition queryPath : string := "/proxy/projects/p1/datasources/prom1/api/v1/query".

(** The world after the datasource lookup, the secret lookup and the call
    of [Decrypt] on no secret. *)
Definition afterDecrypt (w : World) : World :=
  record (record (record w [DTS_Get "p1" "prom1"]) [Secret_Get "p1" "s1"]) [Crypto_Decrypt None].

End Demo.

(* ===================================================================== *)
(** * Vocabulary of the further properties *)
(* ===================================================================== *)

(** ** Matches and registers *)

(** [Captures pre re u post caps caps']: a match of [re] on the part [u] of
    the input [pre ++ u ++ post] that turns the registers [caps] into
    [caps']: every group that takes part writes the offsets of its text. *)
Inductive Captures : list ascii -> Regexp -> list ascii -> list ascii -> Caps -> Caps -> Prop :=
| CEmptyMatch pre post c : Captures pre EmptyMatch [] post c c
| CLiteral pre x post c : Captures pre (Literal x) [x] post c c
| CAnyCharNotNL pre x post c : notNL x = true -> Captures pre AnyCharNotNL [x] post c c
| CCharClass pre ranges x post c :
    inClass ranges x = true -> Captures pre (CharClass ranges) [x] post c c
| CBeginText post c : Captures [] BeginText [] post c c
| CEndText pre c : Captures pre EndText [] [] c c
| CCapture pre i r u post c c' :
    Captures pre r u post c c' ->
    Captures pre (Capture i r) u post c
      (<[i := Some (length pre, (length pre + length u)%nat)]> c')
| CStarNil pre r post c : Captures pre (Star r) [] post c c
| CStarCons pre r u1 u2 post c c1 c2 :
    u1 <> [] -> Captures pre r u1 (u2 ++ post) c c1 ->
    Captures (pre ++ u1) (Star r) u2 post c1 c2 ->
    Captures pre (Star r) (u1 ++ u2) post c c2
| CQuestNone pre r post c : Captures pre (Quest r) [] post c c
| CQuestSome pre r u post c c' : Captures pre r u post c c' -> Captures pre (Quest r) u post c c'
| CConcat pre r1 r2 u1 u2 post c c1 c2 :
    Captures pre r1 u1 (u2 ++ post) c c1 -> Captures (pre ++ u1) r2 u2 post c1 c2 ->
    Captures pre (Concat r1 r2) (u1 ++ u2) post c c2
| CAlternateL pre r1 r2 u post c c' :
    Captures pre r1 u post c c' -> Captures pre (Alternate r1 r2) u post c c'
| CAlternateR pre r1 r2 u post c c' :
    Captures pre r2 u post c c' -> Captures pre (Alternate r1 r2) u post c c'.

(** The shape of the statement that what a matcher finds is a match with
    its registers. *)
Definition CapturesAt {A} (re : Regexp)
    (step : nat -> list ascii -> Caps -> (nat -> list ascii -> Caps -> option A) -> option A)
    : Prop :=
  forall pre s caps k x,
    step (length pre) s caps k = Some x ->
    exists u post caps',
      s = u ++ post /\ Captures pre re u post caps caps' /\
      k (length pre + length u) post caps' = Some x.

(** A pattern without [^] and [$]: whether it matches a part of the input
    does not depend on where the part stands. *)
Fixpoint anchorFree (re : Regexp) : bool :=
  match re with
  | BeginText | EndText => false
  | Capture _ r | Star r | Quest r => anchorFree r
  | Concat r1 r2 | Alternate r1 r2 => anchorFree r1 && anchorFree r2
  | _ => true
  end.

(** The match of a template that ends with [suffix] cannot be made longer
    when [remainder] follows: after a suffix the input ends or goes on with
    a line feed; after a name without suffix it ends or goes on with a byte
    that is neither of the class nor a slash. *)
Definition endsMatch (suffix : string) (remainder : list ascii) : Prop :=
  if GoString.nonEmpty suffix then stopsAt notNL remainder
  else stopsAt (fun c => inClass nameRanges c || Ascii.eqb c "/") remainder.

(** No slash among the bytes. *)
Definition slashFree (l : list ascii) : bool :=
  forallb (fun c => negb (Ascii.eqb c "/")) l.

(** ** The request on its way through [prepareRequest] *)

(** The steps of [prepareRequest] before the authentication, as functions
    of the request: what each block of the source leaves in place of the
    request it finds.  [prepareRequest_forwardedRequest] shows that
    [prepareRequest] is these steps followed by [setupAuthentication]. *)
Definition withRealIP (rt : Runtime) (req : http.Request) : http.Request :=
  if (String.length (http.Header_Get (http.Header_ req) echo.HeaderXRealIP) =? 0)%nat
  then http.withHeader req (http.Header_Set (http.Header_ req) echo.HeaderXRealIP (RealIP rt req))
  else req.

Definition withForwardedProto (rt : Runtime) (req : http.Request) : http.Request :=
  if (String.length (http.Header_Get (http.Header_ req) echo.HeaderXForwardedProto) =? 0)%nat
  then http.withHeader req
         (http.Header_Set (http.Header_ req) echo.HeaderXForwardedProto (Scheme rt req))
  else req.

Definition withConfigHeaders (h : httpProxy) (req : http.Request) : http.Request :=
  if (0 <? length (datasourceHTTP.Headers (config h)))%nat
  then http.withHeader req (setHeaders (datasourceHTTP.Headers (config h)) (http.Header_ req))
  else req.

Definition forwardedRequest (rt : Runtime) (h : httpProxy) (req : http.Request) : http.Request :=
  withConfigHeaders h
    (withForwardedProto rt
       (withRealIP rt (http.withHost req (url.Host (datasourceHTTP.URL (config h)))))).

(** [setupAuthentication] as a function of the request: the request it
    leaves and the error it returns ([setupAuthentication_authenticated]). *)
Definition authenticated (h : httpProxy) (req : http.Request) : http.Request * option error :=
  match secret_ h with
  | None => (req, None)
  | Some scrt =>
      let '(req1, err1) :=
        match v1.BasicAuth scrt with
        | Some basicAuth =>
            match secret.GetPassword basicAuth with
            | (_, Some err) => (req, Some err)
            | (password, None) =>
                (http.SetBasicAuth req (secret.Username basicAuth) password, None)
            end
        | None => (req, None)
        end in
      match err1 with
      | Some err => (req1, Some err)
      | None =>
          match v1.Authorization scrt with
          | Some auth =>
              match secret.GetCredentials auth with
              | (_, Some err) => (req1, Some err)
              | (credential, None) =>
                  (http.withHeader req1
                     (http.Header_Set (http.Header_ req1) "Authorization"
                        (secret.Type_ auth +:+ " " +:+ credential)), None)
              end
          | None => (req1, None)
          end
      end
  end.

(** The world [w] with another request. *)
Definition withRequest (w : World) (req : http.Request) : World :=
  {| request := req; trace := trace w |}.

(** The canonical keys of the headers of a configuration. *)
Definition configKeys (h : httpProxy) : list string :=
  map (fun kv => textproto.CanonicalMIMEHeaderKey (fst kv)) (datasourceHTTP.Headers (config h)).

(** ** Pipelines *)

(** A call to a store whose keys taken from the request path are names of
    the class; the name of a secret comes from the configuration of the
    datasource and is not constrained. *)
Definition wellNamed (ev : Event) : Prop :=
  match ev with
  | GlobalDTS_Get name => validName name = true
  | DTS_Get project name => validName project = true /\ validName name = true
  | Dashboard_Get project name => validName project = true /\ validName name = true
  | Secret_Get project _ => validName project = true
  | _ => True
  end.

(** The answer of a resolver to an error of its store. *)
Definition resolverError (rt : Runtime) (name : string) (err : error) : error :=
  if databaseModel.IsKeyNotFound err
  then HTTPError 404 ("unable to forward the request to the datasource " +:+ Quote rt name
                      +:+ ", datasource doesn't exist")
  else HTTPError 500 "internal server error".

(** What a pipeline does once it holds the datasource: the part that
    [proxyGlobalDatasource], [proxyProjectDatasource] and
    [proxyDashboardDatasource] share after the lookup. *)
Definition proxied (rt : Runtime) (e : Proxy) (dts : v1.DatasourceSpec) (path : string)
    (retrieveSecret : string -> M (option v1.SecretSpec * option error)) : M (option error) :=
  let* (pr, err) := newProxy rt dts path (Crypto e) retrieveSecret in
  match err with
  | Some err => ret (Some err)
  | None => callServe rt pr
  end.

(** Any call but the one to the reverse proxy. *)
Definition notDispatch (ev : Event) : Prop :=
  match ev with
  | ReverseProxy_ServeHTTP _ _ _ => False
  | _ => True
  end.

(** ** More cases *)

Module Cases.

(** Stores in which every key leads to a datasource with the plugin
    specification [spec]; they hold no secret. *)
Definition storesOf (spec : string) : Proxy :=
  {| Dashboard := fun _ _ =>
       (Some {| v1.Dashboard_Spec :=
                  {| v1.Datasources := {[ "ds-key" := Demo.datasource spec ]} |} |}, None);
     Secret := fun _ _ => Demo.notFound;
     GlobalSecret := fun _ => Demo.notFound;
     DTS := fun _ _ => (Some {| v1.Datasource_Spec := Demo.datasource spec |}, None);
     GlobalDTS := fun _ => (Some {| v1.GlobalDatasource_Spec := Demo.datasource spec |}, None);
     Crypto := Demo.identityCrypto |}.

(** The transport of a proxy without secret. *)
Definition transport : http.Transport :=
  {| http.ProxyFromEnvironment := true;
     http.DialTimeout := 30000000000;
     http.DialKeepAlive := 30000000000;
     http.TLSHandshakeTimeout := 10000000000;
     http.IdleConnTimeout := 90000000000;
     http.ForceAttemptHTTP2 := true;
     http.TLSClientConfig := Some (tls.withMinVersion tls.VersionTLS12) |}.

(** A runtime whose upstream answers and then cuts the answer short: the
    copy to the client fails. *)
Definition runtimeCut : Runtime :=
  {| Quote := Demo.quote;
     ValidateAndExtract := ValidateAndExtract Demo.runtime;
     NewTLSConfig := NewTLSConfig Demo.runtime;
     RealIP := RealIP Demo.runtime;
     Scheme := Scheme Demo.runtime;
     RoundTrip := fun _ _ _ => None;
     CopyAborts := fun _ _ _ => true |}.

(** What the upstream of [Demo.runtime] is sent for a [GET] without
    headers: the request for [forwardedPath]. *)
Definition sent (forwardedPath : string) : http.Request :=
  {| http.Method := "GET";
     http.URL := {| url.Scheme := ""; url.Host := ""; url.Path := forwardedPath |};
     http.Host := "prometheus.example:9090";
     http.Header_ :=
       http.Header_Set (http.Header_Set ∅ "X-Real-Ip" "192.0.2.7") "X-Forwarded-Proto" "https" |}.


(** A datasource that sends a tenant header. *)
Definition configTenant : datasourceHTTP.Config :=
  {| datasourceHTTP.URL := Demo.upstream;
     datasourceHTTP.AllowedEndpoints := [];
     datasourceHTTP.Headers := [("x-scope-orgid", "tenant-1")];
     datasourceHTTP.Secret := "" |}.

Definition tenant : httpProxy :=
  {| config := configTenant; secret_ := None; path := "/api/v1/query" |}.

End Cases.

(* ===================================================================== *)
(** * Facts about strings and patterns *)
(* ===================================================================== *)

Lemma bytes_app (a b : string) :
  GoString.bytes (a +:+ b) = GoString.bytes a ++ GoString.bytes b.
Proof. induction a as [|c a IH]; simpl; [reflexivity | now rewrite IH]. Qed.

Lemma bytes_length (a : string) : length (GoString.bytes a) = String.length a.
Proof. induction a as [|c a IH]; simpl; [reflexivity | now rewrite IH]. Qed.

Lemma str_bytes (s : string) : GoString.str (GoString.bytes s) = s.
Proof. apply string_of_list_ascii_of_string. Qed.

Lemma bytes_str (l : list ascii) : GoString.bytes (GoString.str l) = l.
Proof. apply list_ascii_of_string_of_list_ascii. Qed.

Lemma bytes_inj (a b : string) : GoString.bytes a = GoString.bytes b -> a = b.
Proof. intros H. rewrite <- (str_bytes a), <- (str_bytes b). now rewrite H. Qed.

Lemma bytes_nonempty c p s : GoString.bytes (String c p +:+ s) <> [].
Proof. discriminate. Qed.

Lemma slice_app_middle (a b c : list ascii) :
  GoString.slice (a ++ b ++ c) (length a) (length a + length b) = b.
Proof.
  unfold GoString.slice. rewrite drop_app_length.
  replace (length a + length b - length a)%nat with (length b) by lia.
  apply take_app_length.
Qed.

(** [whole = a ++ b ++ c], cut at the ends of [a] and of [b]. *)
Lemma slice_of (whole a b c : list ascii) lo hi :
  whole = a ++ b ++ c -> lo = length a -> hi = (length a + length b)%nat ->
  GoString.slice whole lo hi = b.
Proof. intros -> -> ->. apply slice_app_middle. Qed.

Section BacktrackFacts.
Context {A : Type}.
Implicit Types (k : nat -> list ascii -> Caps -> option A).

Lemma starLoop_exit step fuel pos s caps k :
  is_Some (k pos s caps) -> is_Some (starLoop step fuel pos s caps k).
Proof.
  intros Hk. destruct fuel as [|fuel]; simpl; [exact Hk|].
  destruct (step pos s caps _); [eauto | exact Hk].
Qed.

(** Every match the relation describes is found by the matcher, whatever
    the continuation, as long as the continuation accepts the place the match
    ends at. *)
Lemma backtrack_complete_gen pre re u post :
  Matches pre re u post ->
  forall k,
    (forall caps, is_Some (k (length pre + length u) post caps)) ->
    (forall caps, is_Some (backtrack re (length pre) (u ++ post) caps k)) /\
    (forall r fuel caps, re = Star r -> length (u ++ post) <= fuel ->
       is_Some (starLoop (backtrack r) fuel (length pre) (u ++ post) caps k)).
Proof.
  induction 1 as
    [pre post | pre c post | pre c post Hc | pre ranges c post Hc | post | pre
    | pre i r u post _ IH | pre r post
    | pre r u1 u2 post Hne _ IH1 _ IH2
    | pre r post | pre r u post _ IH
    | pre r1 r2 u1 u2 post _ IH1 _ IH2
    | pre r1 r2 u post _ IH | pre r1 r2 u post _ IH ];
    intros k Hk; (split; [intros caps | intros r0 fuel caps Heq Hfuel; try discriminate Heq]); simpl in *.
  - rewrite Nat.add_0_r in Hk. apply Hk.
  - rewrite Ascii.eqb_refl. rewrite Nat.add_1_r in Hk. apply Hk.
  - rewrite Hc. rewrite Nat.add_1_r in Hk. apply Hk.
  - rewrite Hc. rewrite Nat.add_1_r in Hk. apply Hk.
  - apply Hk.
  - rewrite Nat.add_0_r in Hk. apply Hk.
  - apply IH. intros caps'. apply Hk.
  - apply starLoop_exit. rewrite Nat.add_0_r in Hk. apply Hk.
  - apply starLoop_exit. rewrite Nat.add_0_r in Hk. apply Hk.
  - (* Star, one more iteration, as [backtrack] *)
    destruct (IH2 k) as [_ IH2s].
    { intros c. rewrite length_app. specialize (Hk c).
      rewrite length_app, Nat.add_assoc in Hk. exact Hk. }
    rewrite <- app_assoc.
    assert (Hlen : length (u1 ++ u2 ++ post) = S (length (u1 ++ u2 ++ post) - 1)).
    { destruct u1; [congruence | simpl; lia]. }
    rewrite Hlen. simpl.
    match goal with |- is_Some (match ?m with _ => _ end) => destruct m eqn:Hm end; [eauto|].
    exfalso.
    destruct (IH1 (fun pos' s' caps' =>
                if (length pre <? pos')%nat
                then starLoop (backtrack r) (length (u1 ++ u2 ++ post) - 1) pos' s' caps' k
                else None)) as [IH1b _].
    { intros c.
      assert (Hlt : (length pre <? length pre + length u1)%nat = true).
      { apply Nat.ltb_lt. destruct u1; [congruence | simpl; lia]. }
      rewrite Hlt. rewrite <- length_app. apply (IH2s r _ c eq_refl).
      rewrite !length_app. destruct u1; [congruence | simpl; lia]. }
    specialize (IH1b caps). rewrite Hm in IH1b. destruct IH1b as [? ?]. discriminate.
  - (* Star, one more iteration, as [starLoop] with any fuel *)
    injection Heq as <-.
    destruct (IH2 k) as [_ IH2s].
    { intros c. rewrite length_app. specialize (Hk c).
      rewrite length_app, Nat.add_assoc in Hk. exact Hk. }
    rewrite <- app_assoc in *.
    destruct fuel as [|fuel].
    { rewrite length_app in Hfuel. destruct u1; [congruence | simpl in Hfuel; lia]. }
    simpl.
    match goal with |- is_Some (match ?m with _ => _ end) => destruct m eqn:Hm end; [eauto|].
    exfalso.
    destruct (IH1 (fun pos' s' caps' =>
                if (length pre <? pos')%nat
                then starLoop (backtrack r) fuel pos' s' caps' k
                else None)) as [IH1b _].
    { intros c.
      assert (Hlt : (length pre <? length pre + length u1)%nat = true).
      { apply Nat.ltb_lt. destruct u1; [congruence | simpl; lia]. }
      rewrite Hlt. rewrite <- length_app. apply (IH2s r _ c eq_refl).
      rewrite !length_app in *. destruct u1; [congruence | simpl in *; lia]. }
    specialize (IH1b caps). rewrite Hm in IH1b. destruct IH1b as [? ?]. discriminate.
  - destruct (backtrack r _ _ _ _); [eauto|]. rewrite Nat.add_0_r in Hk. apply Hk.
  - destruct (IH k Hk) as [IHb _]. specialize (IHb caps).
    destruct (backtrack r _ _ _ _); [eauto|]. destruct IHb; discriminate.
  - rewrite <- app_assoc. apply IH1. intros c.
    rewrite <- length_app. apply IH2. intros c'.
    rewrite length_app. specialize (Hk c'). rewrite length_app, Nat.add_assoc in Hk. exact Hk.
  - destruct (IH k Hk) as [IHb _]. specialize (IHb caps).
    destruct (backtrack r1 _ _ _ _); [eauto|]. destruct IHb; discriminate.
  - destruct (backtrack r1 _ _ _ _); [eauto|]. apply IH, Hk.
Qed.
End BacktrackFacts.

Section BacktrackSound.
Context {A : Type}.
Implicit Types (k : nat -> list ascii -> Caps -> option A).

Lemma starLoop_sound r :
  @SoundAt A r (backtrack r) ->
  forall fuel, @SoundAt A (Star r) (starLoop (backtrack r) fuel).
Proof.
  intros IHr fuel. induction fuel as [|fuel IHf]; intros pre s caps k x Hx; simpl in Hx.
  - exists [], s, caps. rewrite Nat.add_0_r. repeat split; [constructor | exact Hx].
  - match type of Hx with match ?m with _ => _ end = _ => destruct m as [y|] eqn:Hm end.
    + injection Hx as ->.
      apply IHr in Hm. destruct Hm as (u1 & post1 & caps1 & -> & Hu1 & Hk1).
      destruct (length pre <? length pre + length u1)%nat eqn:Hlt; [|discriminate].
      apply Nat.ltb_lt in Hlt.
      rewrite <- length_app in Hk1. apply IHf in Hk1.
      destruct Hk1 as (u2 & post & caps2 & -> & Hu2 & Hk2).
      exists (u1 ++ u2), post, caps2. rewrite <- app_assoc.
      repeat split.
      * apply MStarCons; [destruct u1; [simpl in Hlt; lia | discriminate] | assumption..].
      * rewrite !length_app, Nat.add_assoc in *. exact Hk2.
    + exists [], s, caps. rewrite Nat.add_0_r. repeat split; [constructor | exact Hx].
Qed.

(** Whatever the matcher finds is a match in the sense of the relation. *)
Lemma backtrack_sound re : @SoundAt A re (backtrack re).
Proof.
  induction re as [ | c | | ranges | | | i r IH | r IH | r IH | r1 IH1 r2 IH2 | r1 IH1 r2 IH2 ];
    intros pre s caps k x Hx; simpl in Hx.
  - exists [], s, caps. rewrite Nat.add_0_r. repeat split; [constructor | exact Hx].
  - destruct s as [|y s]; [discriminate|]. destruct (Ascii.eqb_spec y c) as [->|]; [|discriminate].
    exists [c], s, caps. rewrite Nat.add_1_r. repeat split; [constructor | exact Hx].
  - destruct s as [|y s]; [discriminate|]. destruct (notNL y) eqn:Hy; [|discriminate].
    exists [y], s, caps. rewrite Nat.add_1_r. repeat split; [now constructor | exact Hx].
  - destruct s as [|y s]; [discriminate|]. destruct (inClass ranges y) eqn:Hy; [|discriminate].
    exists [y], s, caps. rewrite Nat.add_1_r. repeat split; [now constructor | exact Hx].
  - destruct pre; [|discriminate]. exists [], s, caps. repeat split; [constructor | exact Hx].
  - destruct s; [|discriminate]. exists [], [], caps. rewrite Nat.add_0_r.
    repeat split; [constructor | exact Hx].
  - apply IH in Hx. destruct Hx as (u & post & caps' & -> & Hu & Hk).
    exists u, post, (<[i := Some (length pre, (length pre + length u)%nat)]> caps').
    repeat split; [now constructor | exact Hk].
  - exact (starLoop_sound r IH (length s) pre s caps k x Hx).
  - destruct (backtrack r (length pre) s caps k) as [y|] eqn:Hm.
    + injection Hx as ->. apply IH in Hm. destruct Hm as (u & post & caps' & -> & Hu & Hk).
      exists u, post, caps'. repeat split; [now apply MQuestSome | exact Hk].
    + exists [], s, caps. rewrite Nat.add_0_r. repeat split; [apply MQuestNone | exact Hx].
  - apply IH1 in Hx. destruct Hx as (u1 & post1 & caps1 & -> & Hu1 & Hk1).
    rewrite <- length_app in Hk1. apply IH2 in Hk1.
    destruct Hk1 as (u2 & post & caps2 & -> & Hu2 & Hk2).
    exists (u1 ++ u2), post, caps2. rewrite <- app_assoc.
    repeat split; [now apply MConcat |].
    rewrite !length_app, Nat.add_assoc in *. exact Hk2.
  - destruct (backtrack r1 (length pre) s caps k) as [y|] eqn:Hm.
    + injection Hx as ->. apply IH1 in Hm. destruct Hm as (u & post & caps' & -> & Hu & Hk).
      exists u, post, caps'. repeat split; [now apply MAlternateL | exact Hk].
    + apply IH2 in Hx. destruct Hx as (u & post & caps' & -> & Hu & Hk).
      exists u, post, caps'. repeat split; [now apply MAlternateR | exact Hk].
Qed.
End BacktrackSound.

Lemma matchAt_complete pre re u post :
  Matches pre re u post -> is_Some (matchAt re (length pre) (u ++ post)).
Proof.
  intros HM. unfold matchAt.
  destruct (backtrack_complete_gen pre re u post HM
              (fun pos' _ caps => Some (<[0 := Some (length pre, pos')]> caps))) as [H _];
    [intros; eauto | apply H].
Qed.

Lemma matchAt_sound pre re s m :
  matchAt re (length pre) s = Some m -> exists u post, s = u ++ post /\ Matches pre re u post.
Proof.
  unfold matchAt. intros H. apply backtrack_sound in H.
  destruct H as (u & post & _ & -> & HM & _). eauto.
Qed.

Lemma doExecute_complete re pre' : forall pre u post,
  Matches (pre ++ pre') re u post ->
  is_Some (doExecute re (length pre) (pre' ++ u ++ post)).
Proof.
  induction pre' as [|c pre' IH]; intros pre u post HM.
  - rewrite app_nil_r in HM. simpl.
    destruct (matchAt_complete pre re u post HM) as [m Hm].
    destruct post, u; simpl in *; rewrite Hm; eauto.
  - simpl. destruct (matchAt re (length pre) (c :: pre' ++ u ++ post)); [eauto|].
    replace (S (length pre)) with (length (pre ++ [c])) by (rewrite length_app; simpl; lia).
    apply IH. now rewrite <- app_assoc.
Qed.

Lemma doExecute_sound re s : forall pre m,
  doExecute re (length pre) s = Some m ->
  exists pre' u post, s = pre' ++ u ++ post /\ Matches (pre ++ pre') re u post.
Proof.
  induction s as [|c s IH]; intros pre m H; simpl in H.
  - destruct (matchAt re (length pre) []) eqn:Hm; [|discriminate].
    apply matchAt_sound in Hm. destruct Hm as (u & post & Heq & HM).
    exists [], u, post. rewrite app_nil_r. auto.
  - destruct (matchAt re (length pre) (c :: s)) eqn:Hm.
    + apply matchAt_sound in Hm. destruct Hm as (u & post & Heq & HM).
      exists [], u, post. rewrite app_nil_r. auto.
    + replace (S (length pre)) with (length (pre ++ [c])) in H by (rewrite length_app; simpl; lia).
      apply IH in H. destruct H as (pre' & u & post & -> & HM).
      exists (c :: pre'), u, post. split; [reflexivity|]. now rewrite <- app_assoc in HM.
Qed.

(** The search succeeds exactly when the pattern matches somewhere. *)
Lemma doExecute_Found re whole : is_Some (doExecute re 0 whole) <-> Found re whole.
Proof.
  split.
  - intros [m Hm]. apply (doExecute_sound re whole []) in Hm.
    destruct Hm as (pre' & u & post & -> & HM). exists pre', u, post. auto.
  - intros (pre & u & post & -> & HM). apply (doExecute_complete re pre [] u post HM).
Qed.

Lemma allMatches_S fuel re whole pos prevMatchEnd :
  allMatches (S fuel) re whole pos prevMatchEnd =
  if (length whole <? pos)%nat then []
  else
    match doExecute re pos (drop pos whole) with
    | None => []
    | Some m =>
        let '(mstart, mend) := bounds m in
        let accept :=
          negb ((mend =? pos)%nat && bool_decide (prevMatchEnd = Some mstart)) in
        let pos' :=
          if (mend =? pos)%nat
          then (if (pos <? length whole)%nat then pos + 1 else length whole + 1)%nat
          else mend in
        (if accept then [m] else []) ++ allMatches fuel re whole pos' (Some mend)
    end.
Proof. reflexivity. Qed.

Lemma FindAllIndex_nonempty re whole :
  FindAllIndex re whole <> [] <-> is_Some (doExecute re 0 whole).
Proof.
  unfold FindAllIndex. rewrite Nat.add_comm. change (2 + length whole)%nat with (S (S (length whole))).
  rewrite allMatches_S. change (length whole <? 0)%nat with false. cbv iota. rewrite drop_0.
  destruct (doExecute re 0 whole) as [m|]; split; intros H.
  - eauto.
  - destruct (bounds m) as [mstart mend].
    rewrite bool_decide_eq_false_2 by discriminate. rewrite andb_false_r. simpl. discriminate.
  - congruence.
  - destruct H; discriminate.
Qed.

Lemma FindAllString_Found re s :
  (0 <? length (FindAllString re s))%nat = true <-> Found re (GoString.bytes s).
Proof.
  rewrite <- doExecute_Found, <- FindAllIndex_nonempty. unfold FindAllString.
  rewrite length_map, Nat.ltb_lt. destruct (FindAllIndex _ _); simpl; split; intros; try lia; congruence.
Qed.

Lemma MatchString_Found re s : MatchString re s = true <-> Found re (GoString.bytes s).
Proof.
  rewrite <- doExecute_Found. unfold MatchString.
  destruct (doExecute _ _ _); split; intros H; eauto; try discriminate. destruct H; discriminate.
Qed.

Lemma globalProxyMatcher_shape :
  globalProxyMatcher =
  prefixed (GoString.bytes "/proxy/globaldatasources/")
    (Concat (Capture 1 (Plus nameClass)) (restGroup 2)).
Proof. reflexivity. Qed.

Lemma projectProxyMatcher_shape :
  projectProxyMatcher =
  prefixed (GoString.bytes "/proxy/projects/")
    (Concat (Capture 1 (Plus nameClass))
       (prefixed (GoString.bytes "/datasources/")
          (Concat (Capture 2 (Plus nameClass)) (restGroup 3)))).
Proof. reflexivity. Qed.

Lemma dashboardProxyMatcher_shape :
  dashboardProxyMatcher =
  prefixed (GoString.bytes "/proxy/projects/")
    (Concat (Capture 1 (Plus nameClass))
       (prefixed (GoString.bytes "/dashboards/")
          (Concat (Capture 2 (Plus nameClass))
             (prefixed (GoString.bytes "/datasources/")
                (Concat (Capture 3 (Plus nameClass)) (restGroup 4)))))).
Proof. reflexivity. Qed.

Section Runs.
Context {A : Type}.
Implicit Types (k : nat -> list ascii -> Caps -> option A).

Lemma backtrack_prefixed p : forall r pos s caps k,
  backtrack (prefixed p r) pos (p ++ s) caps k = backtrack r (pos + length p) s caps k.
Proof.
  induction p as [|c p IH]; intros r pos s caps k; simpl.
  - now rewrite Nat.add_0_r.
  - rewrite Ascii.eqb_refl, IH. f_equal. lia.
Qed.

Lemma backtrack_prefixed_nil p r pos caps k :
  p <> [] -> backtrack (prefixed p r) pos [] caps k = None.
Proof. destruct p; [congruence | reflexivity]. Qed.

(** A greedy loop over a one-byte test eats the whole run that passes the
    test, when what follows the run is accepted by the continuation. *)
Lemma starLoop_run (p : ascii -> bool) step :
  (forall pos s caps k,
     step pos s caps k =
     match s with
     | y :: s' => if p y then k (S pos) s' caps else None
     | [] => None
     end) ->
  forall run s fuel pos caps k x,
    forallb p run = true -> stopsAt p s -> length run <= fuel ->
    k (pos + length run) s caps = Some x ->
    starLoop step fuel pos (run ++ s) caps k = Some x.
Proof.
  intros Hstep run. induction run as [|a run IH]; intros s fuel pos caps k x Hrun Hstop Hfuel Hk.
  - rewrite Nat.add_0_r in Hk. destruct fuel as [|fuel]; simpl; [exact Hk|].
    rewrite Hstep. destruct s as [|y s]; [exact Hk|]. simpl in Hstop. now rewrite Hstop.
  - simpl in Hrun. apply andb_true_iff in Hrun as [Ha Hrun].
    destruct fuel as [|fuel]; [simpl in Hfuel; lia|]. simpl.
    rewrite Hstep, Ha.
    assert (Hlt : (pos <? S pos)%nat = true) by (apply Nat.ltb_lt; lia).
    rewrite Hlt. rewrite (IH s fuel (S pos) caps k x); auto.
    + simpl in Hfuel. lia.
    + rewrite <- Hk. f_equal. simpl. lia.
Qed.

Lemma backtrack_Plus_class ranges name s pos caps k x :
  name <> [] -> forallb (inClass ranges) name = true -> stopsAt (inClass ranges) s ->
  k (pos + length name) s caps = Some x ->
  backtrack (Plus (CharClass ranges)) pos (name ++ s) caps k = Some x.
Proof.
  intros Hne Hname Hstop Hk. destruct name as [|a name]; [congruence|].
  simpl in Hname. apply andb_true_iff in Hname as [Ha Hname].
  simpl. rewrite Ha.
  apply (starLoop_run (inClass ranges)); auto.
  - rewrite length_app. lia.
  - rewrite <- Hk. f_equal. simpl. lia.
Qed.

Lemma backtrack_restGroup_none i pos caps k :
  backtrack (restGroup i) pos [] caps k = k pos [] caps.
Proof. reflexivity. Qed.

Lemma backtrack_restGroup_some i pos rest caps k x :
  forallb notNL rest = true ->
  k (pos + S (length rest)) [] (<[i := Some (pos, (pos + S (length rest))%nat)]> caps) = Some x ->
  backtrack (restGroup i) pos ("/"%char :: rest) caps k = Some x.
Proof.
  intros Hrest Hk. unfold restGroup.
  change (backtrack (Quest ?r) pos ?s caps k)
    with (match backtrack r pos s caps k with Some y => Some y | None => k pos s caps end).
  assert (H : backtrack (Capture i (Concat (Literal "/") (Star AnyCharNotNL))) pos
                ("/"%char :: rest) caps k = Some x).
  { simpl. rewrite <- (app_nil_r rest) at 2.
    apply (starLoop_run notNL); auto.
    - exact I.
    - rewrite <- Hk. f_equal; [lia | do 3 f_equal; lia]. }
  now rewrite H.
Qed.
End Runs.

Lemma backtrack_name {A} i r name s pos caps (k : nat -> list ascii -> Caps -> option A) x :
  validName name = true -> stopsAt (inClass nameRanges) s ->
  backtrack r (pos + String.length name) s
    (<[i := Some (pos, (pos + String.length name)%nat)]> caps) k = Some x ->
  backtrack (Concat (Capture i (Plus nameClass)) r) pos (GoString.bytes name ++ s) caps k = Some x.
Proof.
  unfold validName. intros Hname Hstop Hk. apply andb_true_iff in Hname as [Hne Hcls].
  change (backtrack (Concat (Capture i (Plus nameClass)) r) pos (GoString.bytes name ++ s) caps k)
    with (backtrack (Plus nameClass) pos (GoString.bytes name ++ s) caps
            (fun pos' s' caps' => backtrack r pos' s' (<[i := Some (pos, pos')]> caps') k)).
  apply backtrack_Plus_class; auto.
  - destruct name; [discriminate | simpl; congruence].
  - rewrite bytes_length. exact Hk.
Qed.

Lemma stopsAt_slash s : stopsAt (inClass nameRanges) ("/"%char :: s).
Proof. reflexivity. Qed.

Lemma validRest_cases rest :
  validRest rest = true ->
  rest = ""%string \/
  exists tail, GoString.bytes rest = "/"%char :: tail /\ forallb notNL tail = true.
Proof.
  unfold validRest. destruct rest as [|c rest]; [now left|]. simpl.
  intros H. apply andb_true_iff in H as [Hc Ht]. apply Ascii.eqb_eq in Hc as ->.
  right. eauto.
Qed.

Lemma stopsAt_rest rest : validRest rest = true -> stopsAt (inClass nameRanges) (GoString.bytes rest).
Proof.
  intros H. apply validRest_cases in H as [->|(tail & -> & _)]; [exact I | reflexivity].
Qed.

Lemma backtrack_rest {A} i rest pos caps (k : nat -> list ascii -> Caps -> option A) x :
  validRest rest = true ->
  k (pos + String.length rest) []
    (match restRegister pos rest with Some b => <[i := Some b]> caps | None => caps end) = Some x ->
  backtrack (restGroup i) pos (GoString.bytes rest) caps k = Some x.
Proof.
  intros H Hk. pose proof (bytes_length rest) as Hlen.
  apply validRest_cases in H as [->|(tail & Heq & Htail)].
  - simpl in *. rewrite Nat.add_0_r in Hk. exact Hk.
  - rewrite Heq in *. simpl in Hlen. apply backtrack_restGroup_some; auto.
    unfold restRegister in Hk. destruct rest; [discriminate|]. simpl in Hk, Hlen.
    injection Hlen as Hlen. rewrite Hlen. exact Hk.
Qed.

Lemma matchAt_global name rest :
  validName name = true -> validRest rest = true ->
  let P := "/proxy/globaldatasources/"%string in
  matchAt globalProxyMatcher 0 (GoString.bytes (P +:+ name +:+ rest)) =
  Some [Some (0, String.length (P +:+ name +:+ rest));
        Some (String.length P, String.length P + String.length name);
        restRegister (String.length P + String.length name) rest]%nat.
Proof.
  intros Hname Hrest P. unfold matchAt.
  change (NumSubexp globalProxyMatcher) with 2%nat.
  rewrite globalProxyMatcher_shape, !bytes_app, backtrack_prefixed.
  apply backtrack_name; [assumption | now apply stopsAt_rest |].
  apply backtrack_rest; [assumption|].
  rewrite !bytes_length.
  unfold restRegister. rewrite <- !bytes_length, !bytes_app, !length_app.
  destruct (GoString.nonEmpty rest); simpl; do 3 f_equal; lia.
Qed.

Lemma doExecute_here re pos s m : matchAt re pos s = Some m -> doExecute re pos s = Some m.
Proof. intros H. destruct s; simpl; now rewrite H. Qed.

(** One match that spans the whole of a non-empty input is the only match. *)
Lemma FindAllIndex_single re whole m :
  whole <> [] -> matchAt re 0 whole = Some m -> bounds m = (0, length whole)%nat ->
  matchAt re (length whole) [] = None ->
  FindAllIndex re whole = [m].
Proof.
  intros Hne Hm Hb Hend. unfold FindAllIndex. rewrite Nat.add_comm.
  change (2 + length whole)%nat with (S (S (length whole))).
  rewrite allMatches_S. change (length whole <? 0)%nat with false. cbv iota.
  rewrite drop_0, (doExecute_here _ _ _ _ Hm), Hb.
  assert (Hz : (length whole =? 0)%nat = false).
  { apply Nat.eqb_neq. destruct whole; [congruence | simpl; lia]. }
  cbv zeta. rewrite Hz. simpl negb. cbv iota.
  rewrite allMatches_S, Nat.ltb_irrefl, drop_all. simpl. now rewrite Hend.
Qed.

Lemma slice_mid (a b c : list ascii) lo hi :
  lo = length a -> hi = (length a + length b)%nat -> GoString.slice (a ++ b ++ c) lo hi = b.
Proof. intros -> ->. apply slice_app_middle. Qed.

Lemma group_rest whole pos rest :
  GoString.slice whole pos (pos + String.length rest) = GoString.bytes rest ->
  group whole (restRegister pos rest) = rest.
Proof.
  unfold restRegister. destruct rest as [|c rest]; [reflexivity|]. simpl GoString.nonEmpty.
  cbv iota. unfold group. intros ->. apply str_bytes.
Qed.

Lemma extractGlobal_wellformed name rest :
  validName name = true -> validRest rest = true ->
  extractGlobalDatasourceAndPath ("/proxy/globaldatasources/" +:+ name +:+ rest) =
  (name, forwarded rest, None).
Proof.
  intros Hname Hrest.
  pose proof (matchAt_global name rest Hname Hrest) as Hm. cbv zeta in Hm.
  unfold extractGlobalDatasourceAndPath, FindAllStringSubmatch.
  rewrite (FindAllIndex_single _ _ _ (bytes_nonempty _ _ _) Hm);
    [ | simpl bounds; now rewrite bytes_length | reflexivity ].
  cbn [map length firstMatch nth Nat.ltb Nat.leb Nat.eqb orb andb].
  set (whole := GoString.bytes _).
  assert (Hg1 : group whole (Some (String.length "/proxy/globaldatasources/",
                     (String.length "/proxy/globaldatasources/" + String.length name)%nat)) = name).
  { unfold group, whole. rewrite !bytes_app, slice_mid with (b := GoString.bytes name);
      [apply str_bytes | rewrite ?bytes_length; reflexivity ..]. }
  assert (Hg2 : group whole (restRegister (String.length "/proxy/globaldatasources/"
                     + String.length name) rest) = rest).
  { apply group_rest. unfold whole. rewrite !bytes_app, app_assoc.
    rewrite <- (app_nil_r (GoString.bytes rest)) at 1.
    apply slice_mid; rewrite ?length_app, ?bytes_length; reflexivity. }
  rewrite Hg1, Hg2. unfold forwarded. destruct (GoString.nonEmpty rest); reflexivity.
Qed.

Lemma matchAt_project project name rest :
  validName project = true -> validName name = true -> validRest rest = true ->
  let P1 := "/proxy/projects/"%string in
  let P2 := "/datasources/"%string in
  let a := (String.length P1 + String.length project)%nat in
  let b := (a + String.length P2 + String.length name)%nat in
  matchAt projectProxyMatcher 0 (GoString.bytes (P1 +:+ project +:+ P2 +:+ name +:+ rest)) =
  Some [Some (0, b + String.length rest);
        Some (String.length P1, a);
        Some (a + String.length P2, b);
        restRegister b rest]%nat.
Proof.
  intros Hproject Hname Hrest P1 P2 a b. unfold matchAt.
  change (NumSubexp projectProxyMatcher) with 3%nat.
  rewrite projectProxyMatcher_shape, !bytes_app, backtrack_prefixed.
  apply backtrack_name; [assumption | reflexivity |].
  rewrite backtrack_prefixed.
  apply backtrack_name; [assumption | now apply stopsAt_rest |].
  apply backtrack_rest; [assumption|].
  unfold restRegister. destruct (GoString.nonEmpty rest); reflexivity.
Qed.

Lemma matchAt_dashboard project dashboard name rest :
  validName project = true -> validName dashboard = true -> validName name = true ->
  validRest rest = true ->
  let P1 := "/proxy/projects/"%string in
  let P2 := "/dashboards/"%string in
  let P3 := "/datasources/"%string in
  let a := (String.length P1 + String.length project)%nat in
  let b := (a + String.length P2 + String.length dashboard)%nat in
  let c := (b + String.length P3 + String.length name)%nat in
  matchAt dashboardProxyMatcher 0
    (GoString.bytes (P1 +:+ project +:+ P2 +:+ dashboard +:+ P3 +:+ name +:+ rest)) =
  Some [Some (0, c + String.length rest);
        Some (String.length P1, a);
        Some (a + String.length P2, b);
        Some (b + String.length P3, c);
        restRegister c rest]%nat.
Proof.
  intros Hproject Hdashboard Hname Hrest P1 P2 P3 a b c. unfold matchAt.
  change (NumSubexp dashboardProxyMatcher) with 4%nat.
  rewrite dashboardProxyMatcher_shape, !bytes_app, backtrack_prefixed.
  apply backtrack_name; [assumption | reflexivity |].
  rewrite backtrack_prefixed.
  apply backtrack_name; [assumption | reflexivity |].
  rewrite backtrack_prefixed.
  apply backtrack_name; [assumption | now apply stopsAt_rest |].
  apply backtrack_rest; [assumption|].
  unfold restRegister. destruct (GoString.nonEmpty rest); reflexivity.
Qed.

Lemma group_slice whole lo hi s :
  GoString.slice whole lo hi = GoString.bytes s -> group whole (Some (lo, hi)) = s.
Proof. unfold group. intros ->. apply str_bytes. Qed.

Ltac lengths := rewrite ?length_app, ?bytes_length; simpl; lia.

Lemma extractProject_wellformed project name rest :
  validName project = true -> validName name = true -> validRest rest = true ->
  extractProjectDatasourceAndPath
    ("/proxy/projects/" +:+ project +:+ "/datasources/" +:+ name +:+ rest) =
  (project, name, forwarded rest, None).
Proof.
  intros Hproject Hname Hrest.
  pose proof (matchAt_project project name rest Hproject Hname Hrest) as Hm. cbv zeta in Hm.
  unfold extractProjectDatasourceAndPath, FindAllStringSubmatch.
  rewrite (FindAllIndex_single _ _ _ (bytes_nonempty _ _ _) Hm);
    [ | simpl bounds; rewrite !bytes_app; f_equal; lengths | reflexivity ].
  cbn [map length firstMatch nth Nat.ltb Nat.leb Nat.eqb orb andb].
  set (whole := GoString.bytes _).
  assert (Hw : whole = GoString.bytes "/proxy/projects/" ++ GoString.bytes project
                 ++ GoString.bytes "/datasources/" ++ GoString.bytes name ++ GoString.bytes rest).
  { unfold whole. now rewrite !bytes_app. }
  rewrite (group_slice whole _ _ project), (group_slice whole _ _ name), (group_rest whole _ rest).
  - unfold forwarded. destruct (GoString.nonEmpty rest); reflexivity.
  - apply (slice_of _ (GoString.bytes "/proxy/projects/" ++ GoString.bytes project
                 ++ GoString.bytes "/datasources/" ++ GoString.bytes name) _ []);
      [rewrite Hw, app_nil_r, <- !app_assoc; reflexivity | lengths ..].
  - apply (slice_of _ (GoString.bytes "/proxy/projects/" ++ GoString.bytes project
                 ++ GoString.bytes "/datasources/") _ (GoString.bytes rest));
      [rewrite Hw, <- !app_assoc; reflexivity | lengths ..].
  - apply (slice_of _ (GoString.bytes "/proxy/projects/") _
             (GoString.bytes "/datasources/" ++ GoString.bytes name ++ GoString.bytes rest));
      [exact Hw | lengths ..].
Qed.

Lemma extractDashboard_wellformed project dashboard name rest :
  validName project = true -> validName dashboard = true -> validName name = true ->
  validRest rest = true ->
  extractProjectDashboardDatasourceAndPath
    ("/proxy/projects/" +:+ project +:+ "/dashboards/" +:+ dashboard
       +:+ "/datasources/" +:+ name +:+ rest) =
  (project, dashboard, name, forwarded rest, None).
Proof.
  intros Hproject Hdashboard Hname Hrest.
  pose proof (matchAt_dashboard project dashboard name rest Hproject Hdashboard Hname Hrest) as Hm.
  cbv zeta in Hm.
  unfold extractProjectDashboardDatasourceAndPath, FindAllStringSubmatch.
  rewrite (FindAllIndex_single _ _ _ (bytes_nonempty _ _ _) Hm);
    [ | simpl bounds; rewrite !bytes_app; f_equal; lengths | reflexivity ].
  cbn [map length firstMatch nth Nat.ltb Nat.leb Nat.eqb orb andb].
  set (whole := GoString.bytes _).
  assert (Hw : whole = GoString.bytes "/proxy/projects/" ++ GoString.bytes project
                 ++ GoString.bytes "/dashboards/" ++ GoString.bytes dashboard
                 ++ GoString.bytes "/datasources/" ++ GoString.bytes name ++ GoString.bytes rest).
  { unfold whole. now rewrite !bytes_app. }
  rewrite (group_slice whole _ _ project), (group_slice whole _ _ dashboard),
    (group_slice whole _ _ name), (group_rest whole _ rest).
  - unfold forwarded. destruct (GoString.nonEmpty rest); reflexivity.
  - apply (slice_of _ (GoString.bytes "/proxy/projects/" ++ GoString.bytes project
                 ++ GoString.bytes "/dashboards/" ++ GoString.bytes dashboard
                 ++ GoString.bytes "/datasources/" ++ GoString.bytes name) _ []);
      [rewrite Hw, app_nil_r, <- !app_assoc; reflexivity | lengths ..].
  - apply (slice_of _ (GoString.bytes "/proxy/projects/" ++ GoString.bytes project
                 ++ GoString.bytes "/dashboards/" ++ GoString.bytes dashboard
                 ++ GoString.bytes "/datasources/") _ (GoString.bytes rest));
      [rewrite Hw, <- !app_assoc; reflexivity | lengths ..].
  - apply (slice_of _ (GoString.bytes "/proxy/projects/" ++ GoString.bytes project
                 ++ GoString.bytes "/dashboards/") _
             (GoString.bytes "/datasources/" ++ GoString.bytes name ++ GoString.bytes rest));
      [rewrite Hw, <- !app_assoc; reflexivity | lengths ..].
  - apply (slice_of _ (GoString.bytes "/proxy/projects/") _
             (GoString.bytes "/dashboards/" ++ GoString.bytes dashboard
                ++ GoString.bytes "/datasources/" ++ GoString.bytes name ++ GoString.bytes rest));
      [exact Hw | lengths ..].
Qed.

Lemma forwarded_nonempty rest : forwarded rest <> ""%string.
Proof. unfold forwarded. destruct rest; simpl; discriminate. Qed.

Lemma chosen_path_nonempty (b : bool) (s : string) :
  (if b && GoString.nonEmpty s then s else "/"%string) <> ""%string.
Proof. destruct b, s; simpl; discriminate. Qed.

Lemma extractGlobal_path_nonempty requestPath dtsName path :
  extractGlobalDatasourceAndPath requestPath = (dtsName, path, None) -> path <> ""%string.
Proof.
  unfold extractGlobalDatasourceAndPath.
  destruct (_ || _ || _); [discriminate|]. intros H. injection H as _ <-.
  apply chosen_path_nonempty.
Qed.

Lemma extractProject_path_nonempty requestPath projectName dtsName path :
  extractProjectDatasourceAndPath requestPath = (projectName, dtsName, path, None) ->
  path <> ""%string.
Proof.
  unfold extractProjectDatasourceAndPath.
  destruct (_ || _ || _); [discriminate|]. intros H. injection H as _ _ <-.
  apply chosen_path_nonempty.
Qed.

Lemma extractDashboard_path_nonempty requestPath projectName dashboardName dtsName path :
  extractProjectDashboardDatasourceAndPath requestPath
    = (projectName, dashboardName, dtsName, path, None) ->
  path <> ""%string.
Proof.
  unfold extractProjectDashboardDatasourceAndPath.
  destruct (_ || _ || _); [discriminate|]. intros H. injection H as _ _ _ <-.
  apply chosen_path_nonempty.
Qed.

(* ===================================================================== *)
(** * Facts about traces *)
(* ===================================================================== *)

Section TraceFacts.
Context {A B : Type} (P : Event -> Prop).

Lemma emitsOnly_newEvents (m : M A) w : emitsOnly P m w -> Forall P (newEvents m w).
Proof.
  intros (evs & Heq & HP). unfold newEvents. now rewrite Heq, drop_app_length.
Qed.

Lemma emitsOnly_ret (a : A) w : emitsOnly P (ret a) w.
Proof. exists []. simpl. now rewrite app_nil_r. Qed.

Lemma emitsOnly_panic reason w : emitsOnly P (@panic A reason) w.
Proof. exists []. simpl. now rewrite app_nil_r. Qed.

Lemma emitsOnly_liftRes (r : Res A) w : emitsOnly P (liftRes r) w.
Proof. exists []. simpl. now rewrite app_nil_r. Qed.

Lemma emitsOnly_bind (m : M A) (k : A -> M B) w :
  emitsOnly P m w ->
  (forall a w', m w = (Ret a, w') -> emitsOnly P (k a) w') ->
  emitsOnly P (bind m k) w.
Proof.
  intros (evs & Heq & HP) Hk. unfold emitsOnly, bind.
  destruct (m w) as [[a|r] w'] eqn:Hm; simpl in Heq.
  - destruct (Hk a w' eq_refl) as (evs' & Heq' & HP').
    exists (evs ++ evs'). rewrite Heq', Heq, app_assoc. split; [reflexivity|].
    apply Forall_app; auto.
  - exists evs. auto.
Qed.
End TraceFacts.

Lemma emitsOnly_getRequest P w : emitsOnly P getRequest w.
Proof. exists []. simpl. now rewrite app_nil_r. Qed.

Lemma emitsOnly_setRequest P r w : emitsOnly P (setRequest r) w.
Proof. exists []. simpl. now rewrite app_nil_r. Qed.

Lemma emitsOnly_emit (P : Event -> Prop) ev w : P ev -> emitsOnly P (emit ev) w.
Proof. intros H. exists [ev]. simpl. auto. Qed.

Create HintDb emits.

Ltac emits :=
  repeat first
    [ solve [auto 2 with emits nocore]
    | apply emitsOnly_ret
    | apply emitsOnly_panic
    | apply emitsOnly_getRequest
    | apply emitsOnly_setRequest
    | apply emitsOnly_liftRes
    | apply emitsOnly_emit; solve [auto]
    | apply emitsOnly_bind; [ | intros ? ? _ ]
    | match goal with
      | |- emitsOnly _ (match ?x with _ => _ end) _ => destruct x
      | |- emitsOnly _ (if ?b then _ else _) _ => destruct b
      end ].

Section PipelineTraces.
Variable rt : Runtime.
Variable P : Event -> Prop.

Lemma getGlobalDatasource_emits e name w :
  P (GlobalDTS_Get name) -> emitsOnly P (getGlobalDatasource rt e name) w.
Proof. intros H. unfold getGlobalDatasource. emits. Qed.

Lemma getProjectDatasource_emits e project name w :
  P (DTS_Get project name) -> emitsOnly P (getProjectDatasource rt e project name) w.
Proof. intros H. unfold getProjectDatasource. emits. Qed.

Lemma getDashboardDatasource_emits e project dashboard name w :
  P (Dashboard_Get project dashboard) ->
  emitsOnly P (getDashboardDatasource rt e project dashboard name) w.
Proof. intros H. unfold getDashboardDatasource. emits. Qed.

Lemma getGlobalSecret_emits e dtsName name w :
  P (GlobalSecret_Get name) -> emitsOnly P (getGlobalSecret rt e dtsName name) w.
Proof. intros H. unfold getGlobalSecret. emits. Qed.

Lemma getProjectSecret_emits e project dtsName name w :
  P (Secret_Get project name) -> emitsOnly P (getProjectSecret rt e project dtsName name) w.
Proof. intros H. unfold getProjectSecret. emits. Qed.

Lemma newProxy_emits spec path crypto retrieveSecret w :
  (forall name w', emitsOnly P (retrieveSecret name) w') ->
  (forall scrt, P (Crypto_Decrypt scrt)) ->
  emitsOnly P (newProxy rt spec path crypto retrieveSecret) w.
Proof.
  intros Hr Hd. unfold newProxy. emits.
Qed.

Lemma setupAuthentication_emits h w : emitsOnly P (setupAuthentication h) w.
Proof. unfold setupAuthentication. emits. Qed.

Hint Resolve setupAuthentication_emits : emits.

Lemma prepareRequest_emits h w : emitsOnly P (prepareRequest rt h) w.
Proof. unfold prepareRequest. emits. Qed.

Hint Resolve prepareRequest_emits : emits.

Lemma serve_emits h w :
  (forall target transport req, P (ReverseProxy_ServeHTTP target transport req)) ->
  emitsOnly P (serve rt h) w.
Proof.
  intros H. unfold serve. emits.
Qed.

Lemma callServe_emits pr w :
  (forall target transport req, P (ReverseProxy_ServeHTTP target transport req)) ->
  emitsOnly P (callServe rt pr) w.
Proof. intros H. destruct pr; simpl; [now apply serve_emits | apply emitsOnly_panic]. Qed.
End PipelineTraces.

Section Scopes.
Variable rt : Runtime.
Variable e : Proxy.

Lemma proxyGlobalDatasource_scope w :
  emitsOnly globalScoped (proxyGlobalDatasource rt e) w.
Proof.
  unfold proxyGlobalDatasource.
  apply emitsOnly_bind; [apply emitsOnly_getRequest | intros req w' _].
  destruct (extractGlobalDatasourceAndPath _) as [[dtsName path] [err|]]; [apply emitsOnly_ret|].
  apply emitsOnly_bind; [now apply getGlobalDatasource_emits | intros [dts [err|]] w'' _];
    [apply emitsOnly_ret|].
  apply emitsOnly_bind.
  - apply newProxy_emits; [|easy]. intros name w3. now apply getGlobalSecret_emits.
  - intros [pr [err|]] w3 _; [apply emitsOnly_ret | now apply callServe_emits].
Qed.

Lemma proxyProjectDatasource_scope w :
  emitsOnly (projectScoped (projectOf (requestPath w))) (proxyProjectDatasource rt e) w.
Proof.
  unfold proxyProjectDatasource, projectOf, requestPath.
  apply emitsOnly_bind; [apply emitsOnly_getRequest | intros req w' [= <- <-]].
  destruct (extractProjectDatasourceAndPath _) as [[[projectName dtsName] path] [err|]];
    [apply emitsOnly_ret|].
  apply emitsOnly_bind; [now apply getProjectDatasource_emits | intros [dts [err|]] w'' _];
    [apply emitsOnly_ret|].
  apply emitsOnly_bind.
  - apply newProxy_emits; [|easy]. intros name w3. now apply getProjectSecret_emits.
  - intros [pr [err|]] w3 _; [apply emitsOnly_ret | now apply callServe_emits].
Qed.

Lemma proxyDashboardDatasource_scope w :
  emitsOnly (projectScoped (dashboardProjectOf (requestPath w))) (proxyDashboardDatasource rt e) w.
Proof.
  unfold proxyDashboardDatasource, dashboardProjectOf, requestPath.
  apply emitsOnly_bind; [apply emitsOnly_getRequest | intros req w' [= <- <-]].
  destruct (extractProjectDashboardDatasourceAndPath _)
    as [[[[projectName dashboardName] dtsName] path] [err|]]; [apply emitsOnly_ret|].
  apply emitsOnly_bind; [now apply getDashboardDatasource_emits | intros [dts [err|]] w'' _];
    [apply emitsOnly_ret|].
  apply emitsOnly_bind.
  - apply newProxy_emits; [|easy]. intros name w3. now apply getProjectSecret_emits.
  - intros [pr [err|]] w3 _; [apply emitsOnly_ret | now apply callServe_emits].
Qed.
End Scopes.

Lemma bind_run {A B} (m : M A) (k : A -> M B) w a w' :
  m w = (Ret a, w') -> bind m k w = k a w'.
Proof. intros H. unfold bind. now rewrite H. Qed.

Lemma bind_panicked {A B} (m : M A) (k : A -> M B) w r w' :
  m w = (Panic r, w') -> bind m k w = (Panic r, w').
Proof. intros H. unfold bind. now rewrite H. Qed.

(** Whatever [m] returns, if it leaves the world [w2] and what follows only
    adds to the trace, the whole starts with the trace of [w2]. *)
Lemma bind_trace_from {A B} (m : M A) (k : A -> M B) w w2 :
  snd (m w) = w2 -> (forall a, emitsOnly anyEvent (k a) w2) ->
  exists rest, trace (snd (bind m k w)) = trace w2 ++ rest.
Proof.
  intros Hm Hk. unfold bind. destruct (m w) as [[a|r] w'] eqn:E; simpl in Hm; subst w'.
  - destruct (Hk a) as (rest & Hrest & _). eauto.
  - exists []. simpl. now rewrite app_nil_r.
Qed.

Lemma newEvents_record {A} (m : M A) w evs rest :
  trace (snd (m w)) = trace (record w evs) ++ rest -> newEvents m w = evs ++ rest.
Proof.
  intros H. unfold newEvents. rewrite H. simpl. now rewrite <- app_assoc, drop_app_length.
Qed.

Section Lookups.
Variable rt : Runtime.
Variable e : Proxy.

Lemma getGlobalSecret_world dtsName name w :
  snd (getGlobalSecret rt e dtsName name w) = record w [GlobalSecret_Get name].
Proof.
  unfold getGlobalSecret, bind, emit. simpl.
  destruct (GlobalSecret e name) as [[s|] [err|]]; simpl;
    try destruct (databaseModel.IsKeyNotFound err); reflexivity.
Qed.

Lemma getProjectSecret_world project dtsName name w :
  snd (getProjectSecret rt e project dtsName name w) = record w [Secret_Get project name].
Proof.
  unfold getProjectSecret, bind, emit. simpl.
  destruct (Secret e project name) as [[s|] [err|]]; simpl;
    try destruct (databaseModel.IsKeyNotFound err); reflexivity.
Qed.

(** With a configuration that names a secret, [newProxy] starts by calling
    [retrieveSecret] on that name. *)
Lemma newProxy_retrieves spec path crypto retrieveSecret cfg w w2 :
  ValidateAndExtract rt (v1.Spec (v1.plugin spec)) = (Some cfg, None) ->
  GoString.nonEmpty (datasourceHTTP.Secret cfg) = true ->
  snd (retrieveSecret (datasourceHTTP.Secret cfg) w) = w2 ->
  forall B (k : option httpProxy * option error -> M B),
    (forall a w', emitsOnly anyEvent (k a) w') ->
    exists rest,
      trace (snd (bind (newProxy rt spec path crypto retrieveSecret) k w)) = trace w2 ++ rest.
Proof.
  intros Hcfg Hne Hw2 B k Hk. unfold newProxy. rewrite Hcfg, Hne.
  unfold bind at 1.
  destruct (bind (retrieveSecret _) _ w) as [[a|r] w'] eqn:E.
  - assert (Hw' : exists evs, w' = record w2 evs).
    { unfold bind in E.
      destruct (retrieveSecret _ w) as [[[scrt err]|r] w3]; simpl in Hw2; subst w3; [|discriminate].
      destruct err as [err|].
      - unfold emit, liftRes in E. simpl in E.
        destruct (crypto.Decrypt crypto scrt) as [[scrt' [derr|]]|r]; simpl in E;
          try discriminate; injection E as _ <-; now exists [Crypto_Decrypt scrt].
      - injection E as _ <-. exists []. unfold record. destruct w2; simpl. now rewrite app_nil_r. }
    destruct Hw' as (evs & ->). destruct (Hk a (record w2 evs)) as (rest & Hr & _).
    exists (evs ++ rest). rewrite Hr. simpl. now rewrite app_assoc.
  - unfold bind in E. destruct (retrieveSecret _ w) as [[[scrt err]|r'] w3]; simpl in Hw2; subst w3.
    + destruct err as [err|]; [|discriminate].
      unfold emit, liftRes in E. simpl in E.
      destruct (crypto.Decrypt crypto scrt) as [[scrt' [derr|]]|r'']; simpl in E; try discriminate.
      injection E as <- <-. exists [Crypto_Decrypt scrt]. reflexivity.
    + injection E as <- <-. exists []. simpl. now rewrite app_nil_r.
Qed.

Lemma tail_emits (x : option httpProxy * option error) w :
  emitsOnly anyEvent
    (let '(pr, err) := x in
     match err with
     | Some err => ret (Some err)
     | None => callServe rt pr
     end) w.
Proof.
  destruct x as [pr [err|]]; [apply emitsOnly_ret | now apply callServe_emits].
Qed.

Lemma proxyGlobalDatasource_looks_up w name path dts cfg :
  extractGlobalDatasourceAndPath (requestPath w) = (name, path, None) ->
  GlobalDTS e name = (Some dts, None) ->
  ValidateAndExtract rt (v1.Spec (v1.plugin (v1.GlobalDatasource_Spec dts))) = (Some cfg, None) ->
  GoString.nonEmpty (datasourceHTTP.Secret cfg) = true ->
  exists rest,
    newEvents (proxyGlobalDatasource rt e) w =
    GlobalDTS_Get name :: GlobalSecret_Get (datasourceHTTP.Secret cfg) :: rest.
Proof.
  intros Hx Hdts Hcfg Hne.
  cut (exists rest, trace (snd (proxyGlobalDatasource rt e w)) =
         trace w ++ GlobalDTS_Get name :: GlobalSecret_Get (datasourceHTTP.Secret cfg) :: rest).
  { intros (rest & Hr). exists rest. unfold newEvents. now rewrite Hr, drop_app_length. }
  unfold proxyGlobalDatasource.
  rewrite (bind_run getRequest _ w (request w) w eq_refl).
  unfold requestPath in Hx. rewrite Hx.
  rewrite (bind_run (getGlobalDatasource rt e name) _ w
             (v1.GlobalDatasource_Spec dts, None) (record w [GlobalDTS_Get name])).
  2:{ unfold getGlobalDatasource, bind, emit. simpl. now rewrite Hdts. }
  destruct (newProxy_retrieves (v1.GlobalDatasource_Spec dts) path (Crypto e)
              (fun name0 => getGlobalSecret rt e name name0) cfg
              (record w [GlobalDTS_Get name])
              (record (record w [GlobalDTS_Get name]) [GlobalSecret_Get (datasourceHTTP.Secret cfg)])
              Hcfg Hne (getGlobalSecret_world _ _ _) _ _ tail_emits) as (rest & Hr).
  exists rest. rewrite Hr. simpl. now rewrite <- !app_assoc.
Qed.

Lemma proxyProjectDatasource_looks_up w project name path dts cfg :
  extractProjectDatasourceAndPath (requestPath w) = (project, name, path, None) ->
  DTS e project name = (Some dts, None) ->
  ValidateAndExtract rt (v1.Spec (v1.plugin (v1.Datasource_Spec dts))) = (Some cfg, None) ->
  GoString.nonEmpty (datasourceHTTP.Secret cfg) = true ->
  exists rest,
    newEvents (proxyProjectDatasource rt e) w =
    DTS_Get project name :: Secret_Get project (datasourceHTTP.Secret cfg) :: rest.
Proof.
  intros Hx Hdts Hcfg Hne.
  cut (exists rest, trace (snd (proxyProjectDatasource rt e w)) =
         trace w ++ DTS_Get project name :: Secret_Get project (datasourceHTTP.Secret cfg) :: rest).
  { intros (rest & Hr). exists rest. unfold newEvents. now rewrite Hr, drop_app_length. }
  unfold proxyProjectDatasource.
  rewrite (bind_run getRequest _ w (request w) w eq_refl).
  unfold requestPath in Hx. rewrite Hx.
  rewrite (bind_run (getProjectDatasource rt e project name) _ w
             (v1.Datasource_Spec dts, None) (record w [DTS_Get project name])).
  2:{ unfold getProjectDatasource, bind, emit. simpl. now rewrite Hdts. }
  destruct (newProxy_retrieves (v1.Datasource_Spec dts) path (Crypto e)
              (fun name0 => getProjectSecret rt e project name name0) cfg
              (record w [DTS_Get project name])
              (record (record w [DTS_Get project name])
                 [Secret_Get project (datasourceHTTP.Secret cfg)])
              Hcfg Hne (getProjectSecret_world _ _ _ _) _ _ tail_emits) as (rest & Hr).
  exists rest. rewrite Hr. simpl. now rewrite <- !app_assoc.
Qed.

Lemma proxyDashboardDatasource_looks_up w project dashboard name path db dts cfg :
  extractProjectDashboardDatasourceAndPath (requestPath w)
    = (project, dashboard, name, path, None) ->
  Dashboard e project dashboard = (Some db, None) ->
  v1.Datasources (v1.Dashboard_Spec db) !! name = Some dts ->
  ValidateAndExtract rt (v1.Spec (v1.plugin dts)) = (Some cfg, None) ->
  GoString.nonEmpty (datasourceHTTP.Secret cfg) = true ->
  exists rest,
    newEvents (proxyDashboardDatasource rt e) w =
    Dashboard_Get project dashboard :: Secret_Get project (datasourceHTTP.Secret cfg) :: rest.
Proof.
  intros Hx Hdb Hdts Hcfg Hne.
  cut (exists rest, trace (snd (proxyDashboardDatasource rt e w)) =
         trace w ++ Dashboard_Get project dashboard
           :: Secret_Get project (datasourceHTTP.Secret cfg) :: rest).
  { intros (rest & Hr). exists rest. unfold newEvents. now rewrite Hr, drop_app_length. }
  unfold proxyDashboardDatasource.
  rewrite (bind_run getRequest _ w (request w) w eq_refl).
  unfold requestPath in Hx. rewrite Hx.
  rewrite (bind_run (getDashboardDatasource rt e project dashboard name) _ w
             (dts, None) (record w [Dashboard_Get project dashboard])).
  2:{ unfold getDashboardDatasource, bind, emit. simpl. now rewrite Hdb, Hdts. }
  destruct (newProxy_retrieves dts path (Crypto e)
              (fun name0 => getProjectSecret rt e project name name0) cfg
              (record w [Dashboard_Get project dashboard])
              (record (record w [Dashboard_Get project dashboard])
                 [Secret_Get project (datasourceHTTP.Secret cfg)])
              Hcfg Hne (getProjectSecret_world _ _ _ _) _ _ tail_emits) as (rest & Hr).
  exists rest. rewrite Hr. simpl. now rewrite <- !app_assoc.
Qed.
End Lookups.

(* ===================================================================== *)
(** * The allow-list, authentication and resolvers *)
(* ===================================================================== *)

Lemma isAllowed_permits h req : isAllowed h req = true <-> permits h (http.Method req).
Proof.
  unfold isAllowed, permits. rewrite existsb_exists. split.
  - intros (entry & Hin & Hc). apply andb_true_iff in Hc as [Hm Hf].
    exists entry. rewrite list_elem_of_In. apply String.eqb_eq in Hm.
    apply FindAllString_Found in Hf. auto.
  - intros (entry & Hin & Hm & Hf). exists entry. rewrite <- list_elem_of_In.
    split; [assumption|]. apply andb_true_iff. split.
    + now apply String.eqb_eq.
    + now apply FindAllString_Found.
Qed.

(** The test at the head of [serve] lets the request pass. *)
Lemma gate_open h req :
  datasourceHTTP.AllowedEndpoints (config h) = [] \/ permits h (http.Method req) ->
  (0 <? length (datasourceHTTP.AllowedEndpoints (config h)))%nat && negb (isAllowed h req) = false.
Proof.
  intros [Hnil | Hp].
  - now rewrite Hnil.
  - apply isAllowed_permits in Hp. rewrite Hp. apply andb_false_r.
Qed.

Section Serve.
Variable rt : Runtime.



Lemma newEvents_unchanged {A} (m : M A) w r : m w = (r, w) -> newEvents m w = [].
Proof. intros H. unfold newEvents. rewrite H. simpl. apply drop_all. Qed.
End Serve.



Lemma canonical_Authorization :
  textproto.CanonicalMIMEHeaderKey "Authorization" = "Authorization".
Proof. reflexivity. Qed.

Lemma Header_Values_Set hd key value :
  http.Header_Values (http.Header_Set hd key value) key = [value].
Proof. unfold http.Header_Values, http.Header_Set. now rewrite lookup_insert_eq. Qed.

Lemma Header_Set_Set hd key v1 v2 :
  http.Header_Set (http.Header_Set hd key v1) key v2 = http.Header_Set hd key v2.
Proof. unfold http.Header_Set. apply insert_insert_eq. Qed.

(** C3, as amended.  A secret with a basic-auth block and an authorization
    block, both readable: [setupAuthentication] runs both assignments in
    order, and since both write the one header [Authorization], the request
    leaves with the single value "<scheme> <credential>"; what basic-auth
    had set is overwritten. *)
Theorem custom_authorization_replaces_basic (h : httpProxy) (w : World)
    (scrt : v1.SecretSpec) (basicAuth : secret.BasicAuth) (auth : secret.Authorization)
    (password credential : string) :
  secret_ h = Some scrt ->
  v1.BasicAuth scrt = Some basicAuth ->
  v1.Authorization scrt = Some auth ->
  secret.GetPassword basicAuth = (password, None) ->
  secret.GetCredentials auth = (credential, None) ->
  exists w',
    setupAuthentication h w = (Ret None, w') /\
    trace w' = trace w /\
    http.Header_ (request w') =
      http.Header_Set (http.Header_ (request w)) "Authorization"
        (secret.Type_ auth +:+ " " +:+ credential) /\
    http.Header_Values (http.Header_ (request w')) "Authorization" =
      [secret.Type_ auth +:+ " " +:+ credential].
Proof.
  intros Hs Hb Ha Hp Hc. unfold setupAuthentication. rewrite Hs, Hb, Ha, Hp, Hc.
  eexists. split; [reflexivity|]. simpl. repeat split.
  - apply Header_Set_Set.
  - apply Header_Values_Set.
Qed.

Section Resolvers.
Variable rt : Runtime.
Variable e : Proxy.

Lemma getGlobalDatasource_failed name dts err w :
  GlobalDTS e name = (dts, Some err) ->
  fst (getGlobalDatasource rt e name w) =
  Ret (v1.DatasourceSpec_zero,
       Some (if databaseModel.IsKeyNotFound err
             then datasourceDoesNotExist rt name else internalServerError)).
Proof.
  intros H. unfold getGlobalDatasource, bind, emit. simpl. rewrite H.
  now destruct (databaseModel.IsKeyNotFound err).
Qed.

Lemma getProjectDatasource_failed project name dts err w :
  DTS e project name = (dts, Some err) ->
  fst (getProjectDatasource rt e project name w) =
  Ret (v1.DatasourceSpec_zero,
       Some (if databaseModel.IsKeyNotFound err
             then datasourceDoesNotExist rt name else internalServerError)).
Proof.
  intros H. unfold getProjectDatasource, bind, emit. simpl. rewrite H.
  now destruct (databaseModel.IsKeyNotFound err).
Qed.

Lemma getDashboardDatasource_failed project dashboard name db err w :
  Dashboard e project dashboard = (db, Some err) ->
  fst (getDashboardDatasource rt e project dashboard name w) =
  Ret (v1.DatasourceSpec_zero,
       Some (if databaseModel.IsKeyNotFound err
             then datasourceDoesNotExist rt name else internalServerError)).
Proof.
  intros H. unfold getDashboardDatasource, bind, emit. simpl. rewrite H.
  now destruct (databaseModel.IsKeyNotFound err).
Qed.

Lemma getDashboardDatasource_no_key project dashboard name db w :
  Dashboard e project dashboard = (Some db, None) ->
  v1.Datasources (v1.Dashboard_Spec db) !! name = None ->
  fst (getDashboardDatasource rt e project dashboard name w) =
  Ret (v1.DatasourceSpec_zero, Some (datasourceDoesNotExist rt name)).
Proof.
  intros H Hk. unfold getDashboardDatasource, bind, emit. simpl. now rewrite H, Hk.
Qed.
End Resolvers.

(** C9.  The three resolvers map a failure of their store alike: an error
    that [IsKeyNotFound] recognises gives status 404, any other error gives
    status 500 with the fixed message "internal server error", in which the
    error of the store has no part; a dashboard that lacks the key of the
    datasource gives 404 as well. *)
Theorem resolver_error_mapping (rt : Runtime) (e : Proxy) (w : World) :
  let notFound name :=
    HTTPError 404 ("unable to forward the request to the datasource " +:+ Quote rt name
                   +:+ ", datasource doesn't exist") in
  let internal := HTTPError 500 "internal server error" in
  let mapped err name := if databaseModel.IsKeyNotFound err then notFound name else internal in
  (forall name dts err,
     GlobalDTS e name = (dts, Some err) ->
     fst (getGlobalDatasource rt e name w) = Ret (v1.DatasourceSpec_zero, Some (mapped err name))) /\
  (forall project name dts err,
     DTS e project name = (dts, Some err) ->
     fst (getProjectDatasource rt e project name w)
       = Ret (v1.DatasourceSpec_zero, Some (mapped err name))) /\
  (forall project dashboard name db err,
     Dashboard e project dashboard = (db, Some err) ->
     fst (getDashboardDatasource rt e project dashboard name w)
       = Ret (v1.DatasourceSpec_zero, Some (mapped err name))) /\
  (forall project dashboard name db,
     Dashboard e project dashboard = (Some db, None) ->
     v1.Datasources (v1.Dashboard_Spec db) !! name = None ->
     fst (getDashboardDatasource rt e project dashboard name w)
       = Ret (v1.DatasourceSpec_zero, Some (notFound name))).
Proof.
  cbv zeta. repeat split; intros.
  - eapply getGlobalDatasource_failed; eassumption.
  - eapply getProjectDatasource_failed; eassumption.
  - eapply getDashboardDatasource_failed; eassumption.
  - eapply getDashboardDatasource_no_key; eassumption.
Qed.

(* ===================================================================== *)
(** * The secret test in [newProxy] *)
(* ===================================================================== *)

Section NewProxy.
Variable rt : Runtime.

(** When [retrieveSecret] fails, its error is dropped: [newProxy] goes on to
    decrypt the [nil] secret, and its outcome is the one of that call. *)
Lemma newProxy_retrieve_failed spec path crypto retrieveSecret cfg err w w1 :
  ValidateAndExtract rt (v1.Spec (v1.plugin spec)) = (Some cfg, None) ->
  GoString.nonEmpty (datasourceHTTP.Secret cfg) = true ->
  retrieveSecret (datasourceHTTP.Secret cfg) w = (Ret (None, Some err), w1) ->
  newProxy rt spec path crypto retrieveSecret w =
  (match crypto.Decrypt crypto None with
   | Panic r => Panic r
   | Ret (_, Some _) => Ret (None, Some (HTTPError 500 "Internal Server Error"))
   | Ret (scrt, None) => Ret (Some {| config := cfg; secret_ := scrt; path := path |}, None)
   end,
   record w1 [Crypto_Decrypt None]).
Proof.
  intros Hcfg Hne Hr. unfold newProxy. rewrite Hcfg, Hne.
  rewrite (bind_run _ _ _ _ _ Hr). unfold bind, emit, liftRes. simpl.
  destruct (crypto.Decrypt crypto None) as [[scrt [derr|]]|r]; reflexivity.
Qed.

(** When [retrieveSecret] succeeds, [newProxy] returns [nil, nil]. *)
Lemma newProxy_retrieve_succeeded spec path crypto retrieveSecret cfg scrt w w1 :
  ValidateAndExtract rt (v1.Spec (v1.plugin spec)) = (Some cfg, None) ->
  GoString.nonEmpty (datasourceHTTP.Secret cfg) = true ->
  retrieveSecret (datasourceHTTP.Secret cfg) w = (Ret (scrt, None), w1) ->
  newProxy rt spec path crypto retrieveSecret w = (Ret (None, None), w1).
Proof.
  intros Hcfg Hne Hr. unfold newProxy. rewrite Hcfg, Hne.
  now rewrite (bind_run _ _ _ _ _ Hr).
Qed.

(** [serve] answers with one of three statuses, or with no status. *)
Lemma serve_not_404 h w : answers 404 (fst (serve rt h w)) = false.
Proof.
  unfold serve, bind, getRequest.
  destruct (_ && _); [reflexivity|].
  destruct (prepareRequest rt h w) as [[[err|]|r] w1]; simpl; try reflexivity.
  unfold prepareTransport. destruct (prepareTLSConfig rt h) as [c [e|]]; simpl; [reflexivity|].
  unfold ServeHTTP. destruct (RoundTrip rt _ _ _); [reflexivity|].
  destruct (CopyAborts rt _ _ _); reflexivity.
Qed.
End NewProxy.

Lemma demo_extract :
  extractProjectDatasourceAndPath Demo.queryPath = ("p1", "prom1", "/api/v1/query", None).
Proof. vm_compute. reflexivity. Qed.

Lemma demo_dispatch (e : Proxy) w :
  requestPath w = Demo.queryPath ->
  Proxy_Proxy Demo.runtime e Demo.next w = proxyProjectDatasource Demo.runtime e w.
Proof.
  unfold requestPath. intros H. unfold Proxy_Proxy, bind, getRequest. rewrite H.
  reflexivity.
Qed.

Lemma demo_missing_secret_run (crypto : crypto.Crypto) :
  let e := Demo.stores false crypto in
  let w := Demo.world Demo.queryPath in
  Proxy_Proxy Demo.runtime e Demo.next w =
  match crypto.Decrypt crypto None with
  | Panic r => (Panic r, Demo.afterDecrypt w)
  | Ret (_, Some _) => (Ret (Some (HTTPError 500 "Internal Server Error")), Demo.afterDecrypt w)
  | Ret (scrt, None) =>
      serve Demo.runtime
        {| config := Demo.configWithSecret; secret_ := scrt; path := "/api/v1/query" |}
        (Demo.afterDecrypt w)
  end.
Proof.
  intros e w.
  rewrite (demo_dispatch e w eq_refl).
  unfold proxyProjectDatasource.
  rewrite (bind_run getRequest _ w (request w) w eq_refl).
  change (url.Path (http.URL (request w))) with Demo.queryPath. rewrite demo_extract.
  rewrite (bind_run (getProjectDatasource Demo.runtime e "p1" "prom1") _ w
             (Demo.datasource "http-with-secret", None) (record w [DTS_Get "p1" "prom1"]) eq_refl).
  pose proof (newProxy_retrieve_failed Demo.runtime (Demo.datasource "http-with-secret")
                "/api/v1/query" (Crypto e)
                (fun name => getProjectSecret Demo.runtime e "p1" "prom1" name)
                Demo.configWithSecret
                (secretDoesNotExist Demo.runtime "prom1" "s1")
                (record w [DTS_Get "p1" "prom1"])
                (record (record w [DTS_Get "p1" "prom1"]) [Secret_Get "p1" "s1"])
                eq_refl eq_refl eq_refl) as Hn.
  change (Crypto e) with crypto in *.
  unfold bind. rewrite Hn. clear Hn.
  destruct (crypto.Decrypt crypto None) as [[scrt [derr|]]|r]; reflexivity.
Qed.

(** C1 (the code departs from the claim).  Project [p1] holds the
    datasource [prom1], whose configuration names the secret [s1]; the secret
    store answers "not found".  [getProjectSecret] builds the 404 "secret
    attached doesn't exist", but [newProxy] returns after [retrieveSecret]
    when [err == nil], so with an error it goes on and calls [Decrypt] on
    the [nil] secret.  Whatever [Decrypt] does, the request is not answered
    404. *)
Theorem missing_secret_is_not_answered_404 (crypto : crypto.Crypto) :
  let e := Demo.stores false crypto in
  let w := Demo.world Demo.queryPath in
  fst (getProjectSecret Demo.runtime e "p1" "prom1" "s1" w) =
    Ret (None,
         Some (HTTPError 404
                 ("unable to forward the request to the datasource " +:+ Demo.quote "prom1"
                  +:+ ", secret " +:+ Demo.quote "s1" +:+ " attached doesn't exist"))) /\
  answers 404 (fst (Proxy_Proxy Demo.runtime e Demo.next w)) = false /\
  Crypto_Decrypt None ∈ newEvents (Proxy_Proxy Demo.runtime e Demo.next) w.
Proof.
  intros e w. split; [reflexivity|].
  pose proof (demo_missing_secret_run crypto) as Hrun. cbv zeta in Hrun. fold e w in Hrun.
  unfold newEvents. rewrite Hrun.
  destruct (crypto.Decrypt crypto None) as [[scrt [derr|]]|r].
  - split; [reflexivity|]. simpl. set_solver.
  - split; [apply serve_not_404|].
    destruct (serve_emits Demo.runtime anyEvent
                {| config := Demo.configWithSecret; secret_ := scrt; path := "/api/v1/query" |}
                (Demo.afterDecrypt w) ltac:(easy)) as (evs & Heq & _).
    rewrite Heq. simpl. set_solver.
  - split; [reflexivity|]. simpl. set_solver.
Qed.

(** C2 (the code departs from the claim).  The request of the end-to-end
    example: project [p1], datasource [prom1], secret [s1] with user [u] and
    password [p], retrieved without error, an upstream that would answer.
    [newProxy] returns [nil, nil] because the retrieval succeeded, and
    [pr.serve] on the [nil] interface panics after the two store calls: no
    response, no outgoing request. *)
Theorem served_secret_panics (crypto : crypto.Crypto) :
  let e := Demo.stores true crypto in
  let w := Demo.world Demo.queryPath in
  fst (getProjectSecret Demo.runtime e "p1" "prom1" "s1" w) = Ret (Some Demo.basicSecret, None) /\
  RoundTrip Demo.runtime Demo.upstream = (fun _ _ => None) /\
  Proxy_Proxy Demo.runtime e Demo.next w =
  (Panic nilPointer, record w [DTS_Get "p1" "prom1"; Secret_Get "p1" "s1"]).
Proof.
  intros e w. repeat split.
Qed.

(* ===================================================================== *)
(** * Path classification, scopes, and instances *)
(* ===================================================================== *)

(** ** The paths the patterns match as a whole *)

#[local] Arguments inClass : simpl never.
#[local] Arguments notNL : simpl never.

Lemma Matches_Literal_inv pre c u post : Matches pre (Literal c) u post -> u = [c].
Proof. now inversion 1. Qed.

Lemma Matches_CharClass_inv pre ranges u post :
  Matches pre (CharClass ranges) u post -> exists c, u = [c] /\ inClass ranges c = true.
Proof. inversion 1; subst. eauto. Qed.

Lemma Matches_AnyCharNotNL_inv pre u post :
  Matches pre AnyCharNotNL u post -> exists c, u = [c] /\ notNL c = true.
Proof. inversion 1; subst. eauto. Qed.

Lemma Matches_Concat_inv pre r1 r2 u post :
  Matches pre (Concat r1 r2) u post ->
  exists u1 u2, u = u1 ++ u2 /\ Matches pre r1 u1 (u2 ++ post) /\ Matches (pre ++ u1) r2 u2 post.
Proof. inversion 1; subst. eauto. Qed.

Lemma Matches_Capture_inv pre i r u post : Matches pre (Capture i r) u post -> Matches pre r u post.
Proof. now inversion 1. Qed.

Lemma Matches_Quest_inv pre r u post :
  Matches pre (Quest r) u post -> u = [] \/ Matches pre r u post.
Proof. inversion 1; subst; auto. Qed.

Lemma Matches_prefixed_inv p : forall pre r u post,
  Matches pre (prefixed p r) u post -> exists u', u = p ++ u' /\ Matches (pre ++ p) r u' post.
Proof.
  induction p as [|c p IH]; intros pre r u post H; simpl in H.
  - exists u. now rewrite app_nil_r.
  - apply Matches_Concat_inv in H as (u1 & u2 & -> & H1 & H2).
    apply Matches_Literal_inv in H1 as ->.
    apply IH in H2 as (u' & -> & H2). exists u'. split; [reflexivity|].
    now rewrite <- app_assoc in H2.
Qed.

Lemma Matches_prefixed_intro p : forall pre r u post,
  Matches (pre ++ p) r u post -> Matches pre (prefixed p r) (p ++ u) post.
Proof.
  induction p as [|c p IH]; intros pre r u post H; simpl.
  - now rewrite app_nil_r in H.
  - apply (MConcat pre (Literal c) (prefixed p r) [c] (p ++ u) post); [constructor|].
    apply IH. now rewrite <- app_assoc.
Qed.

(** A star over a one-byte test matches exactly the runs that pass it. *)
Lemma Matches_Star_CharClass pre ranges u post :
  Matches pre (Star (CharClass ranges)) u post <-> forallb (inClass ranges) u = true.
Proof.
  split.
  - remember (Star (CharClass ranges)) as re eqn:E. intros H.
    induction H; try discriminate E; [reflexivity|].
    injection E as ->. rewrite forallb_app. rewrite IHMatches2 by reflexivity.
    apply Matches_CharClass_inv in H0 as (c & -> & Hc). simpl. now rewrite Hc.
  - revert pre. induction u as [|c u IH]; intros pre H; [constructor|].
    simpl in H. apply andb_true_iff in H as [Hc Hu].
    apply (MStarCons pre (CharClass ranges) [c] u post); [discriminate | now constructor | auto].
Qed.

Lemma Matches_Star_AnyCharNotNL pre u post :
  Matches pre (Star AnyCharNotNL) u post <-> forallb notNL u = true.
Proof.
  split.
  - remember (Star AnyCharNotNL) as re eqn:E. intros H.
    induction H; try discriminate E; [reflexivity|].
    injection E as ->. rewrite forallb_app. rewrite IHMatches2 by reflexivity.
    apply Matches_AnyCharNotNL_inv in H0 as (c & -> & Hc). simpl. now rewrite Hc.
  - revert pre. induction u as [|c u IH]; intros pre H; [constructor|].
    simpl in H. apply andb_true_iff in H as [Hc Hu].
    apply (MStarCons pre AnyCharNotNL [c] u post); [discriminate | now constructor | auto].
Qed.

Lemma Matches_name pre i u post :
  Matches pre (Capture i (Plus nameClass)) u post <-> validName (GoString.str u) = true.
Proof.
  unfold validName. rewrite list_ascii_of_string_of_list_ascii. split.
  - intros H. apply Matches_Capture_inv, Matches_Concat_inv in H as (u1 & u2 & -> & H1 & H2).
    apply Matches_CharClass_inv in H1 as (c & -> & Hc).
    apply Matches_Star_CharClass in H2. simpl. now rewrite Hc, H2.
  - intros H. apply andb_true_iff in H as [Hne H]. destruct u as [|c u]; [discriminate|].
    simpl in H. apply andb_true_iff in H as [Hc Hu]. constructor.
    apply (MConcat pre nameClass (Star nameClass) [c] u post); [now constructor|].
    now apply Matches_Star_CharClass.
Qed.

Lemma Matches_rest pre i u post :
  Matches pre (restGroup i) u post <-> validRest (GoString.str u) = true.
Proof.
  unfold validRest. rewrite list_ascii_of_string_of_list_ascii. split.
  - intros H. apply Matches_Quest_inv in H as [->|H]; [reflexivity|].
    apply Matches_Capture_inv, Matches_Concat_inv in H as (u1 & u2 & -> & H1 & H2).
    apply Matches_Literal_inv in H1 as ->. apply Matches_Star_AnyCharNotNL in H2.
    simpl. exact H2.
  - destruct u as [|c u]; intros H; [apply MQuestNone|].
    apply andb_true_iff in H as [Hc Hu]. apply Ascii.eqb_eq in Hc as ->.
    apply MQuestSome, MCapture.
    apply (MConcat pre (Literal "/") (Star AnyCharNotNL) ["/"%char] u post); [constructor|].
    now apply Matches_Star_AnyCharNotNL.
Qed.

(** The tail shared by the three patterns: a name, then the suffix group. *)
Lemma Matches_name_rest pre i j u :
  Matches pre (Concat (Capture i (Plus nameClass)) (restGroup j)) u [] <->
  exists name suffix,
    u = GoString.bytes (name +:+ suffix) /\ validName name = true /\ validRest suffix = true.
Proof.
  split.
  - intros H. apply Matches_Concat_inv in H as (u1 & u2 & -> & H1 & H2).
    apply Matches_name in H1. apply Matches_rest in H2.
    exists (GoString.str u1), (GoString.str u2). rewrite bytes_app, !bytes_str. auto.
  - intros (name & suffix & -> & Hn & Hs). rewrite bytes_app.
    apply MConcat.
    + apply Matches_name. now rewrite str_bytes.
    + apply Matches_rest. now rewrite str_bytes.
Qed.

(** A name followed by a fixed part and more. *)
Lemma Matches_name_then pre i p r u :
  Matches pre (Concat (Capture i (Plus nameClass)) (prefixed p r)) u [] <->
  exists name u',
    u = GoString.bytes name ++ p ++ u' /\ validName name = true /\
    Matches ((pre ++ GoString.bytes name) ++ p) r u' [].
Proof.
  split.
  - intros H. apply Matches_Concat_inv in H as (u1 & u2 & -> & H1 & H2).
    apply Matches_name in H1. apply Matches_prefixed_inv in H2 as (u' & -> & H2).
    exists (GoString.str u1), u'. rewrite !bytes_str. auto.
  - intros (name & u' & -> & Hn & H). apply MConcat.
    + apply Matches_name. now rewrite str_bytes.
    + now apply Matches_prefixed_intro.
Qed.

(** Each of the three patterns matches a path as a whole exactly when the
    path is the fixed parts of its template with names of the class and a
    suffix that is empty or a slash followed by bytes other than line
    feed. *)
Lemma whole_path_matches (requestPath : string) :
  (Matches [] globalProxyMatcher (GoString.bytes requestPath) [] <->
   exists name suffix,
     requestPath = "/proxy/globaldatasources/" +:+ name +:+ suffix /\
     validName name = true /\ validRest suffix = true) /\
  (Matches [] projectProxyMatcher (GoString.bytes requestPath) [] <->
   exists project name suffix,
     requestPath = "/proxy/projects/" +:+ project +:+ "/datasources/" +:+ name +:+ suffix /\
     validName project = true /\ validName name = true /\ validRest suffix = true) /\
  (Matches [] dashboardProxyMatcher (GoString.bytes requestPath) [] <->
   exists project dashboard name suffix,
     requestPath = "/proxy/projects/" +:+ project +:+ "/dashboards/" +:+ dashboard
                     +:+ "/datasources/" +:+ name +:+ suffix /\
     validName project = true /\ validName dashboard = true /\ validName name = true /\
     validRest suffix = true).
Proof.
  split; [|split].
  - rewrite globalProxyMatcher_shape. split.
    + intros H. apply Matches_prefixed_inv in H as (u' & Hu & H).
      apply Matches_name_rest in H as (name & suffix & -> & Hn & Hs).
      exists name, suffix. split; [|auto].
      apply bytes_inj. rewrite Hu, !bytes_app. reflexivity.
    + intros (name & suffix & -> & Hn & Hs). rewrite bytes_app.
      apply Matches_prefixed_intro, Matches_name_rest. eauto.
  - rewrite projectProxyMatcher_shape. split.
    + intros H. apply Matches_prefixed_inv in H as (u' & Hu & H).
      apply Matches_name_then in H as (project & u2 & -> & Hp & H).
      apply Matches_name_rest in H as (name & suffix & -> & Hn & Hs).
      exists project, name, suffix. split; [|auto].
      apply bytes_inj. rewrite Hu, !bytes_app. reflexivity.
    + intros (project & name & suffix & -> & Hp & Hn & Hs). rewrite !bytes_app.
      apply Matches_prefixed_intro, Matches_name_then.
      exists project, (GoString.bytes (name +:+ suffix)). rewrite bytes_app.
      split; [reflexivity | split; [assumption|]].
      rewrite <- bytes_app. apply Matches_name_rest. eauto.
  - rewrite dashboardProxyMatcher_shape. split.
    + intros H. apply Matches_prefixed_inv in H as (u' & Hu & H).
      apply Matches_name_then in H as (project & u2 & -> & Hp & H).
      apply Matches_name_then in H as (dashboard & u3 & -> & Hd & H).
      apply Matches_name_rest in H as (name & suffix & -> & Hn & Hs).
      exists project, dashboard, name, suffix. split; [|auto].
      apply bytes_inj. rewrite Hu, !bytes_app. reflexivity.
    + intros (project & dashboard & name & suffix & -> & Hp & Hd & Hn & Hs). rewrite !bytes_app.
      apply Matches_prefixed_intro, Matches_name_then.
      exists project,
        (GoString.bytes dashboard ++ GoString.bytes "/datasources/"
           ++ GoString.bytes name ++ GoString.bytes suffix).
      split; [reflexivity | split; [assumption|]].
      apply Matches_name_then. exists dashboard, (GoString.bytes name ++ GoString.bytes suffix).
      split; [reflexivity | split; [assumption|]].
      rewrite <- bytes_app. apply Matches_name_rest. eauto.
Qed.

(** C6.  A path is well-formed under a template when the template's
    pattern matches it as a whole.  Such a path is the template's fixed
    parts with names of the class "[a-zA-Z-0-9_-]+" and a suffix that is
    empty or a slash followed by bytes other than line feed, and the
    template's extraction function returns exactly these names and, as
    forwarded path, the suffix, or "/" when the suffix is empty.  The same
    is stated once more for paths given by their parts.  And on any path at
    all, a successful extraction never yields the empty forwarded path. *)
Theorem path_classification :
  (forall requestPath,
     Matches [] globalProxyMatcher (GoString.bytes requestPath) [] ->
     exists name suffix,
       requestPath = "/proxy/globaldatasources/" +:+ name +:+ suffix /\
       extractGlobalDatasourceAndPath requestPath = (name, forwarded suffix, None)) /\
  (forall requestPath,
     Matches [] projectProxyMatcher (GoString.bytes requestPath) [] ->
     exists project name suffix,
       requestPath = "/proxy/projects/" +:+ project +:+ "/datasources/" +:+ name +:+ suffix /\
       extractProjectDatasourceAndPath requestPath = (project, name, forwarded suffix, None)) /\
  (forall requestPath,
     Matches [] dashboardProxyMatcher (GoString.bytes requestPath) [] ->
     exists project dashboard name suffix,
       requestPath = "/proxy/projects/" +:+ project +:+ "/dashboards/" +:+ dashboard
                       +:+ "/datasources/" +:+ name +:+ suffix /\
       extractProjectDashboardDatasourceAndPath requestPath
         = (project, dashboard, name, forwarded suffix, None)) /\
  (forall name suffix,
     validName name = true -> validRest suffix = true ->
     extractGlobalDatasourceAndPath ("/proxy/globaldatasources/" +:+ name +:+ suffix)
       = (name, forwarded suffix, None)) /\
  (forall project name suffix,
     validName project = true -> validName name = true -> validRest suffix = true ->
     extractProjectDatasourceAndPath
       ("/proxy/projects/" +:+ project +:+ "/datasources/" +:+ name +:+ suffix)
       = (project, name, forwarded suffix, None)) /\
  (forall project dashboard name suffix,
     validName project = true -> validName dashboard = true -> validName name = true ->
     validRest suffix = true ->
     extractProjectDashboardDatasourceAndPath
       ("/proxy/projects/" +:+ project +:+ "/dashboards/" +:+ dashboard
          +:+ "/datasources/" +:+ name +:+ suffix)
       = (project, dashboard, name, forwarded suffix, None)) /\
  (forall suffix, forwarded suffix = (if GoString.nonEmpty suffix then suffix else "/")) /\
  (forall requestPath dtsName path,
     extractGlobalDatasourceAndPath requestPath = (dtsName, path, None) -> path <> "") /\
  (forall requestPath projectName dtsName path,
     extractProjectDatasourceAndPath requestPath = (projectName, dtsName, path, None) ->
     path <> "") /\
  (forall requestPath projectName dashboardName dtsName path,
     extractProjectDashboardDatasourceAndPath requestPath
       = (projectName, dashboardName, dtsName, path, None) ->
     path <> "").
Proof.
  split; [|split; [|split]].
  - intros requestPath H.
    apply (proj1 (whole_path_matches requestPath)) in H as (name & suffix & -> & Hn & Hs).
    exists name, suffix. split; [reflexivity|]. now apply extractGlobal_wellformed.
  - intros requestPath H.
    apply (proj1 (proj2 (whole_path_matches requestPath)))
      in H as (project & name & suffix & -> & Hp & Hn & Hs).
    exists project, name, suffix. split; [reflexivity|]. now apply extractProject_wellformed.
  - intros requestPath H.
    apply (proj2 (proj2 (whole_path_matches requestPath)))
      in H as (project & dashboard & name & suffix & -> & Hp & Hd & Hn & Hs).
    exists project, dashboard, name, suffix. split; [reflexivity|].
    now apply extractDashboard_wellformed.
  - repeat split.
    + apply extractGlobal_wellformed.
    + apply extractProject_wellformed.
    + apply extractDashboard_wellformed.
    + apply extractGlobal_path_nonempty.
    + apply extractProject_path_nonempty.
    + apply extractDashboard_path_nonempty.
Qed.

(** C8.  Each pipeline keeps to the stores of its scope.  The global
    pipeline calls no project store; the project and the dashboard pipelines
    call no global store, and every project store they call is called with
    the project named in the path.  When the datasource resolves and its
    configuration names a secret, that secret is looked up right after the
    datasource: in the global secret store by the global pipeline, in the
    project secret store under the project of the path by the other two. *)
Theorem secret_lookup_is_scope_specific (rt : Runtime) (e : Proxy) (w : World) :
  Forall globalScoped (newEvents (proxyGlobalDatasource rt e) w) /\
  Forall (projectScoped (projectOf (requestPath w))) (newEvents (proxyProjectDatasource rt e) w) /\
  Forall (projectScoped (dashboardProjectOf (requestPath w)))
    (newEvents (proxyDashboardDatasource rt e) w) /\
  (forall name path dts cfg,
     extractGlobalDatasourceAndPath (requestPath w) = (name, path, None) ->
     GlobalDTS e name = (Some dts, None) ->
     ValidateAndExtract rt (v1.Spec (v1.plugin (v1.GlobalDatasource_Spec dts)))
       = (Some cfg, None) ->
     GoString.nonEmpty (datasourceHTTP.Secret cfg) = true ->
     exists rest,
       newEvents (proxyGlobalDatasource rt e) w =
       GlobalDTS_Get name :: GlobalSecret_Get (datasourceHTTP.Secret cfg) :: rest) /\
  (forall project name path dts cfg,
     extractProjectDatasourceAndPath (requestPath w) = (project, name, path, None) ->
     DTS e project name = (Some dts, None) ->
     ValidateAndExtract rt (v1.Spec (v1.plugin (v1.Datasource_Spec dts))) = (Some cfg, None) ->
     GoString.nonEmpty (datasourceHTTP.Secret cfg) = true ->
     exists rest,
       newEvents (proxyProjectDatasource rt e) w =
       DTS_Get project name :: Secret_Get project (datasourceHTTP.Secret cfg) :: rest) /\
  (forall project dashboard name path db dts cfg,
     extractProjectDashboardDatasourceAndPath (requestPath w)
       = (project, dashboard, name, path, None) ->
     Dashboard e project dashboard = (Some db, None) ->
     v1.Datasources (v1.Dashboard_Spec db) !! name = Some dts ->
     ValidateAndExtract rt (v1.Spec (v1.plugin dts)) = (Some cfg, None) ->
     GoString.nonEmpty (datasourceHTTP.Secret cfg) = true ->
     exists rest,
       newEvents (proxyDashboardDatasource rt e) w =
       Dashboard_Get project dashboard
         :: Secret_Get project (datasourceHTTP.Secret cfg) :: rest).
Proof.
  split; [|split; [|split; [|split; [|split]]]].
  - apply emitsOnly_newEvents, proxyGlobalDatasource_scope.
  - apply emitsOnly_newEvents, proxyProjectDatasource_scope.
  - apply emitsOnly_newEvents, proxyDashboardDatasource_scope.
  - intros. eapply proxyGlobalDatasource_looks_up; eassumption.
  - intros. eapply proxyProjectDatasource_looks_up; eassumption.
  - intros. eapply proxyDashboardDatasource_looks_up; eassumption.
Qed.

Lemma path_classification_witness :
  Matches [] projectProxyMatcher
    (GoString.bytes "/proxy/projects/p1/datasources/prom1/api/v1/query") [] /\
  (exists project name suffix,
     "/proxy/projects/p1/datasources/prom1/api/v1/query"
       = "/proxy/projects/" +:+ project +:+ "/datasources/" +:+ name +:+ suffix /\
     extractProjectDatasourceAndPath "/proxy/projects/p1/datasources/prom1/api/v1/query"
       = (project, name, forwarded suffix, None)) /\
  extractGlobalDatasourceAndPath "/proxy/globaldatasources/gprom/api/v1/labels"
    = ("gprom", "/api/v1/labels", None) /\
  extractProjectDatasourceAndPath "/proxy/projects/p1/datasources/prom1"
    = ("p1", "prom1", "/", None) /\
  extractProjectDashboardDatasourceAndPath
    "/proxy/projects/p1/dashboards/d1/datasources/ds-key/api/v1/query"
    = ("p1", "d1", "ds-key", "/api/v1/query", None).
Proof.
  destruct path_classification as (_ & Hw & _ & Hg & Hp & Hd & _).
  assert (Hm : Matches [] projectProxyMatcher
                 (GoString.bytes "/proxy/projects/p1/datasources/prom1/api/v1/query") []).
  { apply (proj2 (proj1 (proj2 (whole_path_matches _)))).
    exists "p1", "prom1", "/api/v1/query". repeat split; reflexivity. }
  split; [exact Hm|]. split; [exact (Hw _ Hm)|].
  split; [|split].
  - exact (Hg "gprom" "/api/v1/labels" eq_refl eq_refl).
  - exact (Hp "p1" "prom1" "" eq_refl eq_refl eq_refl).
  - exact (Hd "p1" "d1" "ds-key" "/api/v1/query" eq_refl eq_refl eq_refl eq_refl).
Defined.

Lemma secret_lookup_is_scope_specific_witness :
  (exists rest,
     newEvents (proxyGlobalDatasource Demo.runtime (Demo.stores true Demo.identityCrypto))
       (Demo.world "/proxy/globaldatasources/gprom/api/v1/query")
     = GlobalDTS_Get "gprom" :: GlobalSecret_Get "s1" :: rest) /\
  (exists rest,
     newEvents (proxyProjectDatasource Demo.runtime (Demo.stores true Demo.identityCrypto))
       (Demo.world "/proxy/projects/p1/datasources/prom1/api/v1/query")
     = DTS_Get "p1" "prom1" :: Secret_Get "p1" "s1" :: rest) /\
  (exists rest,
     newEvents (proxyDashboardDatasource Demo.runtime (Demo.stores true Demo.identityCrypto))
       (Demo.world "/proxy/projects/p1/dashboards/d1/datasources/ds-key/api/v1/query")
     = Dashboard_Get "p1" "d1" :: Secret_Get "p1" "s1" :: rest).
Proof.
  split; [|split].
  - destruct (secret_lookup_is_scope_specific Demo.runtime (Demo.stores true Demo.identityCrypto)
                (Demo.world "/proxy/globaldatasources/gprom/api/v1/query"))
      as (_ & _ & _ & H & _).
    exact (H "gprom" "/api/v1/query" _ Demo.configWithSecret eq_refl eq_refl eq_refl eq_refl).
  - destruct (secret_lookup_is_scope_specific Demo.runtime (Demo.stores true Demo.identityCrypto)
                (Demo.world "/proxy/projects/p1/datasources/prom1/api/v1/query"))
      as (_ & _ & _ & _ & H & _).
    exact (H "p1" "prom1" "/api/v1/query" _ Demo.configWithSecret eq_refl eq_refl eq_refl eq_refl).
  - destruct (secret_lookup_is_scope_specific Demo.runtime (Demo.stores true Demo.identityCrypto)
                (Demo.world "/proxy/projects/p1/dashboards/d1/datasources/ds-key/api/v1/query"))
      as (_ & _ & _ & _ & _ & H).
    exact (H "p1" "d1" "ds-key" "/api/v1/query" _ (Demo.datasource "http-with-secret")
             Demo.configWithSecret eq_refl eq_refl eq_refl eq_refl eq_refl).
Defined.


Lemma custom_authorization_replaces_basic_witness :
  exists w',
    setupAuthentication (Demo.withSecret Demo.bothSecret) (Demo.world "/") = (Ret None, w') /\
    trace w' = [] /\
    http.Header_ (request w') = http.Header_Set ∅ "Authorization" "Bearer tok" /\
    http.Header_Values (http.Header_ (request w')) "Authorization" = ["Bearer tok"].
Proof.
  exact (custom_authorization_replaces_basic (Demo.withSecret Demo.bothSecret) (Demo.world "/")
           Demo.bothSecret
           {| secret.Username := "u"; secret.GetPassword := ("p", None) |}
           {| secret.Type_ := "Bearer"; secret.GetCredentials := ("tok", None) |}
           "p" "tok" eq_refl eq_refl eq_refl eq_refl eq_refl).
Defined.

(** C3, counterexample.  With basic-auth alone the header is
    "Basic dTpw" (user [u], password [p]); with an authorization block
    besides, the header is "Bearer tok" and the basic value is gone. *)
Lemma basic_authorization_is_dropped :
  let basicOnly :=
    {| v1.BasicAuth := v1.BasicAuth Demo.bothSecret; v1.Authorization := None;
       v1.TLSConfig := Demo.noTLS |} in
  let values h :=
    http.Header_Values
      (http.Header_ (request (snd (setupAuthentication h (Demo.world "/"))))) "Authorization" in
  values (Demo.withSecret basicOnly) = ["Basic dTpw"] /\
  values (Demo.withSecret Demo.bothSecret) = ["Bearer tok"] /\
  "Basic dTpw" ∉ values (Demo.withSecret Demo.bothSecret).
Proof.
  cbv zeta. split; [reflexivity | split; [reflexivity|]].
  change (http.Header_Values _ _) with ["Bearer tok"]. 
  intros H. apply list_elem_of_singleton in H. discriminate.
Qed.



Lemma resolver_error_mapping_witness :
  fst (getProjectDatasource Demo.runtime (Demo.stores true Demo.identityCrypto) "p1" "gone"
         (Demo.world "/")) =
    Ret (v1.DatasourceSpec_zero,
         Some (HTTPError 404
                 ("unable to forward the request to the datasource " +:+ Demo.quote "gone"
                  +:+ ", datasource doesn't exist"))) /\
  fst (getGlobalDatasource Demo.runtime (Demo.brokenStores Demo.identityCrypto) "gprom"
         (Demo.world "/")) =
    Ret (v1.DatasourceSpec_zero, Some (HTTPError 500 "internal server error")) /\
  fst (getDashboardDatasource Demo.runtime (Demo.brokenStores Demo.identityCrypto) "p1" "d1"
         "ds-key" (Demo.world "/")) =
    Ret (v1.DatasourceSpec_zero, Some (HTTPError 500 "internal server error")) /\
  fst (getDashboardDatasource Demo.runtime (Demo.stores true Demo.identityCrypto) "p1" "d1"
         "other-key" (Demo.world "/")) =
    Ret (v1.DatasourceSpec_zero,
         Some (HTTPError 404
                 ("unable to forward the request to the datasource " +:+ Demo.quote "other-key"
                  +:+ ", datasource doesn't exist"))).
Proof.
  split; [|split; [|split]].
  - destruct (resolver_error_mapping Demo.runtime (Demo.stores true Demo.identityCrypto)
                (Demo.world "/")) as (_ & H & _).
    exact (H "p1" "gone" None (KeyNotFound "key not found") eq_refl).
  - destruct (resolver_error_mapping Demo.runtime (Demo.brokenStores Demo.identityCrypto)
                (Demo.world "/")) as (H & _).
    exact (H "gprom" None (Failure "connection refused") eq_refl).
  - destruct (resolver_error_mapping Demo.runtime (Demo.brokenStores Demo.identityCrypto)
                (Demo.world "/")) as (_ & _ & H & _).
    exact (H "p1" "d1" "ds-key" None (Failure "connection refused") eq_refl).
  - destruct (resolver_error_mapping Demo.runtime (Demo.stores true Demo.identityCrypto)
                (Demo.world "/")) as (_ & _ & _ & H).
    exact (H "p1" "d1" "other-key" _ eq_refl eq_refl).
Defined.

(** X1.  For every datasource whose configuration names a secret: when
    the retrieval of the secret succeeds, [newProxy] returns neither a proxy
    nor an error, and serving the [nil] proxy panics. *)
Theorem retrieved_secret_yields_no_proxy (rt : Runtime) (spec : v1.DatasourceSpec)
    (path : string) (crypto : crypto.Crypto)
    (retrieveSecret : string -> M (option v1.SecretSpec * option error))
    (cfg : datasourceHTTP.Config) (scrt : option v1.SecretSpec) (w w1 : World) :
  ValidateAndExtract rt (v1.Spec (v1.plugin spec)) = (Some cfg, None) ->
  GoString.nonEmpty (datasourceHTTP.Secret cfg) = true ->
  retrieveSecret (datasourceHTTP.Secret cfg) w = (Ret (scrt, None), w1) ->
  newProxy rt spec path crypto retrieveSecret w = (Ret (None, None), w1) /\
  callServe rt None w1 = (Panic nilPointer, w1).
Proof.
  intros Hcfg Hne Hr. split; [|reflexivity].
  eapply newProxy_retrieve_succeeded; eassumption.
Qed.

Lemma retrieved_secret_yields_no_proxy_witness :
  let e := Demo.stores true Demo.identityCrypto in
  let w := record (Demo.world Demo.queryPath) [DTS_Get "p1" "prom1"] in
  newProxy Demo.runtime (Demo.datasource "http-with-secret") "/api/v1/query" (Crypto e)
    (fun name => getProjectSecret Demo.runtime e "p1" "prom1" name) w
    = (Ret (None, None), record w [Secret_Get "p1" "s1"]) /\
  callServe Demo.runtime None (record w [Secret_Get "p1" "s1"])
    = (Panic nilPointer, record w [Secret_Get "p1" "s1"]).
Proof.
  exact (retrieved_secret_yields_no_proxy Demo.runtime (Demo.datasource "http-with-secret")
           "/api/v1/query" Demo.identityCrypto
           (fun name =>
              getProjectSecret Demo.runtime (Demo.stores true Demo.identityCrypto) "p1" "prom1" name)
           Demo.configWithSecret (Some Demo.basicSecret)
           (record (Demo.world Demo.queryPath) [DTS_Get "p1" "prom1"])
           (record (record (Demo.world Demo.queryPath) [DTS_Get "p1" "prom1"]) [Secret_Get "p1" "s1"])
           eq_refl eq_refl eq_refl).
Defined.

(* ===================================================================== *)
(** * What a match writes into the registers *)
(* ===================================================================== *)

Section BacktrackCaptures.
Context {A : Type}.
Implicit Types (k : nat -> list ascii -> Caps -> option A).

Lemma starLoop_captures r :
  @CapturesAt A r (backtrack r) ->
  forall fuel, @CapturesAt A (Star r) (starLoop (backtrack r) fuel).
Proof.
  intros IHr fuel. induction fuel as [|fuel IHf]; intros pre s caps k x Hx; simpl in Hx.
  - exists [], s, caps. rewrite Nat.add_0_r. repeat split; [constructor | exact Hx].
  - match type of Hx with match ?m with _ => _ end = _ => destruct m as [y|] eqn:Hm end.
    + injection Hx as ->.
      apply IHr in Hm. destruct Hm as (u1 & post1 & caps1 & -> & Hu1 & Hk1).
      destruct (length pre <? length pre + length u1)%nat eqn:Hlt; [|discriminate].
      apply Nat.ltb_lt in Hlt.
      rewrite <- length_app in Hk1. apply IHf in Hk1.
      destruct Hk1 as (u2 & post & caps2 & -> & Hu2 & Hk2).
      exists (u1 ++ u2), post, caps2. rewrite <- app_assoc.
      repeat split.
      * eapply CStarCons; [destruct u1; [simpl in Hlt; lia | discriminate] | eassumption..].
      * rewrite !length_app, Nat.add_assoc in *. exact Hk2.
    + exists [], s, caps. rewrite Nat.add_0_r. repeat split; [constructor | exact Hx].
Qed.

(** Whatever the matcher finds is a match, and the registers it hands to
    its continuation are the ones the groups of this match write. *)
Lemma backtrack_captures re : @CapturesAt A re (backtrack re).
Proof.
  induction re as [ | c | | ranges | | | i r IH | r IH | r IH | r1 IH1 r2 IH2 | r1 IH1 r2 IH2 ];
    intros pre s caps k x Hx; simpl in Hx.
  - exists [], s, caps. rewrite Nat.add_0_r. repeat split; [constructor | exact Hx].
  - destruct s as [|y s]; [discriminate|]. destruct (Ascii.eqb_spec y c) as [->|]; [|discriminate].
    exists [c], s, caps. rewrite Nat.add_1_r. repeat split; [constructor | exact Hx].
  - destruct s as [|y s]; [discriminate|]. destruct (notNL y) eqn:Hy; [|discriminate].
    exists [y], s, caps. rewrite Nat.add_1_r. repeat split; [now constructor | exact Hx].
  - destruct s as [|y s]; [discriminate|]. destruct (inClass ranges y) eqn:Hy; [|discriminate].
    exists [y], s, caps. rewrite Nat.add_1_r. repeat split; [now constructor | exact Hx].
  - destruct pre; [|discriminate]. exists [], s, caps. repeat split; [constructor | exact Hx].
  - destruct s; [|discriminate]. exists [], [], caps. rewrite Nat.add_0_r.
    repeat split; [constructor | exact Hx].
  - apply IH in Hx. destruct Hx as (u & post & caps' & -> & Hu & Hk).
    exists u, post, (<[i := Some (length pre, (length pre + length u)%nat)]> caps').
    repeat split; [now constructor | exact Hk].
  - exact (starLoop_captures r IH (length s) pre s caps k x Hx).
  - destruct (backtrack r (length pre) s caps k) as [y|] eqn:Hm.
    + injection Hx as ->. apply IH in Hm. destruct Hm as (u & post & caps' & -> & Hu & Hk).
      exists u, post, caps'. repeat split; [now apply CQuestSome | exact Hk].
    + exists [], s, caps. rewrite Nat.add_0_r. repeat split; [apply CQuestNone | exact Hx].
  - apply IH1 in Hx. destruct Hx as (u1 & post1 & caps1 & -> & Hu1 & Hk1).
    rewrite <- length_app in Hk1. apply IH2 in Hk1.
    destruct Hk1 as (u2 & post & caps2 & -> & Hu2 & Hk2).
    exists (u1 ++ u2), post, caps2. rewrite <- app_assoc.
    repeat split; [eapply CConcat; eassumption |].
    rewrite !length_app, Nat.add_assoc in *. exact Hk2.
  - destruct (backtrack r1 (length pre) s caps k) as [y|] eqn:Hm.
    + injection Hx as ->. apply IH1 in Hm. destruct Hm as (u & post & caps' & -> & Hu & Hk).
      exists u, post, caps'. repeat split; [now apply CAlternateL | exact Hk].
    + apply IH2 in Hx. destruct Hx as (u & post & caps' & -> & Hu & Hk).
      exists u, post, caps'. repeat split; [now apply CAlternateR | exact Hk].
Qed.
End BacktrackCaptures.

Lemma Captures_Matches pre re u post c c' : Captures pre re u post c c' -> Matches pre re u post.
Proof. induction 1; solve [econstructor; eauto]. Qed.

Lemma Captures_length pre re u post c c' : Captures pre re u post c c' -> length c' = length c.
Proof. induction 1; rewrite ?length_insert; congruence. Qed.

Lemma matchAt_captures pre re s m :
  matchAt re (length pre) s = Some m ->
  exists u post caps',
    s = u ++ post /\
    Captures pre re u post (replicate (S (NumSubexp re)) None) caps' /\
    m = <[0 := Some (length pre, (length pre + length u)%nat)]> caps'.
Proof.
  unfold matchAt. intros H. apply backtrack_captures in H.
  destruct H as (u & post & caps' & -> & HC & Hk). injection Hk as <-. eauto 6.
Qed.

Lemma doExecute_matchAt re s : forall pre m,
  doExecute re (length pre) s = Some m ->
  exists pre' s', s = pre' ++ s' /\ matchAt re (length (pre ++ pre')) s' = Some m.
Proof.
  induction s as [|c s IH]; intros pre m H; simpl in H.
  - destruct (matchAt re (length pre) []) eqn:Hm; [|discriminate]. injection H as ->.
    exists [], []. rewrite (app_nil_r pre). split; [reflexivity | exact Hm].
  - destruct (matchAt re (length pre) (c :: s)) eqn:Hm.
    + injection H as ->. exists [], (c :: s). rewrite (app_nil_r pre). split; [reflexivity | exact Hm].
    + replace (S (length pre)) with (length (pre ++ [c])) in H by (rewrite length_app; simpl; lia).
      apply IH in H. destruct H as (pre' & s' & -> & HM).
      exists (c :: pre'), s'. split; [reflexivity|]. now rewrite <- app_assoc in HM.
Qed.

(* ===================================================================== *)
(** * What the extraction functions return *)
(* ===================================================================== *)

Lemma str_length (l : list ascii) : String.length (GoString.str l) = length l.
Proof. now rewrite <- bytes_length, bytes_str. Qed.

Lemma Captures_Literal_inv pre x u post c c' :
  Captures pre (Literal x) u post c c' -> u = [x] /\ c' = c.
Proof. inversion 1; subst; auto. Qed.

Lemma Captures_Concat_inv pre r1 r2 u post c c' :
  Captures pre (Concat r1 r2) u post c c' ->
  exists u1 u2 c1,
    u = u1 ++ u2 /\ Captures pre r1 u1 (u2 ++ post) c c1 /\ Captures (pre ++ u1) r2 u2 post c1 c'.
Proof. inversion 1; subst; eauto 7. Qed.

Lemma Captures_Capture_inv pre i r u post c c' :
  Captures pre (Capture i r) u post c c' ->
  exists c1, Captures pre r u post c c1 /\
             c' = <[i := Some (length pre, (length pre + length u)%nat)]> c1.
Proof. inversion 1; subst; eauto. Qed.

Lemma Captures_Quest_inv pre r u post c c' :
  Captures pre (Quest r) u post c c' -> (u = [] /\ c' = c) \/ Captures pre r u post c c'.
Proof. inversion 1; subst; auto. Qed.

Lemma Captures_prefixed_inv p : forall pre r u post c c',
  Captures pre (prefixed p r) u post c c' ->
  exists u', u = p ++ u' /\ Captures (pre ++ p) r u' post c c'.
Proof.
  induction p as [|x p IH]; intros pre r u post c c' H; simpl in H.
  - exists u. rewrite app_nil_r. auto.
  - apply Captures_Concat_inv in H as (u1 & u2 & c1 & -> & H1 & H2).
    apply Captures_Literal_inv in H1 as [-> ->].
    apply IH in H2 as (u' & -> & H2). exists u'. rewrite <- app_assoc in H2. auto.
Qed.

(** A loop over single bytes writes no register. *)
Lemma Captures_Star_CharClass pre ranges u post c c' :
  Captures pre (Star (CharClass ranges)) u post c c' -> c' = c.
Proof.
  intros H. remember (Star (CharClass ranges)) as re eqn:Hre.
  induction H; try discriminate Hre; [reflexivity|].
  injection Hre as ->. inversion H0; subst. auto.
Qed.

Lemma Captures_Star_AnyCharNotNL pre u post c c' :
  Captures pre (Star AnyCharNotNL) u post c c' -> c' = c.
Proof.
  intros H. remember (Star AnyCharNotNL) as re eqn:Hre.
  induction H; try discriminate Hre; [reflexivity|].
  injection Hre as ->. inversion H0; subst. auto.
Qed.

Lemma Captures_name pre i u post c c' :
  Captures pre (Capture i (Plus nameClass)) u post c c' ->
  validName (GoString.str u) = true /\
  c' = <[i := Some (length pre, (length pre + length u)%nat)]> c.
Proof.
  intros H. split.
  - apply Captures_Matches in H. now apply Matches_name in H.
  - apply Captures_Capture_inv in H as (c1 & H & ->). f_equal.
    apply Captures_Concat_inv in H as (u1 & u2 & c2 & -> & H1 & H2).
    inversion H1; subst. now apply Captures_Star_CharClass in H2.
Qed.

Lemma Captures_rest pre i u post c c' :
  Captures pre (restGroup i) u post c c' ->
  validRest (GoString.str u) = true /\
  c' = match restRegister (length pre) (GoString.str u) with
       | Some b => <[i := Some b]> c
       | None => c
       end.
Proof.
  intros H. split.
  - apply Captures_Matches in H. now apply Matches_rest in H.
  - apply Captures_Quest_inv in H as [[-> ->] | H]; [reflexivity|].
    apply Captures_Capture_inv in H as (c1 & H & ->).
    apply Captures_Concat_inv in H as (u1 & u2 & c2 & -> & H1 & H2).
    apply Captures_Literal_inv in H1 as [-> ->].
    apply Captures_Star_AnyCharNotNL in H2 as ->.
    unfold restRegister. simpl. 
    rewrite str_length. reflexivity.
Qed.

Lemma FindAllIndex_cons re whole m rest :
  FindAllIndex re whole = m :: rest -> doExecute re 0 whole = Some m.
Proof.
  unfold FindAllIndex. rewrite Nat.add_comm.
  change (2 + length whole)%nat with (S (S (length whole))).
  rewrite allMatches_S. change (length whole <? 0)%nat with false. cbv iota. rewrite drop_0.
  destruct (doExecute re 0 whole) as [m0|]; [|discriminate].
  destruct (bounds m0) as [mstart mend].
  rewrite bool_decide_eq_false_2 by discriminate. rewrite andb_false_r. simpl.
  intros H. now injection H as -> _.
Qed.

(** The first match of [FindAllStringSubmatch]: a match somewhere in the
    input, register 0 holding its bounds and the other registers what its
    groups wrote. *)
Lemma first_match re whole m rest :
  FindAllIndex re whole = m :: rest ->
  exists pre u post caps',
    whole = pre ++ u ++ post /\
    Captures pre re u post (replicate (S (NumSubexp re)) None) caps' /\
    m = <[0 := Some (length pre, (length pre + length u)%nat)]> caps'.
Proof.
  intros H. apply FindAllIndex_cons in H.
  apply (doExecute_matchAt re whole []) in H as (pre & s' & -> & H).
  apply matchAt_captures in H as (u & post & caps' & -> & HC & ->).
  exists pre, u, post, caps'. auto.
Qed.

Lemma length_one {T} (l : list T) :
  (1 <? length l)%nat || (length l =? 0)%nat = false -> exists x, l = [x].
Proof.
  destruct l as [|x [|y l]]; simpl; intros H; try discriminate. eauto.
Qed.

Lemma global_registers pre u post c' :
  Captures pre globalProxyMatcher u post (replicate 3 None) c' ->
  exists name suffix,
    u = GoString.bytes "/proxy/globaldatasources/" ++ GoString.bytes name ++ GoString.bytes suffix /\
    validName name = true /\ validRest suffix = true /\
    let a := (length pre + 25)%nat in
    let b := (a + String.length name)%nat in
    <[0 := Some (length pre, (length pre + length u)%nat)]> c' =
    [Some (length pre, (length pre + length u)%nat); Some (a, b); restRegister b suffix].
Proof.
  rewrite globalProxyMatcher_shape. intros H.
  apply Captures_prefixed_inv in H as (u' & -> & H).
  apply Captures_Concat_inv in H as (u1 & u2 & c1 & -> & H1 & H2).
  apply Captures_name in H1 as [Hn ->]. apply Captures_rest in H2 as [Hs ->].
  exists (GoString.str u1), (GoString.str u2). rewrite !bytes_str.
  split; [reflexivity|]. split; [assumption|]. split; [assumption|].
  cbv zeta. rewrite !length_app, str_length.
  change (length (GoString.bytes "/proxy/globaldatasources/")) with 25.
  destruct (restRegister _ _); reflexivity.
Qed.

Lemma extractGlobal_sound requestPath dtsName path :
  extractGlobalDatasourceAndPath requestPath = (dtsName, path, None) ->
  exists pre suffix post,
    requestPath = pre +:+ "/proxy/globaldatasources/" +:+ dtsName +:+ suffix +:+ post /\
    validName dtsName = true /\ validRest suffix = true /\ path = forwarded suffix.
Proof.
  unfold extractGlobalDatasourceAndPath, FindAllStringSubmatch.
  destruct (FindAllIndex globalProxyMatcher (GoString.bytes requestPath)) as [|m rest] eqn:HF;
    [discriminate|].
  destruct rest; [|discriminate].
  apply first_match in HF as (pre & u & post & c' & Hw & HC & ->).
  apply global_registers in HC as (name & suffix & -> & Hn & Hs & Hm). cbv zeta in Hm.
  rewrite Hm. cbn [map length firstMatch nth Nat.ltb Nat.leb Nat.eqb orb andb].
  intros H. injection H as <- <-.
  exists (GoString.str pre), suffix, (GoString.str post).
  assert (Hname : group (GoString.bytes requestPath)
                    (Some ((length pre + 25)%nat, (length pre + 25 + String.length name)%nat))
                  = name).
  { apply group_slice. rewrite Hw.
    apply (slice_of _ (pre ++ GoString.bytes "/proxy/globaldatasources/") (GoString.bytes name)
             (GoString.bytes suffix ++ post)).
    - now rewrite <- !app_assoc.
    - rewrite length_app. reflexivity.
    - rewrite length_app, !bytes_length. reflexivity. }
  assert (Hrest : group (GoString.bytes requestPath)
                    (restRegister (length pre + 25 + String.length name) suffix) = suffix).
  { apply group_rest. rewrite Hw.
    apply (slice_of _ (pre ++ GoString.bytes "/proxy/globaldatasources/" ++ GoString.bytes name)
             (GoString.bytes suffix) post).
    - now rewrite <- !app_assoc.
    - rewrite !length_app, !bytes_length. simpl. lia.
    - rewrite !length_app, !bytes_length. simpl. lia. }
  unfold group in Hname at 1. rewrite Hname, Hrest. repeat split; try assumption.
  apply bytes_inj. rewrite Hw, !bytes_app, !bytes_str. now rewrite <- !app_assoc.
Qed.

Ltac registers :=
  cbv zeta; rewrite ?length_app, ?str_length, ?bytes_length; unfold restRegister;
  destruct (GoString.nonEmpty _); simpl; repeat f_equal; lia.

Lemma project_registers pre u post c' :
  Captures pre projectProxyMatcher u post (replicate 4 None) c' ->
  exists project name suffix,
    u = GoString.bytes "/proxy/projects/" ++ GoString.bytes project
          ++ GoString.bytes "/datasources/" ++ GoString.bytes name ++ GoString.bytes suffix /\
    validName project = true /\ validName name = true /\ validRest suffix = true /\
    let a := (length pre + 16 + String.length project)%nat in
    let b := (a + 13 + String.length name)%nat in
    <[0 := Some (length pre, (length pre + length u)%nat)]> c' =
    [Some (length pre, (length pre + length u)%nat); Some ((length pre + 16)%nat, a);
     Some ((a + 13)%nat, b); restRegister b suffix].
Proof.
  rewrite projectProxyMatcher_shape. intros H.
  apply Captures_prefixed_inv in H as (u' & -> & H).
  apply Captures_Concat_inv in H as (u1 & u2 & c1 & -> & H1 & H2).
  apply Captures_name in H1 as [Hp ->].
  apply Captures_prefixed_inv in H2 as (u' & -> & H2).
  apply Captures_Concat_inv in H2 as (u2 & u3 & c2 & -> & H2 & H3).
  apply Captures_name in H2 as [Hn ->]. apply Captures_rest in H3 as [Hs ->].
  exists (GoString.str u1), (GoString.str u2), (GoString.str u3). rewrite !bytes_str.
  split; [reflexivity|]. split; [assumption|]. split; [assumption|]. split; [assumption|].
  registers.
Qed.

Lemma dashboard_registers pre u post c' :
  Captures pre dashboardProxyMatcher u post (replicate 5 None) c' ->
  exists project dashboard name suffix,
    u = GoString.bytes "/proxy/projects/" ++ GoString.bytes project
          ++ GoString.bytes "/dashboards/" ++ GoString.bytes dashboard
          ++ GoString.bytes "/datasources/" ++ GoString.bytes name ++ GoString.bytes suffix /\
    validName project = true /\ validName dashboard = true /\ validName name = true /\
    validRest suffix = true /\
    let a := (length pre + 16 + String.length project)%nat in
    let b := (a + 12 + String.length dashboard)%nat in
    let c := (b + 13 + String.length name)%nat in
    <[0 := Some (length pre, (length pre + length u)%nat)]> c' =
    [Some (length pre, (length pre + length u)%nat); Some ((length pre + 16)%nat, a);
     Some ((a + 12)%nat, b); Some ((b + 13)%nat, c); restRegister c suffix].
Proof.
  rewrite dashboardProxyMatcher_shape. intros H.
  apply Captures_prefixed_inv in H as (u' & -> & H).
  apply Captures_Concat_inv in H as (u1 & u2 & c1 & -> & H1 & H2).
  apply Captures_name in H1 as [Hp ->].
  apply Captures_prefixed_inv in H2 as (u' & -> & H2).
  apply Captures_Concat_inv in H2 as (u2 & u3 & c2 & -> & H2 & H3).
  apply Captures_name in H2 as [Hd ->].
  apply Captures_prefixed_inv in H3 as (u' & -> & H3).
  apply Captures_Concat_inv in H3 as (u3 & u4 & c3 & -> & H3 & H4).
  apply Captures_name in H3 as [Hn ->]. apply Captures_rest in H4 as [Hs ->].
  exists (GoString.str u1), (GoString.str u2), (GoString.str u3), (GoString.str u4).
  rewrite !bytes_str.
  split; [reflexivity|]. split; [assumption|]. split; [assumption|]. split; [assumption|].
  split; [assumption|].
  registers.
Qed.

Lemma text_at whole a c lo hi s :
  whole = a ++ GoString.bytes s ++ c -> lo = length a -> hi = (lo + String.length s)%nat ->
  GoString.str (GoString.slice whole lo hi) = s.
Proof.
  intros -> -> ->. apply (group_slice _ _ _ s).
  apply (slice_of _ a (GoString.bytes s) c); [reflexivity.. | now rewrite bytes_length].
Qed.

Lemma rest_at whole a c pos s :
  whole = a ++ GoString.bytes s ++ c -> pos = length a ->
  group whole (restRegister pos s) = s.
Proof.
  intros -> ->. apply group_rest.
  apply (slice_of _ a (GoString.bytes s) c); [reflexivity.. | now rewrite bytes_length].
Qed.

Ltac lengths' := rewrite ?length_app, ?bytes_length; simpl; lia.

Lemma extractProject_sound requestPath projectName dtsName path :
  extractProjectDatasourceAndPath requestPath = (projectName, dtsName, path, None) ->
  exists pre suffix post,
    requestPath = pre +:+ "/proxy/projects/" +:+ projectName +:+ "/datasources/" +:+ dtsName
                    +:+ suffix +:+ post /\
    validName projectName = true /\ validName dtsName = true /\ validRest suffix = true /\
    path = forwarded suffix.
Proof.
  unfold extractProjectDatasourceAndPath, FindAllStringSubmatch.
  destruct (FindAllIndex projectProxyMatcher (GoString.bytes requestPath)) as [|m rest] eqn:HF;
    [discriminate|].
  destruct rest; [|discriminate].
  apply first_match in HF as (pre & u & post & c' & Hw & HC & ->).
  apply project_registers in HC as (project & name & suffix & -> & Hp & Hn & Hs & Hm).
  cbv zeta in Hm.
  rewrite Hm. cbn [map length firstMatch nth Nat.ltb Nat.leb Nat.eqb orb andb group].
  rewrite <- !app_assoc in Hw.
  rewrite (text_at _ (pre ++ GoString.bytes "/proxy/projects/")
             (GoString.bytes "/datasources/" ++ GoString.bytes name ++ GoString.bytes suffix ++ post)
             _ _ project);
    [| now rewrite Hw, <- !app_assoc | lengths' | lengths'].
  rewrite (text_at _ (pre ++ GoString.bytes "/proxy/projects/" ++ GoString.bytes project
                        ++ GoString.bytes "/datasources/")
             (GoString.bytes suffix ++ post) _ _ name);
    [| now rewrite Hw, <- !app_assoc | lengths' | lengths'].
  rewrite (rest_at _ (pre ++ GoString.bytes "/proxy/projects/" ++ GoString.bytes project
                        ++ GoString.bytes "/datasources/" ++ GoString.bytes name) post _ suffix);
    [| now rewrite Hw, <- !app_assoc | lengths'].
  intros H. injection H as <- <- <-.
  exists (GoString.str pre), suffix, (GoString.str post).
  repeat split; try assumption.
  apply bytes_inj. rewrite Hw, !bytes_app, !bytes_str. now rewrite <- ?app_assoc.
Qed.

Lemma extractDashboard_sound requestPath projectName dashboardName dtsName path :
  extractProjectDashboardDatasourceAndPath requestPath
    = (projectName, dashboardName, dtsName, path, None) ->
  exists pre suffix post,
    requestPath = pre +:+ "/proxy/projects/" +:+ projectName +:+ "/dashboards/" +:+ dashboardName
                    +:+ "/datasources/" +:+ dtsName +:+ suffix +:+ post /\
    validName projectName = true /\ validName dashboardName = true /\ validName dtsName = true /\
    validRest suffix = true /\ path = forwarded suffix.
Proof.
  unfold extractProjectDashboardDatasourceAndPath, FindAllStringSubmatch.
  destruct (FindAllIndex dashboardProxyMatcher (GoString.bytes requestPath)) as [|m rest] eqn:HF;
    [discriminate|].
  destruct rest; [|discriminate].
  apply first_match in HF as (pre & u & post & c' & Hw & HC & ->).
  apply dashboard_registers in HC as (project & dashboard & name & suffix & -> & Hp & Hd & Hn & Hs & Hm).
  cbv zeta in Hm.
  rewrite Hm. cbn [map length firstMatch nth Nat.ltb Nat.leb Nat.eqb orb andb group].
  rewrite <- !app_assoc in Hw.
  rewrite (text_at _ (pre ++ GoString.bytes "/proxy/projects/")
             (GoString.bytes "/dashboards/" ++ GoString.bytes dashboard
                ++ GoString.bytes "/datasources/" ++ GoString.bytes name
                ++ GoString.bytes suffix ++ post)
             _ _ project);
    [| now rewrite Hw, <- !app_assoc | lengths' | lengths'].
  rewrite (text_at _ (pre ++ GoString.bytes "/proxy/projects/" ++ GoString.bytes project
                        ++ GoString.bytes "/dashboards/")
             (GoString.bytes "/datasources/" ++ GoString.bytes name
                ++ GoString.bytes suffix ++ post) _ _ dashboard);
    [| now rewrite Hw, <- !app_assoc | lengths' | lengths'].
  rewrite (text_at _ (pre ++ GoString.bytes "/proxy/projects/" ++ GoString.bytes project
                        ++ GoString.bytes "/dashboards/" ++ GoString.bytes dashboard
                        ++ GoString.bytes "/datasources/")
             (GoString.bytes suffix ++ post) _ _ name);
    [| now rewrite Hw, <- !app_assoc | lengths' | lengths'].
  rewrite (rest_at _ (pre ++ GoString.bytes "/proxy/projects/" ++ GoString.bytes project
                        ++ GoString.bytes "/dashboards/" ++ GoString.bytes dashboard
                        ++ GoString.bytes "/datasources/" ++ GoString.bytes name) post _ suffix);
    [| now rewrite Hw, <- !app_assoc | lengths'].
  intros H. injection H as <- <- <- <-.
  exists (GoString.str pre), suffix, (GoString.str post).
  repeat split; try assumption.
  apply bytes_inj. rewrite Hw, !bytes_app, !bytes_str. now rewrite <- ?app_assoc.
Qed.

Lemma Matches_anchorFree pre re u post :
  Matches pre re u post -> anchorFree re = true -> forall pre2, Matches pre2 re u post.
Proof.
  induction 1; simpl; intros Hf pre2; try discriminate;
    try (apply andb_true_iff in Hf as [Hf1 Hf2]); try solve [econstructor; eauto].
Qed.

Lemma doExecute_anywhere re pos s :
  anchorFree re = true -> is_Some (doExecute re pos s) <-> Found re s.
Proof.
  intros Hf. assert (Hpos : pos = length (replicate pos " "%char)) by now rewrite length_replicate.
  rewrite Hpos. split.
  - intros [m Hm]. apply doExecute_sound in Hm as (pre' & u & post & -> & HM).
    exists pre', u, post. split; [reflexivity|]. eapply Matches_anchorFree; eauto.
  - intros (pre' & u & post & -> & HM). apply doExecute_complete.
    eapply Matches_anchorFree; eauto.
Qed.

Lemma doExecute_MatchString re pos s :
  anchorFree re = true ->
  doExecute re pos (GoString.bytes s) = None <-> MatchString re s = false.
Proof.
  intros Hf. pose proof (doExecute_anywhere re pos (GoString.bytes s) Hf) as H1.
  pose proof (MatchString_Found re s) as H2.
  destruct (doExecute re pos _) as [m|], (MatchString re s); split; intros H; try reflexivity;
    try discriminate; exfalso.
  - assert (HF : Found re (GoString.bytes s)) by (apply H1; eauto).
    apply H2 in HF. discriminate.
  - assert (HF : Found re (GoString.bytes s)) by now apply H2.
    apply H1 in HF as [? ?]. discriminate.
Qed.

Lemma bounds_insert caps b : caps <> [] -> bounds (<[0 := Some b]> caps) = b.
Proof. destruct caps; [congruence | reflexivity]. Qed.

(** The match the search returns: a match at or after the place the search
    started from, register 0 holding its bounds. *)
Lemma doExecute_bounds re s pre m :
  doExecute re (length pre) s = Some m ->
  exists pre' u post,
    s = pre' ++ u ++ post /\ Matches (pre ++ pre') re u post /\
    length m = S (NumSubexp re) /\
    bounds m = ((length pre + length pre')%nat, (length pre + length pre' + length u)%nat).
Proof.
  intros H. apply doExecute_matchAt in H as (pre' & s' & -> & H).
  apply matchAt_captures in H as (u & post & caps' & -> & HC & ->).
  exists pre', u, post. split; [reflexivity|]. split; [eapply Captures_Matches; eauto|].
  apply Captures_length in HC. rewrite length_replicate in HC.
  rewrite length_insert. split; [assumption|].
  rewrite bounds_insert; [now rewrite length_app | destruct caps'; [discriminate | congruence]].
Qed.

(** The first match and what the loop does after it. *)
Lemma FindAllIndex_first re whole m b e :
  doExecute re 0 whole = Some m -> bounds m = (b, e) -> (0 < e)%nat ->
  FindAllIndex re whole = m :: allMatches (S (length whole)) re whole e (Some e).
Proof.
  intros Hm Hb He. unfold FindAllIndex. rewrite Nat.add_comm.
  change (2 + length whole)%nat with (S (S (length whole))).
  rewrite allMatches_S. change (length whole <? 0)%nat with false. cbv iota.
  rewrite drop_0, Hm, Hb.
  assert (Hz : (e =? 0)%nat = false) by (apply Nat.eqb_neq; lia).
  cbv zeta. rewrite Hz. reflexivity.
Qed.

Lemma allMatches_none fuel re whole pos prevMatchEnd :
  doExecute re pos (drop pos whole) = None ->
  allMatches (S fuel) re whole pos prevMatchEnd = [].
Proof. intros H. rewrite allMatches_S, H. now destruct (_ <? _)%nat. Qed.

Lemma allMatches_some fuel re whole pos prevMatchEnd m b e :
  (pos <= length whole)%nat ->
  doExecute re pos (drop pos whole) = Some m -> bounds m = (b, e) -> (pos < e)%nat ->
  exists rest, allMatches (S fuel) re whole pos prevMatchEnd = m :: rest.
Proof.
  intros Hle H Hb He. rewrite allMatches_S, H, Hb.
  assert (Hlt : (length whole <? pos)%nat = false) by (apply Nat.ltb_ge; lia).
  assert (Hz : (e =? pos)%nat = false) by (apply Nat.eqb_neq; lia).
  rewrite Hlt. cbv zeta. rewrite Hz. simpl. eauto.
Qed.

Section RunsOn.
Context {A : Type}.
Implicit Types (k : nat -> list ascii -> Caps -> option A).

Lemma backtrack_restGroup_skip i pos s caps k :
  stopsAt (fun c => Ascii.eqb c "/") s ->
  backtrack (restGroup i) pos s caps k = k pos s caps.
Proof.
  intros H. unfold restGroup.
  change (backtrack (Quest ?r) pos ?s caps k)
    with (match backtrack r pos s caps k with Some y => Some y | None => k pos s caps end).
  destruct s as [|y s]; [reflexivity|]. simpl in H. simpl. now rewrite H.
Qed.

Lemma backtrack_restGroup_line i pos rest s caps k x :
  forallb notNL rest = true -> stopsAt notNL s ->
  k (pos + S (length rest)) s (<[i := Some (pos, (pos + S (length rest))%nat)]> caps) = Some x ->
  backtrack (restGroup i) pos ("/"%char :: rest ++ s) caps k = Some x.
Proof.
  intros Hrest Hs Hk. unfold restGroup.
  change (backtrack (Quest ?r) pos ?s caps k)
    with (match backtrack r pos s caps k with Some y => Some y | None => k pos s caps end).
  assert (H : backtrack (Capture i (Concat (Literal "/") (Star AnyCharNotNL))) pos
                ("/"%char :: rest ++ s) caps k = Some x).
  { simpl. apply (starLoop_run notNL); auto.
    - rewrite length_app. lia.
    - rewrite <- Hk. f_equal; [lia | do 3 f_equal; lia]. }
  now rewrite H.
Qed.
End RunsOn.

Lemma stopsAt_weaken (p q : ascii -> bool) s :
  (forall c, q c = true -> p c = true) -> stopsAt p s -> stopsAt q s.
Proof.
  intros H. destruct s as [|y s]; simpl; [auto|]. intros Hp.
  destruct (q y) eqn:E; [|reflexivity]. apply H in E. congruence.
Qed.

(** After a name and its suffix, before [remainder], the class stops. *)
Lemma stopsAt_suffix suffix remainder :
  validRest suffix = true -> endsMatch suffix remainder ->
  stopsAt (inClass nameRanges) (GoString.bytes suffix ++ remainder).
Proof.
  intros Hs He. apply validRest_cases in Hs as [->|(tail & Heq & _)].
  - simpl in *.
    apply (stopsAt_weaken (fun c => inClass nameRanges c || Ascii.eqb c "/")); [|exact He].
    intros c ->. reflexivity.
  - rewrite Heq. reflexivity.
Qed.

Lemma backtrack_rest_then {A} i suffix remainder pos caps
    (k : nat -> list ascii -> Caps -> option A) x :
  validRest suffix = true -> endsMatch suffix remainder ->
  k (pos + String.length suffix) remainder
    (match restRegister pos suffix with Some b => <[i := Some b]> caps | None => caps end) = Some x ->
  backtrack (restGroup i) pos (GoString.bytes suffix ++ remainder) caps k = Some x.
Proof.
  intros H He Hk. pose proof (bytes_length suffix) as Hlen.
  apply validRest_cases in H as [->|(tail & Heq & Htail)].
  - simpl in Hk, He. change (GoString.bytes "" ++ remainder) with remainder.
    rewrite Nat.add_0_r in Hk. rewrite backtrack_restGroup_skip; [exact Hk|].
    apply (stopsAt_weaken (fun c => inClass nameRanges c || Ascii.eqb c "/")); [|exact He].
    intros c ->. apply orb_true_r.
  - rewrite Heq in *. simpl in Hlen. 
    unfold endsMatch in He. destruct suffix; [discriminate|]. simpl in He.
    apply backtrack_restGroup_line; auto.
    unfold restRegister in Hk. simpl in Hk, Hlen.
    injection Hlen as Hlen. rewrite Hlen. exact Hk.
Qed.

Lemma matchAt_global_at pos name suffix remainder :
  validName name = true -> validRest suffix = true -> endsMatch suffix remainder ->
  let a := (pos + 25)%nat in
  let b := (a + String.length name)%nat in
  matchAt globalProxyMatcher pos
    (GoString.bytes "/proxy/globaldatasources/" ++ GoString.bytes name
       ++ GoString.bytes suffix ++ remainder) =
  Some [Some (pos, (b + String.length suffix)%nat); Some (a, b); restRegister b suffix].
Proof.
  intros Hname Hrest He a b. unfold matchAt.
  change (NumSubexp globalProxyMatcher) with 2%nat.
  rewrite globalProxyMatcher_shape, backtrack_prefixed.
  apply backtrack_name; [assumption | now apply stopsAt_suffix |].
  apply backtrack_rest_then; [assumption..|].
  unfold restRegister. destruct (GoString.nonEmpty suffix); reflexivity.
Qed.

Lemma matchAt_project_at pos project name suffix remainder :
  validName project = true -> validName name = true -> validRest suffix = true ->
  endsMatch suffix remainder ->
  let a := (pos + 16 + String.length project)%nat in
  let b := (a + 13 + String.length name)%nat in
  matchAt projectProxyMatcher pos
    (GoString.bytes "/proxy/projects/" ++ GoString.bytes project
       ++ GoString.bytes "/datasources/" ++ GoString.bytes name
       ++ GoString.bytes suffix ++ remainder) =
  Some [Some (pos, (b + String.length suffix)%nat); Some ((pos + 16)%nat, a);
        Some ((a + 13)%nat, b); restRegister b suffix].
Proof.
  intros Hproject Hname Hrest He a b. unfold matchAt.
  change (NumSubexp projectProxyMatcher) with 3%nat.
  rewrite projectProxyMatcher_shape, backtrack_prefixed.
  apply backtrack_name; [assumption | reflexivity |].
  rewrite backtrack_prefixed.
  apply backtrack_name; [assumption | now apply stopsAt_suffix |].
  apply backtrack_rest_then; [assumption..|].
  unfold restRegister. destruct (GoString.nonEmpty suffix); reflexivity.
Qed.

Lemma matchAt_dashboard_at pos project dashboard name suffix remainder :
  validName project = true -> validName dashboard = true -> validName name = true ->
  validRest suffix = true -> endsMatch suffix remainder ->
  let a := (pos + 16 + String.length project)%nat in
  let b := (a + 12 + String.length dashboard)%nat in
  let c := (b + 13 + String.length name)%nat in
  matchAt dashboardProxyMatcher pos
    (GoString.bytes "/proxy/projects/" ++ GoString.bytes project
       ++ GoString.bytes "/dashboards/" ++ GoString.bytes dashboard
       ++ GoString.bytes "/datasources/" ++ GoString.bytes name
       ++ GoString.bytes suffix ++ remainder) =
  Some [Some (pos, (c + String.length suffix)%nat); Some ((pos + 16)%nat, a);
        Some ((a + 12)%nat, b); Some ((b + 13)%nat, c); restRegister c suffix].
Proof.
  intros Hproject Hdashboard Hname Hrest He a b c. unfold matchAt.
  change (NumSubexp dashboardProxyMatcher) with 4%nat.
  rewrite dashboardProxyMatcher_shape, backtrack_prefixed.
  apply backtrack_name; [assumption | reflexivity |].
  rewrite backtrack_prefixed.
  apply backtrack_name; [assumption | reflexivity |].
  rewrite backtrack_prefixed.
  apply backtrack_name; [assumption | now apply stopsAt_suffix |].
  apply backtrack_rest_then; [assumption..|].
  unfold restRegister. destruct (GoString.nonEmpty suffix); reflexivity.
Qed.

(** The matches of a pattern that matches no empty text and has no anchors:
    after the first match, the rest of the input is searched as if it stood
    alone. *)
Lemma FindAllIndex_after re whole pre text remainder m :
  anchorFree re = true ->
  (forall pre u post, Matches pre re u post -> u <> []) ->
  whole = pre ++ text ++ remainder -> text <> [] ->
  doExecute re 0 whole = Some m ->
  bounds m = (length pre, (length pre + length text)%nat) ->
  if MatchString re (GoString.str remainder)
  then exists m2 rest, FindAllIndex re whole = m :: m2 :: rest
  else FindAllIndex re whole = [m].
Proof.
  intros Hf Hne Hw Ht Hm Hb.
  assert (He : (0 < length pre + length text)%nat) by (destruct text; [congruence | simpl; lia]).
  rewrite (FindAllIndex_first re whole m _ _ Hm Hb He).
  assert (Hdrop : drop (length pre + length text) whole = remainder).
  { rewrite Hw, app_assoc, <- length_app. apply drop_app_length. }
  destruct (MatchString re (GoString.str remainder)) eqn:HM.
  - apply MatchString_Found in HM. rewrite bytes_str in HM.
    apply (doExecute_anywhere re (length (pre ++ text)) remainder Hf) in HM as [m2 Hm2].
    pose proof Hm2 as Hm2'.
    apply doExecute_bounds in Hm2' as (pre' & u & post & Hr & HMt & _ & Hb2).
    apply Hne in HMt.
    destruct (allMatches_some (length whole) re whole (length pre + length text)
                (Some (length pre + length text)%nat) m2
                (length (pre ++ text) + length pre')%nat
                (length (pre ++ text) + length pre' + length u)%nat) as (rest & Hrest).
    + rewrite Hw, !length_app. lia.
    + rewrite Hdrop, <- length_app. exact Hm2.
    + exact Hb2.
    + rewrite !length_app. destruct u; [congruence | simpl; lia].
    + exists m2, rest. now rewrite Hrest.
  - rewrite allMatches_none; [reflexivity|]. rewrite Hdrop.
    rewrite <- (bytes_str remainder). now apply doExecute_MatchString.
Qed.

Lemma prefixed_nonempty c p r pre u post : Matches pre (prefixed (c :: p) r) u post -> u <> [].
Proof. intros H. apply Matches_prefixed_inv in H as (u' & -> & _). discriminate. Qed.

Lemma global_nonempty pre u post : Matches pre globalProxyMatcher u post -> u <> [].
Proof. rewrite globalProxyMatcher_shape. apply prefixed_nonempty. Qed.

Lemma project_nonempty pre u post : Matches pre projectProxyMatcher u post -> u <> [].
Proof. rewrite projectProxyMatcher_shape. apply prefixed_nonempty. Qed.

Lemma dashboard_nonempty pre u post : Matches pre dashboardProxyMatcher u post -> u <> [].
Proof. rewrite dashboardProxyMatcher_shape. apply prefixed_nonempty. Qed.

(** The global extraction on a path in which the leftmost match of the
    pattern starts after [pre]. *)
Lemma extractGlobal_at pre name suffix remainder :
  validName name = true -> validRest suffix = true -> endsMatch suffix remainder ->
  let text := GoString.bytes "/proxy/globaldatasources/" ++ GoString.bytes name
                ++ GoString.bytes suffix in
  doExecute globalProxyMatcher 0 (pre ++ text ++ remainder) =
    matchAt globalProxyMatcher (length pre) (text ++ remainder) ->
  extractGlobalDatasourceAndPath (GoString.str (pre ++ text ++ remainder)) =
  if MatchString globalProxyMatcher (GoString.str remainder)
  then ("", "", Some notProperlyFormatted)
  else (name, forwarded suffix, None).
Proof.
  intros Hn Hs He text Hleft.
  pose proof (matchAt_global_at (length pre) name suffix remainder Hn Hs He) as Hm.
  cbv zeta in Hm. unfold text in Hleft. rewrite <- !app_assoc in Hleft. rewrite Hm in Hleft.
  unfold extractGlobalDatasourceAndPath, FindAllStringSubmatch. rewrite bytes_str.
  match type of Hleft with _ = Some ?m =>
    pose proof (FindAllIndex_after globalProxyMatcher (pre ++ text ++ remainder) pre text remainder
                  m eq_refl global_nonempty eq_refl) as HF
  end.
  unfold text in HF at 2. rewrite <- !app_assoc in HF.
  specialize (HF ltac:(discriminate) Hleft).
  destruct (MatchString globalProxyMatcher (GoString.str remainder)).
  - destruct HF as (m2 & rest & ->); [cbn [bounds]; unfold text; f_equal; lengths' | reflexivity].
  - rewrite HF by (cbn [bounds]; unfold text; f_equal; lengths').
    cbn [map length firstMatch nth Nat.ltb Nat.leb Nat.eqb orb andb group].
    rewrite (text_at _ (pre ++ GoString.bytes "/proxy/globaldatasources/")
               (GoString.bytes suffix ++ remainder) _ _ name);
      [| unfold text; now rewrite <- !app_assoc | lengths' | lengths'].
    rewrite (rest_at _ (pre ++ GoString.bytes "/proxy/globaldatasources/" ++ GoString.bytes name)
               remainder _ suffix);
      [| unfold text; now rewrite <- !app_assoc | lengths'].
    reflexivity.
Qed.

Lemma extractProject_at pre project name suffix remainder :
  validName project = true -> validName name = true -> validRest suffix = true ->
  endsMatch suffix remainder ->
  let text := GoString.bytes "/proxy/projects/" ++ GoString.bytes project
                ++ GoString.bytes "/datasources/" ++ GoString.bytes name
                ++ GoString.bytes suffix in
  doExecute projectProxyMatcher 0 (pre ++ text ++ remainder) =
    matchAt projectProxyMatcher (length pre) (text ++ remainder) ->
  extractProjectDatasourceAndPath (GoString.str (pre ++ text ++ remainder)) =
  if MatchString projectProxyMatcher (GoString.str remainder)
  then ("", "", "", Some notProperlyFormatted)
  else (project, name, forwarded suffix, None).
Proof.
  intros Hp Hn Hs He text Hleft.
  pose proof (matchAt_project_at (length pre) project name suffix remainder Hp Hn Hs He) as Hm.
  cbv zeta in Hm. unfold text in Hleft. rewrite <- !app_assoc in Hleft. rewrite Hm in Hleft.
  unfold extractProjectDatasourceAndPath, FindAllStringSubmatch. rewrite bytes_str.
  match type of Hleft with _ = Some ?m =>
    pose proof (FindAllIndex_after projectProxyMatcher (pre ++ text ++ remainder) pre text remainder
                  m eq_refl project_nonempty eq_refl) as HF
  end.
  unfold text in HF at 2. rewrite <- !app_assoc in HF.
  specialize (HF ltac:(discriminate) Hleft).
  destruct (MatchString projectProxyMatcher (GoString.str remainder)).
  - destruct HF as (m2 & rest & ->); [cbn [bounds]; unfold text; f_equal; lengths' | reflexivity].
  - rewrite HF by (cbn [bounds]; unfold text; f_equal; lengths').
    cbn [map length firstMatch nth Nat.ltb Nat.leb Nat.eqb orb andb group].
    rewrite (text_at _ (pre ++ GoString.bytes "/proxy/projects/")
               (GoString.bytes "/datasources/" ++ GoString.bytes name
                  ++ GoString.bytes suffix ++ remainder) _ _ project);
      [| unfold text; now rewrite <- !app_assoc | lengths' | lengths'].
    rewrite (text_at _ (pre ++ GoString.bytes "/proxy/projects/" ++ GoString.bytes project
                          ++ GoString.bytes "/datasources/")
               (GoString.bytes suffix ++ remainder) _ _ name);
      [| unfold text; now rewrite <- !app_assoc | lengths' | lengths'].
    rewrite (rest_at _ (pre ++ GoString.bytes "/proxy/projects/" ++ GoString.bytes project
                          ++ GoString.bytes "/datasources/" ++ GoString.bytes name)
               remainder _ suffix);
      [| unfold text; now rewrite <- !app_assoc | lengths'].
    reflexivity.
Qed.

Lemma extractDashboard_at pre project dashboard name suffix remainder :
  validName project = true -> validName dashboard = true -> validName name = true ->
  validRest suffix = true -> endsMatch suffix remainder ->
  let text := GoString.bytes "/proxy/projects/" ++ GoString.bytes project
                ++ GoString.bytes "/dashboards/" ++ GoString.bytes dashboard
                ++ GoString.bytes "/datasources/" ++ GoString.bytes name
                ++ GoString.bytes suffix in
  doExecute dashboardProxyMatcher 0 (pre ++ text ++ remainder) =
    matchAt dashboardProxyMatcher (length pre) (text ++ remainder) ->
  extractProjectDashboardDatasourceAndPath (GoString.str (pre ++ text ++ remainder)) =
  if MatchString dashboardProxyMatcher (GoString.str remainder)
  then ("", "", "", "", Some notProperlyFormatted)
  else (project, dashboard, name, forwarded suffix, None).
Proof.
  intros Hp Hd Hn Hs He text Hleft.
  pose proof (matchAt_dashboard_at (length pre) project dashboard name suffix remainder
                Hp Hd Hn Hs He) as Hm.
  cbv zeta in Hm. unfold text in Hleft. rewrite <- !app_assoc in Hleft. rewrite Hm in Hleft.
  unfold extractProjectDashboardDatasourceAndPath, FindAllStringSubmatch. rewrite bytes_str.
  match type of Hleft with _ = Some ?m =>
    pose proof (FindAllIndex_after dashboardProxyMatcher (pre ++ text ++ remainder) pre text
                  remainder m eq_refl dashboard_nonempty eq_refl) as HF
  end.
  unfold text in HF at 2. rewrite <- !app_assoc in HF.
  specialize (HF ltac:(discriminate) Hleft).
  destruct (MatchString dashboardProxyMatcher (GoString.str remainder)).
  - destruct HF as (m2 & rest & ->); [cbn [bounds]; unfold text; f_equal; lengths' | reflexivity].
  - rewrite HF by (cbn [bounds]; unfold text; f_equal; lengths').
    cbn [map length firstMatch nth Nat.ltb Nat.leb Nat.eqb orb andb group].
    rewrite (text_at _ (pre ++ GoString.bytes "/proxy/projects/")
               (GoString.bytes "/dashboards/" ++ GoString.bytes dashboard
                  ++ GoString.bytes "/datasources/" ++ GoString.bytes name
                  ++ GoString.bytes suffix ++ remainder) _ _ project);
      [| unfold text; now rewrite <- !app_assoc | lengths' | lengths'].
    rewrite (text_at _ (pre ++ GoString.bytes "/proxy/projects/" ++ GoString.bytes project
                          ++ GoString.bytes "/dashboards/")
               (GoString.bytes "/datasources/" ++ GoString.bytes name
                  ++ GoString.bytes suffix ++ remainder) _ _ dashboard);
      [| unfold text; now rewrite <- !app_assoc | lengths' | lengths'].
    rewrite (text_at _ (pre ++ GoString.bytes "/proxy/projects/" ++ GoString.bytes project
                          ++ GoString.bytes "/dashboards/" ++ GoString.bytes dashboard
                          ++ GoString.bytes "/datasources/")
               (GoString.bytes suffix ++ remainder) _ _ name);
      [| unfold text; now rewrite <- !app_assoc | lengths' | lengths'].
    rewrite (rest_at _ (pre ++ GoString.bytes "/proxy/projects/" ++ GoString.bytes project
                          ++ GoString.bytes "/dashboards/" ++ GoString.bytes dashboard
                          ++ GoString.bytes "/datasources/" ++ GoString.bytes name)
               remainder _ suffix);
      [| unfold text; now rewrite <- !app_assoc | lengths'].
    reflexivity.
Qed.

(** The exact outcome of the three extraction functions on a path that
    starts with a match of the template: the names, the suffix of the first
    match as forwarded path, and the rest of the path ignored unless it holds
    a second match. *)
Lemma doExecute_start re s m :
  matchAt re 0 s = Some m -> doExecute re 0 ([] ++ s) = matchAt re (length (@nil ascii)) s.
Proof. intros H. simpl. rewrite H. now apply doExecute_here. Qed.

Lemma extract_exact_global name suffix remainder :
  validName name = true -> validRest suffix = true ->
  endsMatch suffix (GoString.bytes remainder) ->
  extractGlobalDatasourceAndPath ("/proxy/globaldatasources/" +:+ name +:+ suffix +:+ remainder) =
  if MatchString globalProxyMatcher remainder
  then ("", "", Some notProperlyFormatted)
  else (name, forwarded suffix, None).
Proof.
  intros Hn Hs He.
  pose proof (extractGlobal_at [] name suffix (GoString.bytes remainder) Hn Hs He) as H.
  cbv zeta in H. rewrite (str_bytes remainder) in H.
  replace ("/proxy/globaldatasources/" +:+ name +:+ suffix +:+ remainder)
    with (GoString.str ([] ++ (GoString.bytes "/proxy/globaldatasources/" ++ GoString.bytes name
                                 ++ GoString.bytes suffix) ++ GoString.bytes remainder)).
  - apply H. eapply doExecute_start. rewrite <- !app_assoc.
    now apply (matchAt_global_at 0).
  - apply bytes_inj. rewrite bytes_str, !bytes_app, app_nil_l. now rewrite <- ?app_assoc.
Qed.

Lemma extract_exact_project project name suffix remainder :
  validName project = true -> validName name = true -> validRest suffix = true ->
  endsMatch suffix (GoString.bytes remainder) ->
  extractProjectDatasourceAndPath
    ("/proxy/projects/" +:+ project +:+ "/datasources/" +:+ name +:+ suffix +:+ remainder) =
  if MatchString projectProxyMatcher remainder
  then ("", "", "", Some notProperlyFormatted)
  else (project, name, forwarded suffix, None).
Proof.
  intros Hp Hn Hs He.
  pose proof (extractProject_at [] project name suffix (GoString.bytes remainder) Hp Hn Hs He) as H.
  cbv zeta in H. rewrite (str_bytes remainder) in H.
  replace ("/proxy/projects/" +:+ project +:+ "/datasources/" +:+ name +:+ suffix +:+ remainder)
    with (GoString.str ([] ++ (GoString.bytes "/proxy/projects/" ++ GoString.bytes project
                                 ++ GoString.bytes "/datasources/" ++ GoString.bytes name
                                 ++ GoString.bytes suffix) ++ GoString.bytes remainder)).
  - apply H. eapply doExecute_start. rewrite <- !app_assoc.
    now apply (matchAt_project_at 0).
  - apply bytes_inj. rewrite bytes_str, !bytes_app, app_nil_l. now rewrite <- ?app_assoc.
Qed.

Lemma extract_exact_dashboard project dashboard name suffix remainder :
  validName project = true -> validName dashboard = true -> validName name = true ->
  validRest suffix = true -> endsMatch suffix (GoString.bytes remainder) ->
  extractProjectDashboardDatasourceAndPath
    ("/proxy/projects/" +:+ project +:+ "/dashboards/" +:+ dashboard +:+ "/datasources/"
       +:+ name +:+ suffix +:+ remainder) =
  if MatchString dashboardProxyMatcher remainder
  then ("", "", "", "", Some notProperlyFormatted)
  else (project, dashboard, name, forwarded suffix, None).
Proof.
  intros Hp Hd Hn Hs He.
  pose proof (extractDashboard_at [] project dashboard name suffix (GoString.bytes remainder)
                Hp Hd Hn Hs He) as H.
  cbv zeta in H. rewrite (str_bytes remainder) in H.
  replace ("/proxy/projects/" +:+ project +:+ "/dashboards/" +:+ dashboard +:+ "/datasources/"
             +:+ name +:+ suffix +:+ remainder)
    with (GoString.str ([] ++ (GoString.bytes "/proxy/projects/" ++ GoString.bytes project
                                 ++ GoString.bytes "/dashboards/" ++ GoString.bytes dashboard
                                 ++ GoString.bytes "/datasources/" ++ GoString.bytes name
                                 ++ GoString.bytes suffix) ++ GoString.bytes remainder)).
  - apply H. eapply doExecute_start. rewrite <- !app_assoc.
    now apply (matchAt_dashboard_at 0).
  - apply bytes_inj. rewrite bytes_str, !bytes_app, app_nil_l. now rewrite <- ?app_assoc.
Qed.

(** X2.  Whenever one of the three extraction functions returns without
    error, the request path holds the template of that function somewhere:
    each name it returns is one or more bytes of the class of letters,
    digits, underscore and hyphen, read at its place in the template, and
    the forwarded path is the suffix of the template, which is empty (then
    the path is a single slash) or a slash followed by bytes other than
    line feed. *)
Theorem extraction_is_sound :
  (forall requestPath dtsName path,
     extractGlobalDatasourceAndPath requestPath = (dtsName, path, None) ->
     exists pre suffix post,
       requestPath = pre +:+ "/proxy/globaldatasources/" +:+ dtsName +:+ suffix +:+ post /\
       validName dtsName = true /\ validRest suffix = true /\ path = forwarded suffix) /\
  (forall requestPath projectName dtsName path,
     extractProjectDatasourceAndPath requestPath = (projectName, dtsName, path, None) ->
     exists pre suffix post,
       requestPath = pre +:+ "/proxy/projects/" +:+ projectName +:+ "/datasources/" +:+ dtsName
                       +:+ suffix +:+ post /\
       validName projectName = true /\ validName dtsName = true /\ validRest suffix = true /\
       path = forwarded suffix) /\
  (forall requestPath projectName dashboardName dtsName path,
     extractProjectDashboardDatasourceAndPath requestPath
       = (projectName, dashboardName, dtsName, path, None) ->
     exists pre suffix post,
       requestPath = pre +:+ "/proxy/projects/" +:+ projectName +:+ "/dashboards/"
                       +:+ dashboardName +:+ "/datasources/" +:+ dtsName +:+ suffix +:+ post /\
       validName projectName = true /\ validName dashboardName = true /\
       validName dtsName = true /\ validRest suffix = true /\ path = forwarded suffix).
Proof.
  split; [|split].
  - exact extractGlobal_sound.
  - exact extractProject_sound.
  - exact extractDashboard_sound.
Qed.

Lemma extraction_is_sound_witness :
  (exists pre suffix post,
     "/api/proxy/globaldatasources/gprom/api/v1/query"
       = pre +:+ "/proxy/globaldatasources/" +:+ "gprom" +:+ suffix +:+ post /\
     validName "gprom" = true /\ validRest suffix = true /\ "/api/v1/query" = forwarded suffix) /\
  (exists pre suffix post,
     "/proxy/projects/p1/datasources/prom1.json"
       = pre +:+ "/proxy/projects/" +:+ "p1" +:+ "/datasources/" +:+ "prom1" +:+ suffix +:+ post /\
     validName "p1" = true /\ validName "prom1" = true /\ validRest suffix = true /\
     "/" = forwarded suffix) /\
  (exists pre suffix post,
     "/proxy/projects/p1/dashboards/d1/datasources/ds-key/api/v1/query"
       = pre +:+ "/proxy/projects/" +:+ "p1" +:+ "/dashboards/" +:+ "d1" +:+ "/datasources/"
           +:+ "ds-key" +:+ suffix +:+ post /\
     validName "p1" = true /\ validName "d1" = true /\ validName "ds-key" = true /\
     validRest suffix = true /\ "/api/v1/query" = forwarded suffix).
Proof.
  destruct extraction_is_sound as (Hg & Hp & Hd). split; [|split].
  - apply (Hg "/api/proxy/globaldatasources/gprom/api/v1/query" "gprom" "/api/v1/query").
    vm_compute. reflexivity.
  - apply (Hp "/proxy/projects/p1/datasources/prom1.json" "p1" "prom1" "/").
    vm_compute. reflexivity.
  - apply (Hd "/proxy/projects/p1/dashboards/d1/datasources/ds-key/api/v1/query"
             "p1" "d1" "ds-key" "/api/v1/query").
    vm_compute. reflexivity.
Defined.

(** X3.  For a path that starts with a template filled with names of
    the class and a suffix, followed by a remainder at which the suffix
    cannot go on (after a non-empty suffix: the end or a line feed; after an
    empty one: the end or a byte that is neither of the class nor a slash):
    the extraction returns these names and the forwarded path of the suffix
    and ignores the remainder, unless the pattern is found again in the
    remainder; then it fails with the 502 error. *)
Theorem extraction_takes_the_first_match :
  (forall name suffix remainder,
     validName name = true -> validRest suffix = true ->
     endsMatch suffix (GoString.bytes remainder) ->
     extractGlobalDatasourceAndPath
       ("/proxy/globaldatasources/" +:+ name +:+ suffix +:+ remainder) =
     if MatchString globalProxyMatcher remainder
     then ("", "", Some notProperlyFormatted)
     else (name, forwarded suffix, None)) /\
  (forall project name suffix remainder,
     validName project = true -> validName name = true -> validRest suffix = true ->
     endsMatch suffix (GoString.bytes remainder) ->
     extractProjectDatasourceAndPath
       ("/proxy/projects/" +:+ project +:+ "/datasources/" +:+ name +:+ suffix +:+ remainder) =
     if MatchString projectProxyMatcher remainder
     then ("", "", "", Some notProperlyFormatted)
     else (project, name, forwarded suffix, None)) /\
  (forall project dashboard name suffix remainder,
     validName project = true -> validName dashboard = true -> validName name = true ->
     validRest suffix = true -> endsMatch suffix (GoString.bytes remainder) ->
     extractProjectDashboardDatasourceAndPath
       ("/proxy/projects/" +:+ project +:+ "/dashboards/" +:+ dashboard +:+ "/datasources/"
          +:+ name +:+ suffix +:+ remainder) =
     if MatchString dashboardProxyMatcher remainder
     then ("", "", "", "", Some notProperlyFormatted)
     else (project, dashboard, name, forwarded suffix, None)).
Proof.
  split; [|split].
  - exact extract_exact_global.
  - exact extract_exact_project.
  - exact extract_exact_dashboard.
Qed.

Lemma extraction_takes_the_first_match_witness :
  extractGlobalDatasourceAndPath ("/proxy/globaldatasources/" +:+ "gprom" +:+ "/api" +:+ LF +:+ "x")
    = ("gprom", "/api", None) /\
  extractGlobalDatasourceAndPath
    ("/proxy/globaldatasources/" +:+ "gprom" +:+ "/api" +:+ LF +:+ "/proxy/globaldatasources/g2")
    = ("", "", Some notProperlyFormatted) /\
  extractProjectDatasourceAndPath
    ("/proxy/projects/" +:+ "p1" +:+ "/datasources/" +:+ "prom1" +:+ "" +:+ ".json")
    = ("p1", "prom1", "/", None) /\
  extractProjectDashboardDatasourceAndPath
    ("/proxy/projects/" +:+ "p1" +:+ "/dashboards/" +:+ "d1" +:+ "/datasources/" +:+ "ds-key"
       +:+ "" +:+ "~/api/v1/query")
    = ("p1", "d1", "ds-key", "/", None).
Proof.
  destruct extraction_takes_the_first_match as (Hg & Hp & Hd). split; [|split; [|split]].
  - exact (Hg "gprom" "/api" (LF +:+ "x") eq_refl eq_refl eq_refl).
  - exact (Hg "gprom" "/api" (LF +:+ "/proxy/globaldatasources/g2") eq_refl eq_refl eq_refl).
  - exact (Hp "p1" "prom1" "" ".json" eq_refl eq_refl eq_refl eq_refl).
  - exact (Hd "p1" "d1" "ds-key" "" "~/api/v1/query" eq_refl eq_refl eq_refl eq_refl eq_refl).
Defined.

(* ===================================================================== *)
(** * Templates inside a path *)
(* ===================================================================== *)

Lemma split_unique (a b x y : list ascii) :
  slashFree a = true -> slashFree b = true ->
  a ++ "/"%char :: x = b ++ "/"%char :: y -> a = b /\ x = y.
Proof.
  revert b. induction a as [|c a IH]; intros [|d b] Ha Hb H; simpl in *.
  - injection H as ->. auto.
  - injection H as <- _. discriminate Hb.
  - injection H as -> _. discriminate Ha.
  - apply andb_true_iff in Ha as [_ Ha]. apply andb_true_iff in Hb as [_ Hb].
    injection H as -> H. destruct (IH b Ha Hb H) as [-> ->]. auto.
Qed.

Lemma validName_slashFree name : validName name = true -> slashFree (GoString.bytes name) = true.
Proof.
  unfold validName, slashFree. intros H. apply andb_true_iff in H as [_ H].
  rewrite forallb_forall in *. intros c Hc. specialize (H c Hc).
  destruct (Ascii.eqb_spec c "/") as [->|]; [discriminate H | reflexivity].
Qed.

Lemma matchAt_prefixed_inv p r pos s m :
  matchAt (prefixed p r) pos s = Some m -> exists t, s = p ++ t.
Proof.
  intros H. assert (Hpos : pos = length (replicate pos " "%char)) by now rewrite length_replicate.
  rewrite Hpos in H. apply matchAt_sound in H as (u & post & -> & HM).
  apply Matches_prefixed_inv in HM as (u' & -> & _). exists (u' ++ post). now rewrite <- app_assoc.
Qed.

Section Leftmost.
Variables (seg0 p : list ascii) (r : Regexp).
Hypothesis seg0_slashFree : slashFree seg0 = true.

Let re := prefixed ("/"%char :: seg0 ++ "/"%char :: p) r.

Lemma matchAt_nonslash pos c s : c <> "/"%char -> matchAt re pos (c :: s) = None.
Proof.
  intros Hc. destruct (matchAt re pos (c :: s)) eqn:E; [|reflexivity].
  apply matchAt_prefixed_inv in E as (t & E). injection E as -> _. congruence.
Qed.

Lemma doExecute_skip_run run : forall pos s,
  slashFree run = true -> doExecute re pos (run ++ s) = doExecute re (pos + length run) s.
Proof.
  induction run as [|c run IH]; intros pos s H; simpl.
  - now rewrite Nat.add_0_r.
  - simpl in H. apply andb_true_iff in H as [Hc H].
    rewrite matchAt_nonslash by (intros ->; discriminate Hc).
    rewrite IH by assumption. f_equal. lia.
Qed.

Lemma matchAt_other_segment pos seg s :
  slashFree seg = true -> (seg <> seg0 \/ forall t, s <> p ++ t) ->
  matchAt re pos ("/"%char :: seg ++ "/"%char :: s) = None.
Proof.
  intros Hseg Hd. destruct (matchAt re pos _) eqn:E; [|reflexivity].
  apply matchAt_prefixed_inv in E as (t & E). injection E as E.
  rewrite <- app_assoc in E. simpl in E.
  apply split_unique in E as [-> ->]; [|assumption..].
  destruct Hd as [Hd|Hd]; [congruence | now destruct (Hd t)].
Qed.

Lemma doExecute_skip_segment pos seg s :
  slashFree seg = true -> (seg <> seg0 \/ forall t, s <> p ++ t) ->
  doExecute re pos ("/"%char :: seg ++ "/"%char :: s) =
  doExecute re (pos + 1 + length seg) ("/"%char :: s).
Proof.
  intros Hseg Hd.
  change (doExecute re pos ("/"%char :: seg ++ "/"%char :: s))
    with (match matchAt re pos ("/"%char :: seg ++ "/"%char :: s) with
          | Some m => Some m
          | None => doExecute re (S pos) (seg ++ "/"%char :: s)
          end).
  rewrite matchAt_other_segment, doExecute_skip_run by assumption. f_equal. lia.
Qed.
End Leftmost.

Lemma globalProxyMatcher_segments :
  globalProxyMatcher =
  prefixed ("/"%char :: GoString.bytes "proxy" ++ "/"%char :: GoString.bytes "globaldatasources/")
    (Concat (Capture 1 (Plus nameClass)) (restGroup 2)).
Proof. reflexivity. Qed.

Lemma projectProxyMatcher_segments :
  projectProxyMatcher =
  prefixed ("/"%char :: GoString.bytes "proxy" ++ "/"%char :: GoString.bytes "projects/")
    (Concat (Capture 1 (Plus nameClass))
       (prefixed (GoString.bytes "/datasources/")
          (Concat (Capture 2 (Plus nameClass)) (restGroup 3)))).
Proof. reflexivity. Qed.

Ltac differs := right; intros t Ht; simpl in Ht; discriminate Ht.

(** One step of the search: over the segment [seg] that follows a slash. *)
Ltac skip seg :=
  match goal with
  | Hskip : forall pos seg s, _ |- doExecute _ ?pos _ = _ =>
      rewrite (Hskip pos seg);
      [ | first [reflexivity | assumption] | first [left; discriminate | differs] ]
  end.

(** In a path of the project template, the search for the global pattern
    finds nothing before the suffix. *)
Lemma global_search_in_project project name tail :
  validName project = true -> validName name = true ->
  doExecute globalProxyMatcher 0
    (GoString.bytes "/proxy/projects/" ++ GoString.bytes project
       ++ GoString.bytes "/datasources/" ++ GoString.bytes name
       ++ "/"%char :: GoString.bytes "proxy/globaldatasources/" ++ tail) =
  doExecute globalProxyMatcher (16 + String.length project + 13 + String.length name)
    ("/"%char :: GoString.bytes "proxy/globaldatasources/" ++ tail).
Proof.
  intros Hp Hn. apply validName_slashFree in Hp, Hn.
  rewrite globalProxyMatcher_segments.
  change (GoString.bytes "/proxy/projects/" ++ GoString.bytes project
            ++ GoString.bytes "/datasources/" ++ GoString.bytes name
            ++ "/"%char :: GoString.bytes "proxy/globaldatasources/" ++ tail)
    with ("/"%char :: GoString.bytes "proxy" ++ "/"%char :: GoString.bytes "projects"
            ++ "/"%char :: GoString.bytes project ++ "/"%char :: GoString.bytes "datasources"
            ++ "/"%char :: GoString.bytes name
            ++ "/"%char :: GoString.bytes "proxy/globaldatasources/" ++ tail).
  pose proof (doExecute_skip_segment (GoString.bytes "proxy")
                (GoString.bytes "globaldatasources/")
                (Concat (Capture 1 (Plus nameClass)) (restGroup 2)) eq_refl) as Hskip.
  skip (GoString.bytes "proxy"). skip (GoString.bytes "projects").
  skip (GoString.bytes project). skip (GoString.bytes "datasources").
  skip (GoString.bytes name).
  match goal with
  | |- doExecute _ ?a _ = doExecute _ ?b _ => replace a with b; [reflexivity|]
  end.
  rewrite !bytes_length. simpl. lia.
Qed.

Lemma global_search_in_dashboard project dashboard name tail :
  validName project = true -> validName dashboard = true -> validName name = true ->
  doExecute globalProxyMatcher 0
    (GoString.bytes "/proxy/projects/" ++ GoString.bytes project
       ++ GoString.bytes "/dashboards/" ++ GoString.bytes dashboard
       ++ GoString.bytes "/datasources/" ++ GoString.bytes name
       ++ "/"%char :: GoString.bytes "proxy/globaldatasources/" ++ tail) =
  doExecute globalProxyMatcher
    (16 + String.length project + 12 + String.length dashboard + 13 + String.length name)
    ("/"%char :: GoString.bytes "proxy/globaldatasources/" ++ tail).
Proof.
  intros Hp Hd Hn. apply validName_slashFree in Hp, Hd, Hn.
  rewrite globalProxyMatcher_segments.
  change (GoString.bytes "/proxy/projects/" ++ GoString.bytes project
            ++ GoString.bytes "/dashboards/" ++ GoString.bytes dashboard
            ++ GoString.bytes "/datasources/" ++ GoString.bytes name
            ++ "/"%char :: GoString.bytes "proxy/globaldatasources/" ++ tail)
    with ("/"%char :: GoString.bytes "proxy" ++ "/"%char :: GoString.bytes "projects"
            ++ "/"%char :: GoString.bytes project ++ "/"%char :: GoString.bytes "dashboards"
            ++ "/"%char :: GoString.bytes dashboard ++ "/"%char :: GoString.bytes "datasources"
            ++ "/"%char :: GoString.bytes name
            ++ "/"%char :: GoString.bytes "proxy/globaldatasources/" ++ tail).
  pose proof (doExecute_skip_segment (GoString.bytes "proxy")
                (GoString.bytes "globaldatasources/")
                (Concat (Capture 1 (Plus nameClass)) (restGroup 2)) eq_refl) as Hskip.
  skip (GoString.bytes "proxy"). skip (GoString.bytes "projects").
  skip (GoString.bytes project). skip (GoString.bytes "dashboards").
  skip (GoString.bytes dashboard). skip (GoString.bytes "datasources").
  skip (GoString.bytes name).
  match goal with
  | |- doExecute _ ?a _ = doExecute _ ?b _ => replace a with b; [reflexivity|]
  end.
  rewrite !bytes_length. simpl. lia.
Qed.

(** At the start of a path of the dashboard template the project pattern
    does not match: after the project comes "/dashboards/". *)
Lemma matchAt_project_dashboards pos project s :
  validName project = true ->
  matchAt projectProxyMatcher pos
    (GoString.bytes "/proxy/projects/" ++ GoString.bytes project
       ++ GoString.bytes "/dashboards/" ++ s) = None.
Proof.
  intros Hp. destruct (matchAt projectProxyMatcher pos _) as [m|] eqn:E; [|reflexivity].
  exfalso.
  assert (Hpos : pos = length (replicate pos " "%char)) by now rewrite length_replicate.
  rewrite Hpos in E. apply matchAt_sound in E as (u & post & E & HM).
  rewrite projectProxyMatcher_shape in HM.
  apply Matches_prefixed_inv in HM as (u' & -> & HM).
  rewrite <- app_assoc in E. apply app_inv_head in E.
  apply Matches_Concat_inv in HM as (u1 & u2 & -> & H1 & H2).
  apply Matches_name in H1. apply validName_slashFree in H1, Hp. rewrite bytes_str in H1.
  apply Matches_prefixed_inv in H2 as (u3 & -> & _).
  rewrite <- !app_assoc in E. simpl in E.
  apply split_unique in E as [_ E]; [discriminate E | assumption..].
Qed.

Lemma project_search_in_dashboard project dashboard name tail :
  validName project = true -> validName dashboard = true -> validName name = true ->
  doExecute projectProxyMatcher 0
    (GoString.bytes "/proxy/projects/" ++ GoString.bytes project
       ++ GoString.bytes "/dashboards/" ++ GoString.bytes dashboard
       ++ GoString.bytes "/datasources/" ++ GoString.bytes name
       ++ "/"%char :: GoString.bytes "proxy/projects/" ++ tail) =
  doExecute projectProxyMatcher
    (16 + String.length project + 12 + String.length dashboard + 13 + String.length name)
    ("/"%char :: GoString.bytes "proxy/projects/" ++ tail).
Proof.
  intros Hp Hd Hn.
  pose proof (matchAt_project_dashboards 0 project
                (GoString.bytes dashboard ++ GoString.bytes "/datasources/" ++ GoString.bytes name
                   ++ "/"%char :: GoString.bytes "proxy/projects/" ++ tail) Hp) as H0.
  apply validName_slashFree in Hp, Hd, Hn.
  set (whole := GoString.bytes "/proxy/projects/" ++ _) in *.
  assert (Hw : whole =
               "/"%char :: GoString.bytes "proxy" ++ "/"%char :: GoString.bytes "projects"
                 ++ "/"%char :: GoString.bytes project ++ "/"%char :: GoString.bytes "dashboards"
                 ++ "/"%char :: GoString.bytes dashboard ++ "/"%char :: GoString.bytes "datasources"
                 ++ "/"%char :: GoString.bytes name
                 ++ "/"%char :: GoString.bytes "proxy/projects/" ++ tail) by reflexivity.
  rewrite Hw in H0 |- *. clearbody whole. clear Hw.
  match goal with
  | |- doExecute ?re 0 ("/"%char :: ?rest) = _ =>
      change (doExecute re 0 ("/"%char :: rest))
        with (match matchAt re 0 ("/"%char :: rest) with
              | Some m => Some m
              | None => doExecute re 1 rest
              end)
  end.
  rewrite H0. clear H0.
  rewrite projectProxyMatcher_segments.
  rewrite (doExecute_skip_run (GoString.bytes "proxy") (GoString.bytes "projects/")
             _ (GoString.bytes "proxy")) by reflexivity.
  pose proof (doExecute_skip_segment (GoString.bytes "proxy") (GoString.bytes "projects/")
                (Concat (Capture 1 (Plus nameClass))
                   (prefixed (GoString.bytes "/datasources/")
                      (Concat (Capture 2 (Plus nameClass)) (restGroup 3)))) eq_refl) as Hskip.
  skip (GoString.bytes "projects").
  skip (GoString.bytes project). skip (GoString.bytes "dashboards").
  skip (GoString.bytes dashboard). skip (GoString.bytes "datasources").
  skip (GoString.bytes name).
  match goal with
  | |- doExecute _ ?a _ = doExecute _ ?b _ => replace a with b; [reflexivity|]
  end.
  rewrite !bytes_length. simpl. lia.
Qed.

Lemma validName_notNL name : validName name = true -> forallb notNL (GoString.bytes name) = true.
Proof.
  unfold validName. intros H. apply andb_true_iff in H as [_ H].
  rewrite forallb_forall in *. intros c Hc. specialize (H c Hc).
  unfold notNL. destruct (Ascii.eqb_spec c newline) as [->|]; [discriminate H | reflexivity].
Qed.

Lemma validRest_notNL suffix :
  validRest suffix = true -> forallb notNL (GoString.bytes suffix) = true.
Proof.
  intros H. apply validRest_cases in H as [->|(tail & -> & H)]; [reflexivity|].
  simpl. now rewrite H.
Qed.

(** A template instance below a slash is a valid suffix. *)
Lemma validRest_nested (fixed name suffix : string) :
  forallb notNL (GoString.bytes fixed) = true ->
  validName name = true -> validRest suffix = true ->
  validRest ("/" +:+ fixed +:+ name +:+ suffix) = true.
Proof.
  intros Hf Hn Hs. unfold validRest. rewrite !bytes_app. simpl.
  rewrite !forallb_app, Hf, (validName_notNL _ Hn), (validRest_notNL _ Hs). reflexivity.
Qed.

Lemma MatchString_doExecute re s m : doExecute re 0 (GoString.bytes s) = Some m -> MatchString re s = true.
Proof. unfold MatchString. now intros ->. Qed.

Lemma global_in_project project name g suffix :
  validName project = true -> validName name = true -> validName g = true ->
  validRest suffix = true ->
  let path := "/proxy/projects/" +:+ project +:+ "/datasources/" +:+ name
              +:+ "/proxy/globaldatasources/" +:+ g +:+ suffix in
  extractProjectDatasourceAndPath path =
    (project, name, "/proxy/globaldatasources/" +:+ g +:+ suffix, None) /\
  MatchString globalProxyMatcher path = true /\
  extractGlobalDatasourceAndPath path = (g, forwarded suffix, None).
Proof.
  intros Hp Hn Hg Hs path.
  assert (Hnested : validRest ("/proxy/globaldatasources/" +:+ g +:+ suffix) = true)
    by (apply (validRest_nested "proxy/globaldatasources/"); auto).
  split; [exact (extractProject_wellformed project name _ Hp Hn Hnested)|].
  set (pre := GoString.bytes "/proxy/projects/" ++ GoString.bytes project
                ++ GoString.bytes "/datasources/" ++ GoString.bytes name).
  set (text := GoString.bytes "/proxy/globaldatasources/" ++ GoString.bytes g
                 ++ GoString.bytes suffix).
  assert (Hpath : GoString.bytes path = pre ++ text ++ []).
  { unfold path, pre, text. rewrite !bytes_app, app_nil_r. now rewrite <- !app_assoc. }
  assert (Hm : matchAt globalProxyMatcher (length pre) (text ++ []) =
               Some [Some (length pre, (length pre + 25 + String.length g
                                          + String.length suffix)%nat);
                     Some ((length pre + 25)%nat, (length pre + 25 + String.length g)%nat);
                     restRegister (length pre + 25 + String.length g) suffix]).
  { unfold text. rewrite <- !app_assoc.
    apply (matchAt_global_at (length pre) g suffix []); auto.
    unfold endsMatch. now destruct (GoString.nonEmpty suffix). }
  assert (Hleft : doExecute globalProxyMatcher 0 (pre ++ text ++ []) =
                  matchAt globalProxyMatcher (length pre) (text ++ [])).
  { transitivity (doExecute globalProxyMatcher (length pre) (text ++ []));
      [|rewrite Hm; now apply doExecute_here].
    unfold pre, text. rewrite <- !app_assoc.
    change (GoString.bytes "/proxy/globaldatasources/" ++ ?t)
      with ("/"%char :: GoString.bytes "proxy/globaldatasources/" ++ t).
    rewrite global_search_in_project by assumption.
    match goal with
    | |- doExecute _ ?a _ = doExecute _ ?b _ => replace a with b; [reflexivity|]
    end.
    rewrite !length_app, !bytes_length. simpl. lia. }
  split.
  - apply (MatchString_doExecute _ _ _ (eq_trans (f_equal _ Hpath) (eq_trans Hleft Hm))).
  - rewrite <- (str_bytes path), Hpath.
    apply (extractGlobal_at pre g suffix [] Hg Hs); [|exact Hleft].
    unfold endsMatch. now destruct (GoString.nonEmpty suffix).
Qed.

Lemma global_in_dashboard project dashboard name g suffix :
  validName project = true -> validName dashboard = true -> validName name = true ->
  validName g = true -> validRest suffix = true ->
  let path := "/proxy/projects/" +:+ project +:+ "/dashboards/" +:+ dashboard
              +:+ "/datasources/" +:+ name +:+ "/proxy/globaldatasources/" +:+ g +:+ suffix in
  extractProjectDashboardDatasourceAndPath path =
    (project, dashboard, name, "/proxy/globaldatasources/" +:+ g +:+ suffix, None) /\
  MatchString globalProxyMatcher path = true /\
  extractGlobalDatasourceAndPath path = (g, forwarded suffix, None).
Proof.
  intros Hp Hd Hn Hg Hs path.
  assert (Hnested : validRest ("/proxy/globaldatasources/" +:+ g +:+ suffix) = true)
    by (apply (validRest_nested "proxy/globaldatasources/"); auto).
  split; [exact (extractDashboard_wellformed project dashboard name _ Hp Hd Hn Hnested)|].
  set (pre := GoString.bytes "/proxy/projects/" ++ GoString.bytes project
                ++ GoString.bytes "/dashboards/" ++ GoString.bytes dashboard
                ++ GoString.bytes "/datasources/" ++ GoString.bytes name).
  set (text := GoString.bytes "/proxy/globaldatasources/" ++ GoString.bytes g
                 ++ GoString.bytes suffix).
  assert (Hpath : GoString.bytes path = pre ++ text ++ []).
  { unfold path, pre, text. rewrite !bytes_app, app_nil_r. now rewrite <- !app_assoc. }
  assert (Hm : matchAt globalProxyMatcher (length pre) (text ++ []) =
               Some [Some (length pre, (length pre + 25 + String.length g
                                          + String.length suffix)%nat);
                     Some ((length pre + 25)%nat, (length pre + 25 + String.length g)%nat);
                     restRegister (length pre + 25 + String.length g) suffix]).
  { unfold text. rewrite <- !app_assoc.
    apply (matchAt_global_at (length pre) g suffix []); auto.
    unfold endsMatch. now destruct (GoString.nonEmpty suffix). }
  assert (Hleft : doExecute globalProxyMatcher 0 (pre ++ text ++ []) =
                  matchAt globalProxyMatcher (length pre) (text ++ [])).
  { transitivity (doExecute globalProxyMatcher (length pre) (text ++ []));
      [|rewrite Hm; now apply doExecute_here].
    unfold pre, text. rewrite <- !app_assoc.
    change (GoString.bytes "/proxy/globaldatasources/" ++ ?t)
      with ("/"%char :: GoString.bytes "proxy/globaldatasources/" ++ t).
    rewrite global_search_in_dashboard by assumption.
    match goal with
    | |- doExecute _ ?a _ = doExecute _ ?b _ => replace a with b; [reflexivity|]
    end.
    rewrite !length_app, !bytes_length. simpl. lia. }
  split.
  - apply (MatchString_doExecute _ _ _ (eq_trans (f_equal _ Hpath) (eq_trans Hleft Hm))).
  - rewrite <- (str_bytes path), Hpath.
    apply (extractGlobal_at pre g suffix [] Hg Hs); [|exact Hleft].
    unfold endsMatch. now destruct (GoString.nonEmpty suffix).
Qed.

Lemma project_in_dashboard project dashboard name project2 name2 suffix :
  validName project = true -> validName dashboard = true -> validName name = true ->
  validName project2 = true -> validName name2 = true -> validRest suffix = true ->
  let path := "/proxy/projects/" +:+ project +:+ "/dashboards/" +:+ dashboard
              +:+ "/datasources/" +:+ name
              +:+ "/proxy/projects/" +:+ project2 +:+ "/datasources/" +:+ name2 +:+ suffix in
  extractProjectDashboardDatasourceAndPath path =
    (project, dashboard, name,
     "/proxy/projects/" +:+ project2 +:+ "/datasources/" +:+ name2 +:+ suffix, None) /\
  MatchString projectProxyMatcher path = true /\
  extractProjectDatasourceAndPath path = (project2, name2, forwarded suffix, None).
Proof.
  intros Hp Hd Hn Hp2 Hn2 Hs path.
  assert (Hnested : validRest ("/proxy/projects/" +:+ project2 +:+ "/datasources/"
                                 +:+ name2 +:+ suffix) = true).
  { apply (validRest_nested "proxy/projects/"); auto.
    apply (validRest_nested "datasources/"); auto. }
  split; [exact (extractDashboard_wellformed project dashboard name _ Hp Hd Hn Hnested)|].
  set (pre := GoString.bytes "/proxy/projects/" ++ GoString.bytes project
                ++ GoString.bytes "/dashboards/" ++ GoString.bytes dashboard
                ++ GoString.bytes "/datasources/" ++ GoString.bytes name).
  set (text := GoString.bytes "/proxy/projects/" ++ GoString.bytes project2
                 ++ GoString.bytes "/datasources/" ++ GoString.bytes name2
                 ++ GoString.bytes suffix).
  assert (Hpath : GoString.bytes path = pre ++ text ++ []).
  { unfold path, pre, text. rewrite !bytes_app, app_nil_r. now rewrite <- !app_assoc. }
  assert (Hm : matchAt projectProxyMatcher (length pre) (text ++ []) =
               Some [Some (length pre, (length pre + 16 + String.length project2 + 13
                                          + String.length name2 + String.length suffix)%nat);
                     Some ((length pre + 16)%nat, (length pre + 16 + String.length project2)%nat);
                     Some ((length pre + 16 + String.length project2 + 13)%nat,
                           (length pre + 16 + String.length project2 + 13
                              + String.length name2)%nat);
                     restRegister (length pre + 16 + String.length project2 + 13
                                     + String.length name2) suffix]).
  { unfold text. rewrite <- !app_assoc.
    apply (matchAt_project_at (length pre) project2 name2 suffix []); auto.
    unfold endsMatch. now destruct (GoString.nonEmpty suffix). }
  assert (Hleft : doExecute projectProxyMatcher 0 (pre ++ text ++ []) =
                  matchAt projectProxyMatcher (length pre) (text ++ [])).
  { transitivity (doExecute projectProxyMatcher (length pre) (text ++ []));
      [|rewrite Hm; now apply doExecute_here].
    unfold pre, text. rewrite <- !app_assoc.
    change (GoString.bytes "/proxy/projects/" ++ GoString.bytes project2 ++ ?t)
      with ("/"%char :: GoString.bytes "proxy/projects/" ++ GoString.bytes project2 ++ t).
    rewrite project_search_in_dashboard by assumption.
    match goal with
    | |- doExecute _ ?a _ = doExecute _ ?b _ => replace a with b; [reflexivity|]
    end.
    rewrite !length_app, !bytes_length. simpl. lia. }
  split.
  - apply (MatchString_doExecute _ _ _ (eq_trans (f_equal _ Hpath) (eq_trans Hleft Hm))).
  - rewrite <- (str_bytes path), Hpath.
    apply (extractProject_at pre project2 name2 suffix [] Hp2 Hn2 Hs); [|exact Hleft].
    unfold endsMatch. now destruct (GoString.nonEmpty suffix).
Qed.

(* ===================================================================== *)
(** * The request that is served *)
(* ===================================================================== *)

Lemma withRequest_same w : withRequest w (request w) = w.
Proof. now destruct w. Qed.

Lemma setupAuthentication_authenticated h w :
  setupAuthentication h w =
  (Ret (snd (authenticated h (request w))), withRequest w (fst (authenticated h (request w)))).
Proof.
  unfold setupAuthentication, authenticated.
  destruct (secret_ h) as [scrt|]; [|simpl; now rewrite withRequest_same].
  destruct (v1.BasicAuth scrt) as [basicAuth|], (v1.Authorization scrt) as [auth|];
    try destruct (secret.GetPassword basicAuth) as [password [err|]];
    try destruct (secret.GetCredentials auth) as [credential [err'|]];
    unfold bind, ret, getRequest, setRequest; simpl; rewrite ?withRequest_same; reflexivity.
Qed.

Lemma bind_set {B} (f : http.Request -> http.Request) (k : M B) w :
  (let* req := getRequest in (setRequest (f req) ;; k)) w = k (withRequest w (f (request w))).
Proof. reflexivity. Qed.

Lemma bind_set_if {B} (c : http.Request -> bool) (f : http.Request -> http.Request) (k : M B) w :
  (let* req := getRequest in ((if c req then setRequest (f req) else ret tt) ;; k)) w =
  k (withRequest w (if c (request w) then f (request w) else request w)).
Proof.
  unfold bind, getRequest. destruct (c (request w)); simpl; [reflexivity|].
  now rewrite withRequest_same.
Qed.

Lemma prepareRequest_forwardedRequest rt h w :
  prepareRequest rt h w =
  setupAuthentication h (withRequest w (forwardedRequest rt h (request w))).
Proof.
  unfold prepareRequest.
  rewrite (bind_set (fun req => http.withHost req (url.Host (datasourceHTTP.URL (config h))))).
  rewrite (bind_set_if
             (fun req => (String.length (http.Header_Get (http.Header_ req) echo.HeaderXRealIP)
                            =? 0)%nat)
             (fun req => http.withHeader req
                           (http.Header_Set (http.Header_ req) echo.HeaderXRealIP (RealIP rt req)))).
  rewrite (bind_set_if
             (fun req => (String.length
                            (http.Header_Get (http.Header_ req) echo.HeaderXForwardedProto)
                            =? 0)%nat)
             (fun req => http.withHeader req
                           (http.Header_Set (http.Header_ req) echo.HeaderXForwardedProto
                              (Scheme rt req)))).
  rewrite (bind_set_if
             (fun _ => (0 <? length (datasourceHTTP.Headers (config h)))%nat)
             (fun req => http.withHeader req
                           (setHeaders (datasourceHTTP.Headers (config h)) (http.Header_ req)))).
  reflexivity.
Qed.

Lemma serve_run rt h w :
  serve rt h w =
  if (0 <? length (datasourceHTTP.AllowedEndpoints (config h)))%nat
     && negb (isAllowed h (request w))
  then (Ret (Some (notAllowed rt h (request w))), w)
  else
    let req1 := fst (authenticated h (forwardedRequest rt h (request w))) in
    match snd (authenticated h (forwardedRequest rt h (request w))) with
    | Some _ => (Ret (Some (HTTPError 500 "Internal Server Error")), withRequest w req1)
    | None =>
        let req2 := http.withPath req1 (path h) in
        match prepareTransport rt h with
        | (_, Some transportErr) => (Ret (Some transportErr), withRequest w req2)
        | (Some transport, None) =>
            (ServeHTTP rt (datasourceHTTP.URL (config h)) transport req2,
             {| request := req2;
                trace := trace w
                         ++ [ReverseProxy_ServeHTTP (datasourceHTTP.URL (config h)) transport req2] |})
        | (None, None) => (Panic nilPointer, withRequest w req2)
        end
    end.
Proof.
  unfold serve. unfold bind at 1. unfold getRequest at 1.
  destruct (_ && _); [reflexivity|].
  unfold bind at 1. rewrite prepareRequest_forwardedRequest, setupAuthentication_authenticated.
  change (request (withRequest w ?r)) with r.
  destruct (authenticated h (forwardedRequest rt h (request w))) as [req1 [err|]]; [reflexivity|].
  cbn [fst snd].
  unfold bind at 1. unfold getRequest at 1. unfold bind at 1. cbn [setRequest withRequest request].
  destruct (prepareTransport rt h) as [[transport|] [terr|]]; reflexivity.
Qed.

Lemma prepareTransport_built rt h :
  (exists transport, prepareTransport rt h = (Some transport, None) /\
                     http.TLSClientConfig transport = fst (prepareTLSConfig rt h) /\
                     snd (prepareTLSConfig rt h) = None) \/
  (prepareTransport rt h = (None, Some (HTTPError 502 "unable build the tls config")) /\
   exists err, snd (prepareTLSConfig rt h) = Some err).
Proof.
  unfold prepareTransport. destruct (prepareTLSConfig rt h) as [tlsConfig [err|]].
  - right. eauto.
  - left. eexists. split; [reflexivity|]. auto.
Qed.

(** ** Headers *)

Lemma Header_Set_other hd k v key :
  key <> textproto.CanonicalMIMEHeaderKey k -> http.Header_Set hd k v !! key = hd !! key.
Proof. intros H. unfold http.Header_Set. now rewrite lookup_insert_ne. Qed.

Lemma Header_Set_same hd k v :
  http.Header_Set hd k v !! textproto.CanonicalMIMEHeaderKey k = Some [v].
Proof. unfold http.Header_Set. now rewrite lookup_insert_eq. Qed.

Lemma setHeaders_other hs : forall hd key,
  key ∉ map (fun kv => textproto.CanonicalMIMEHeaderKey (fst kv)) hs ->
  setHeaders hs hd !! key = hd !! key.
Proof.
  induction hs as [|[k v] hs IH]; intros hd key H; simpl; [reflexivity|].
  simpl in H. apply not_elem_of_cons in H as [Hk H].
  rewrite IH by assumption. now apply Header_Set_other.
Qed.

Lemma setHeaders_set hs : forall hd k v,
  NoDup (map (fun kv => textproto.CanonicalMIMEHeaderKey (fst kv)) hs) ->
  (k, v) ∈ hs ->
  setHeaders hs hd !! textproto.CanonicalMIMEHeaderKey k = Some [v].
Proof.
  induction hs as [|[k0 v0] hs IH]; intros hd k v Hnd Hin; [now apply elem_of_nil in Hin|].
  simpl in *. apply NoDup_cons in Hnd as [Hk0 Hnd].
  apply elem_of_cons in Hin as [[= -> ->] | Hin].
  - rewrite setHeaders_other by assumption. apply Header_Set_same.
  - now apply IH.
Qed.

Lemma setHeaders_app hs1 hs2 hd : setHeaders (hs1 ++ hs2) hd = setHeaders hs2 (setHeaders hs1 hd).
Proof. revert hd. induction hs1 as [|[k v] hs1 IH]; intros hd; simpl; [reflexivity | apply IH]. Qed.

Lemma Header_Set_comm hd k1 v1 k2 v2 :
  textproto.CanonicalMIMEHeaderKey k1 <> textproto.CanonicalMIMEHeaderKey k2 ->
  http.Header_Set (http.Header_Set hd k1 v1) k2 v2 = http.Header_Set (http.Header_Set hd k2 v2) k1 v1.
Proof. intros H. unfold http.Header_Set. now apply insert_insert_ne. Qed.

Lemma setHeaders_permutation hs hs' :
  Permutation hs hs' ->
  NoDup (map (fun kv => textproto.CanonicalMIMEHeaderKey (fst kv)) hs) ->
  forall hd, setHeaders hs hd = setHeaders hs' hd.
Proof.
  induction 1 as [| [k v] l l' _ IH | [k1 v1] [k2 v2] l | l l' l'' H1 IH1 H2 IH2]; intros Hnd hd.
  - reflexivity.
  - simpl in *. apply NoDup_cons in Hnd as [_ Hnd]. now apply IH.
  - simpl in *. apply NoDup_cons in Hnd as [Hne _].
    apply not_elem_of_cons in Hne as [Hne _]. f_equal. now apply Header_Set_comm.
  - rewrite IH1 by assumption. apply IH2.
    assert (Hp : map (fun kv : string * string => textproto.CanonicalMIMEHeaderKey (fst kv)) l
                 ≡ₚ map (fun kv => textproto.CanonicalMIMEHeaderKey (fst kv)) l')
      by now apply Permutation_map.
    now rewrite <- Hp.
Qed.

(** ** What each step does to the parts of the request *)

Lemma withRealIP_fields rt req :
  http.Method (withRealIP rt req) = http.Method req /\
  http.URL (withRealIP rt req) = http.URL req /\
  http.Host (withRealIP rt req) = http.Host req.
Proof. unfold withRealIP. now destruct (_ =? _)%nat. Qed.

Lemma withForwardedProto_fields rt req :
  http.Method (withForwardedProto rt req) = http.Method req /\
  http.URL (withForwardedProto rt req) = http.URL req /\
  http.Host (withForwardedProto rt req) = http.Host req.
Proof. unfold withForwardedProto. now destruct (_ =? _)%nat. Qed.

Lemma withConfigHeaders_fields h req :
  http.Method (withConfigHeaders h req) = http.Method req /\
  http.URL (withConfigHeaders h req) = http.URL req /\
  http.Host (withConfigHeaders h req) = http.Host req.
Proof. unfold withConfigHeaders. now destruct (_ <? _)%nat. Qed.

Lemma forwardedRequest_fields rt h req :
  http.Method (forwardedRequest rt h req) = http.Method req /\
  http.URL (forwardedRequest rt h req) = http.URL req /\
  http.Host (forwardedRequest rt h req) = url.Host (datasourceHTTP.URL (config h)).
Proof.
  unfold forwardedRequest.
  destruct (withConfigHeaders_fields h
              (withForwardedProto rt
                 (withRealIP rt (http.withHost req (url.Host (datasourceHTTP.URL (config h)))))))
    as (-> & -> & ->).
  destruct (withForwardedProto_fields rt
              (withRealIP rt (http.withHost req (url.Host (datasourceHTTP.URL (config h))))))
    as (-> & -> & ->).
  destruct (withRealIP_fields rt (http.withHost req (url.Host (datasourceHTTP.URL (config h)))))
    as (-> & -> & ->).
  auto.
Qed.

Lemma authenticated_fields h req :
  http.Method (fst (authenticated h req)) = http.Method req /\
  http.URL (fst (authenticated h req)) = http.URL req /\
  http.Host (fst (authenticated h req)) = http.Host req.
Proof.
  unfold authenticated. destruct (secret_ h) as [scrt|]; [|auto].
  destruct (v1.BasicAuth scrt) as [basicAuth|], (v1.Authorization scrt) as [auth|];
    try destruct (secret.GetPassword basicAuth) as [password [err|]];
    try destruct (secret.GetCredentials auth) as [credential [err'|]]; auto.
Qed.

Lemma newEvents_withRequest {A} (m : M A) w r req :
  m w = (r, withRequest w req) -> newEvents m w = [].
Proof. intros H. unfold newEvents. rewrite H. simpl. apply drop_all. Qed.

Lemma newEvents_one {A} (m : M A) w r req ev :
  m w = (r, {| request := req; trace := trace w ++ [ev] |}) -> newEvents m w = [ev].
Proof. intros H. unfold newEvents. rewrite H. simpl. apply drop_app_length. Qed.

(** The four ways [serve] can go. *)
Lemma serve_cases rt h w :
  let gate := (0 <? length (datasourceHTTP.AllowedEndpoints (config h)))%nat
              && negb (isAllowed h (request w)) in
  let auth := authenticated h (forwardedRequest rt h (request w)) in
  let req2 := http.withPath (fst auth) (path h) in
  (gate = true /\ serve rt h w = (Ret (Some (notAllowed rt h (request w))), w)) \/
  (gate = false /\ (exists err, snd auth = Some err) /\
   serve rt h w = (Ret (Some (HTTPError 500 "Internal Server Error")), withRequest w (fst auth))) \/
  (gate = false /\ snd auth = None /\ (exists err, snd (prepareTLSConfig rt h) = Some err) /\
   serve rt h w = (Ret (Some (HTTPError 502 "unable build the tls config")), withRequest w req2)) \/
  (gate = false /\ snd auth = None /\
   exists transport,
     prepareTransport rt h = (Some transport, None) /\
     serve rt h w =
     (ServeHTTP rt (datasourceHTTP.URL (config h)) transport req2,
      {| request := req2;
         trace := trace w
                  ++ [ReverseProxy_ServeHTTP (datasourceHTTP.URL (config h)) transport req2] |})).
Proof.
  intros gate auth req2. rewrite serve_run. fold gate. fold auth.
  destruct gate; [left; auto|]. right.
  destruct (snd auth) as [err|] eqn:Ha; [left; eauto|]. right.
  destruct (prepareTransport_built rt h) as [(transport & Ht & _ & _) | (Ht & Herr)]; rewrite Ht.
  - right. eauto 7.
  - left. auto.
Qed.

Lemma not_in_nil (ev : Event) : ev ∈ @nil Event -> False.
Proof. apply not_elem_of_nil. Qed.

(** The transport of a call of the reverse proxy is the one
    [prepareTransport] has built, around the TLS configuration of
    [prepareTLSConfig]. *)
Lemma serve_dispatched_transport rt h w target transport req :
  ReverseProxy_ServeHTTP target transport req ∈ newEvents (serve rt h) w ->
  prepareTransport rt h = (Some transport, None) /\
  prepareTLSConfig rt h = (http.TLSClientConfig transport, None).
Proof.
  intros Hin.
  destruct (serve_cases rt h w)
    as [[_ E] | [(_ & _ & E) | [(_ & _ & _ & E) | (Hg & Ha & tr & Ht & E)]]].
  - rewrite (newEvents_unchanged _ _ _ E) in Hin. now apply not_in_nil in Hin.
  - rewrite (newEvents_withRequest _ _ _ _ E) in Hin. now apply not_in_nil in Hin.
  - rewrite (newEvents_withRequest _ _ _ _ E) in Hin. now apply not_in_nil in Hin.
  - rewrite (newEvents_one _ _ _ _ _ E) in Hin.
    apply list_elem_of_singleton in Hin. injection Hin as -> -> ->.
    split; [exact Ht|].
    destruct (prepareTransport_built rt h) as [(tr' & Ht' & Hc & He) | (Ht' & _)];
      rewrite Ht in Ht'; [|discriminate].
    injection Ht' as <-. destruct (prepareTLSConfig rt h) as [c e]. simpl in Hc, He. now subst.
Qed.

(** C10.  Without a secret the TLS configuration is [MinVersion] TLS 1.2
    (0x0303) and nothing else, so the host's trust store; with a secret it is
    what [NewTLSConfig] makes of the secret's CA, certificate and key (inline
    or by file), server name and skip-verify flag, with the versions set to
    TLS 1.2 (0x0303) and TLS 1.3 (0x0304).  That configuration is the
    [TLSClientConfig] of the transport [prepareTransport] builds, and of the
    transport of every call of the reverse proxy that [serve] makes.  When
    building it fails, [prepareTransport] answers 502, which a call of
    [serve] that has come that far returns, and [serve] never calls the
    reverse proxy. *)
Theorem tls_configuration (rt : Runtime) (h : httpProxy) :
  let carried (built : option tls.Config * option error) :=
    (forall tlsConfig,
       built = (tlsConfig, None) ->
       exists transport,
         prepareTransport rt h = (Some transport, None) /\
         http.TLSClientConfig transport = tlsConfig) /\
    (forall w target transport req,
       ReverseProxy_ServeHTTP target transport req ∈ newEvents (serve rt h) w ->
       built = (http.TLSClientConfig transport, None)) in
  (secret_ h = None ->
   let minimal :=
     (Some {| tls.RootCAs := None; tls.Certificates := None; tls.ServerName := "";
              tls.InsecureSkipVerify := false; tls.MinVersion := 0x0303; tls.MaxVersion := 0 |},
      @None error) in
   prepareTLSConfig rt h = minimal /\ carried minimal) /\
  (forall scrt,
     secret_ h = Some scrt ->
     let derived :=
       NewTLSConfig rt
         {| promConfig.CA := secret.CA (v1.TLSConfig scrt);
            promConfig.Cert := secret.Cert (v1.TLSConfig scrt);
            promConfig.Key := secret.Key (v1.TLSConfig scrt);
            promConfig.CAFile := secret.CAFile (v1.TLSConfig scrt);
            promConfig.CertFile := secret.CertFile (v1.TLSConfig scrt);
            promConfig.KeyFile := secret.KeyFile (v1.TLSConfig scrt);
            promConfig.ServerName := secret.ServerName (v1.TLSConfig scrt);
            promConfig.InsecureSkipVerify := secret.InsecureSkipVerify (v1.TLSConfig scrt);
            promConfig.MinVersion := 0x0303;
            promConfig.MaxVersion := 0x0304 |} in
     prepareTLSConfig rt h = derived /\ carried derived) /\
  (forall tlsConfig err,
     prepareTLSConfig rt h = (tlsConfig, Some err) ->
     prepareTransport rt h = (None, Some (HTTPError 502 "unable build the tls config")) /\
     (forall w, ~ dispatched (serve rt h) w) /\
     forall w w1,
       datasourceHTTP.AllowedEndpoints (config h) = [] \/
       (isASCII (path h) = true /\ permits h (http.Method (request w))) ->
       prepareRequest rt h w = (Ret None, w1) ->
       fst (serve rt h w) = Ret (Some (HTTPError 502 "unable build the tls config")) /\
       trace (snd (serve rt h w)) = trace w1).
Proof.
  assert (Hcarried : forall built, prepareTLSConfig rt h = built ->
            (forall tlsConfig,
               built = (tlsConfig, None) ->
               exists transport,
                 prepareTransport rt h = (Some transport, None) /\
                 http.TLSClientConfig transport = tlsConfig) /\
            (forall w target transport req,
               ReverseProxy_ServeHTTP target transport req ∈ newEvents (serve rt h) w ->
               built = (http.TLSClientConfig transport, None))).
  { intros built <-. split.
    - intros tlsConfig Hb.
      destruct (prepareTransport_built rt h) as [(tr & Ht & Hc & _) | (_ & err & He)].
      + exists tr. split; [exact Ht|]. now rewrite Hc, Hb.
      + rewrite Hb in He. discriminate.
    - intros w target transport req Hin.
      now apply serve_dispatched_transport in Hin as [_ Hin]. }
  cbv zeta. split; [|split].
  - intros Hs.
    assert (Hb : prepareTLSConfig rt h =
                 (Some (tls.withMinVersion tls.VersionTLS12), None))
      by (unfold prepareTLSConfig; now rewrite Hs).
    split; [exact Hb | exact (Hcarried _ Hb)].
  - intros scrt Hs.
    assert (Hb : prepareTLSConfig rt h = _) by (unfold prepareTLSConfig; rewrite Hs; reflexivity).
    split; [exact Hb | exact (Hcarried _ Hb)].
  - intros tlsConfig err Ht.
    assert (Hp : prepareTransport rt h = (None, Some (HTTPError 502 "unable build the tls config"))).
    { unfold prepareTransport. now rewrite Ht. }
    split; [exact Hp|]. split.
    + intros w (target & transport & req & Hin).
      apply serve_dispatched_transport in Hin as [Hin _]. rewrite Hp in Hin. discriminate.
    + intros w w1 Hgate Hreq.
      assert (Hopen : datasourceHTTP.AllowedEndpoints (config h) = [] \/
                      permits h (http.Method (request w)))
        by (destruct Hgate as [?|[_ ?]]; auto).
      unfold serve, bind, getRequest. rewrite (gate_open h (request w) Hopen), Hreq.
      simpl. now rewrite Hp.
Qed.

Lemma tls_configuration_witness :
  let plain := Demo.gated "/api/v1/query" in
  let secured := Demo.withSecret Demo.basicSecret in
  let minimal :=
    Some {| tls.RootCAs := None; tls.Certificates := None; tls.ServerName := "";
            tls.InsecureSkipVerify := false; tls.MinVersion := 771; tls.MaxVersion := 0 |} in
  let bounded :=
    Some {| tls.RootCAs := None; tls.Certificates := None; tls.ServerName := "";
            tls.InsecureSkipVerify := false; tls.MinVersion := 771; tls.MaxVersion := 772 |} in
  (prepareTLSConfig Demo.runtime plain = (minimal, None) /\
   (exists transport,
      prepareTransport Demo.runtime plain = (Some transport, None) /\
      http.TLSClientConfig transport = minimal) /\
   exists transport req,
     newEvents (serve Demo.runtime plain) (Demo.world "/")
       = [ReverseProxy_ServeHTTP Demo.upstream transport req] /\
     http.TLSClientConfig transport = minimal) /\
  (prepareTLSConfig Demo.runtime secured = (bounded, None) /\
   (exists transport,
      prepareTransport Demo.runtime secured = (Some transport, None) /\
      http.TLSClientConfig transport = bounded) /\
   exists transport req,
     newEvents (serve Demo.runtime secured) (Demo.world "/")
       = [ReverseProxy_ServeHTTP Demo.upstream transport req] /\
     http.TLSClientConfig transport = bounded) /\
  fst (serve Demo.runtimeBadTLS secured (Demo.world "/")) =
    Ret (Some (HTTPError 502 "unable build the tls config")) /\
  ~ dispatched (serve Demo.runtimeBadTLS secured) (Demo.world "/").
Proof.
  intros plain secured minimal bounded.
  destruct (proj1 (tls_configuration Demo.runtime plain) eq_refl) as (P1 & P2 & P3).
  destruct (proj1 (proj2 (tls_configuration Demo.runtime secured)) Demo.basicSecret eq_refl)
    as (S1 & S2 & S3).
  destruct (proj2 (proj2 (tls_configuration Demo.runtimeBadTLS secured))
              None (Failure "unable to load specified CA cert") eq_refl) as (_ & B1 & B2).
  split; [|split; [|split]].
  - split; [exact P1|]. split; [exact (P2 minimal eq_refl)|].
    exists Cases.transport, (Cases.sent "/api/v1/query"). split; [reflexivity|].
    pose proof (P3 (Demo.world "/") Demo.upstream Cases.transport (Cases.sent "/api/v1/query")
                  (list_elem_of_here _ _)) as H.
    exact (f_equal fst (eq_sym H)).
  - split; [exact S1|]. split; [exact (S2 bounded eq_refl)|].
    eexists {| http.ProxyFromEnvironment := true;
               http.DialTimeout := 30000000000;
               http.DialKeepAlive := 30000000000;
               http.TLSHandshakeTimeout := 10000000000;
               http.IdleConnTimeout := 90000000000;
               http.ForceAttemptHTTP2 := true;
               http.TLSClientConfig := bounded |}, _.
    split; [reflexivity|].
    pose proof (S3 (Demo.world "/") Demo.upstream _ _ (list_elem_of_here _ _)) as H.
    exact (f_equal fst (eq_sym H)).
  - exact (proj1 (B2 (Demo.world "/") _ (or_introl eq_refl) eq_refl)).
  - exact (B1 (Demo.world "/")).
Defined.

(** X4.  When [serve] calls the reverse proxy, it calls it once: with
    the URL of the configuration as target, a request whose host is the host
    of that URL, whose path is the path of the proxy and whose method,
    scheme and URL host are those of the incoming request, and the transport
    of [prepareTransport]; if the path of the proxy is ASCII, the allow-list
    is empty or permits the method and the path; the outcome of [serve] is
    the outcome of that call, be it a result or the panic of a cut answer. *)
Theorem dispatch_goes_to_the_upstream (rt : Runtime) (h : httpProxy) (w : World)
    (target : url.URL) (transport : http.Transport) (req : http.Request) :
  ReverseProxy_ServeHTTP target transport req ∈ newEvents (serve rt h) w ->
  newEvents (serve rt h) w = [ReverseProxy_ServeHTTP target transport req] /\
  target = datasourceHTTP.URL (config h) /\
  http.Host req = url.Host (datasourceHTTP.URL (config h)) /\
  url.Path (http.URL req) = path h /\
  url.Scheme (http.URL req) = url.Scheme (http.URL (request w)) /\
  url.Host (http.URL req) = url.Host (http.URL (request w)) /\
  http.Method req = http.Method (request w) /\
  prepareTransport rt h = (Some transport, None) /\
  (isASCII (path h) = true ->
   datasourceHTTP.AllowedEndpoints (config h) = [] \/ permits h (http.Method (request w))) /\
  serve rt h w =
  (ServeHTTP rt target transport req,
   {| request := req; trace := trace w ++ [ReverseProxy_ServeHTTP target transport req] |}).
Proof.
  intros Hin.
  destruct (serve_cases rt h w) as [[_ E] | [(_ & _ & E) | [(_ & _ & _ & E) | (Hg & Ha & tr & Ht & E)]]].
  - rewrite (newEvents_unchanged _ _ _ E) in Hin. now apply not_in_nil in Hin.
  - rewrite (newEvents_withRequest _ _ _ _ E) in Hin. now apply not_in_nil in Hin.
  - rewrite (newEvents_withRequest _ _ _ _ E) in Hin. now apply not_in_nil in Hin.
  - rewrite (newEvents_one _ _ _ _ _ E) in Hin |- *.
    apply list_elem_of_singleton in Hin. injection Hin as -> -> ->.
    destruct (authenticated_fields h (forwardedRequest rt h (request w))) as (Hm & Hu & Hh).
    destruct (forwardedRequest_fields rt h (request w)) as (Hm' & Hu' & Hh').
    repeat split; try assumption.
    + simpl. congruence.
    + simpl. congruence.
    + simpl. congruence.
    + simpl. congruence.
    + intros _. apply andb_false_iff in Hg as [Hg|Hg].
      * left. apply Nat.ltb_ge in Hg. destruct (datasourceHTTP.AllowedEndpoints _); [reflexivity|].
        simpl in Hg. lia.
      * right. apply negb_false_iff in Hg. now apply isAllowed_permits.
Qed.

Lemma dispatch_goes_to_the_upstream_witness :
  let h := Demo.gated "/api/v1/query" in
  let w := Demo.world "/proxy/globaldatasources/gprom/api/v1/query" in
  let req := Cases.sent "/api/v1/query" in
  newEvents (serve Demo.runtime h) w
    = [ReverseProxy_ServeHTTP Demo.upstream Cases.transport req] /\
  Demo.upstream = datasourceHTTP.URL (config h) /\
  http.Host req = url.Host (datasourceHTTP.URL (config h)) /\
  url.Path (http.URL req) = path h /\
  url.Scheme (http.URL req) = url.Scheme (http.URL (request w)) /\
  url.Host (http.URL req) = url.Host (http.URL (request w)) /\
  http.Method req = http.Method (request w) /\
  prepareTransport Demo.runtime h = (Some Cases.transport, None) /\
  (datasourceHTTP.AllowedEndpoints (config h) = [] \/ permits h (http.Method (request w))) /\
  serve Demo.runtime h w =
  (Ret None,
   {| request := req;
      trace := trace w ++ [ReverseProxy_ServeHTTP Demo.upstream Cases.transport req] |}) /\
  serve Cases.runtimeCut h w =
  (Panic http.ErrAbortHandler,
   {| request := req;
      trace := trace w ++ [ReverseProxy_ServeHTTP Demo.upstream Cases.transport req] |}).
Proof.
  intros h w req.
  destruct (dispatch_goes_to_the_upstream Demo.runtime h w Demo.upstream Cases.transport req
              (list_elem_of_here _ _))
    as (H1 & H2 & H3 & H4 & H5 & H6 & H7 & H8 & H9 & H10).
  destruct (dispatch_goes_to_the_upstream Cases.runtimeCut h w Demo.upstream Cases.transport req
              (list_elem_of_here _ _))
    as (_ & _ & _ & _ & _ & _ & _ & _ & _ & H11).
  repeat split; try assumption. exact (H9 eq_refl).
Defined.

Lemma serve_dispatched_request rt h w target transport req :
  ReverseProxy_ServeHTTP target transport req ∈ newEvents (serve rt h) w ->
  snd (authenticated h (forwardedRequest rt h (request w))) = None /\
  req = http.withPath (fst (authenticated h (forwardedRequest rt h (request w)))) (path h).
Proof.
  intros Hin.
  destruct (serve_cases rt h w) as [[_ E] | [(_ & _ & E) | [(_ & _ & _ & E) | (Hg & Ha & tr & Ht & E)]]].
  - rewrite (newEvents_unchanged _ _ _ E) in Hin. now apply not_in_nil in Hin.
  - rewrite (newEvents_withRequest _ _ _ _ E) in Hin. now apply not_in_nil in Hin.
  - rewrite (newEvents_withRequest _ _ _ _ E) in Hin. now apply not_in_nil in Hin.
  - rewrite (newEvents_one _ _ _ _ _ E) in Hin.
    apply list_elem_of_singleton in Hin. injection Hin as -> -> ->. auto.
Qed.

(** X5.  The request the reverse proxy is called with, for a proxy
    that holds a secret: with an authorization block its one value of
    [Authorization] is the type, a space and the credentials, which were
    read without error; with basic authentication alone it is [Basic] and
    the base64 encoding of user name, colon and password, which was read
    without error; with neither block the headers are those of the request
    before the authentication. *)
Theorem dispatched_request_is_authenticated (rt : Runtime) (h : httpProxy) (w : World)
    (target : url.URL) (transport : http.Transport) (req : http.Request) (scrt : v1.SecretSpec) :
  ReverseProxy_ServeHTTP target transport req ∈ newEvents (serve rt h) w ->
  secret_ h = Some scrt ->
  match v1.Authorization scrt, v1.BasicAuth scrt with
  | Some auth, _ =>
      snd (secret.GetCredentials auth) = None /\
      http.Header_Values (http.Header_ req) "Authorization" =
        [secret.Type_ auth +:+ " " +:+ fst (secret.GetCredentials auth)]
  | None, Some basicAuth =>
      snd (secret.GetPassword basicAuth) = None /\
      http.Header_Values (http.Header_ req) "Authorization" =
        ["Basic " +:+ base64.EncodeToString
                        (secret.Username basicAuth +:+ ":" +:+ fst (secret.GetPassword basicAuth))]
  | None, None =>
      http.Header_ req = http.Header_ (forwardedRequest rt h (request w))
  end.
Proof.
  intros Hin Hs. apply serve_dispatched_request in Hin as [Ha ->].
  change (http.Header_ (http.withPath ?r ?p)) with (http.Header_ r).
  revert Ha. unfold authenticated. rewrite Hs.
  destruct (v1.Authorization scrt) as [auth|], (v1.BasicAuth scrt) as [basicAuth|];
    try destruct (secret.GetPassword basicAuth) as [password [err|]];
    try destruct (secret.GetCredentials auth) as [credential [err'|]];
    simpl; intros Ha; try discriminate Ha; try (split; [reflexivity|]);
    try apply Header_Values_Set; reflexivity.
Qed.

Lemma dispatched_request_is_authenticated_witness :
  let h := Demo.withSecret Demo.bothSecret in
  let w := Demo.world "/proxy/globaldatasources/gprom/api/v1/query" in
  exists transport req,
    newEvents (serve Demo.runtime h) w = [ReverseProxy_ServeHTTP Demo.upstream transport req] /\
    http.Header_Values (http.Header_ req) "Authorization" = ["Bearer tok"].
Proof.
  intros h w.
  exists {| http.ProxyFromEnvironment := true;
            http.DialTimeout := 30000000000;
            http.DialKeepAlive := 30000000000;
            http.TLSHandshakeTimeout := 10000000000;
            http.IdleConnTimeout := 90000000000;
            http.ForceAttemptHTTP2 := true;
            http.TLSClientConfig := fst (prepareTLSConfig Demo.runtime h) |},
         (http.withPath (fst (authenticated h (forwardedRequest Demo.runtime h (request w))))
            (path h)).
  split; [reflexivity|].
  apply (dispatched_request_is_authenticated Demo.runtime h w Demo.upstream _ _ Demo.bothSecret
           (list_elem_of_here _ _) eq_refl).
Defined.

(** X6.  [serve] ends in one of four ways: the 403 error of the
    allow-list, the 500 error of the authentication, the 502 error of the
    TLS configuration, each without any call, or the one call of the reverse
    proxy on the URL of the configuration, whose outcome is the outcome of
    [serve]: no error, the error of the round trip, or, when the copy of the
    answer fails, the panic [http.ErrAbortHandler].  [serve] panics in no
    other way. *)
Theorem serve_outcomes (rt : Runtime) (h : httpProxy) (w : World) :
  ((fst (serve rt h w) =
      Ret (Some (HTTPError 403
                   ("you are not allowed to use this endpoint " +:+ Quote rt (path h)
                    +:+ " with the HTTP method " +:+ http.Method (request w)))) /\
    newEvents (serve rt h) w = []) \/
   (fst (serve rt h w) = Ret (Some (HTTPError 500 "Internal Server Error")) /\
    newEvents (serve rt h) w = []) \/
   (fst (serve rt h w) = Ret (Some (HTTPError 502 "unable build the tls config")) /\
    newEvents (serve rt h) w = []) \/
   (exists transport req,
      let target := datasourceHTTP.URL (config h) in
      newEvents (serve rt h) w = [ReverseProxy_ServeHTTP target transport req] /\
      fst (serve rt h w) = ServeHTTP rt target transport req /\
      ((RoundTrip rt target transport req = None /\
        CopyAborts rt target transport req = false /\
        fst (serve rt h w) = Ret None) \/
       (exists detail,
          RoundTrip rt target transport req = Some detail /\
          fst (serve rt h w) = Ret (Some (Failure detail))) \/
       (RoundTrip rt target transport req = None /\
        CopyAborts rt target transport req = true /\
        fst (serve rt h w) = Panic http.ErrAbortHandler)))) /\
  (forall reason,
     fst (serve rt h w) = Panic reason ->
     reason = http.ErrAbortHandler /\ dispatched (serve rt h) w).
Proof.
  destruct (serve_cases rt h w)
    as [[_ E] | [(_ & _ & E) | [(_ & _ & _ & E) | (Hg & Ha & tr & Ht & E)]]].
  - split; [|rewrite E; discriminate].
    left. rewrite (newEvents_unchanged _ _ _ E), E. auto.
  - split; [|rewrite E; discriminate].
    right; left. rewrite (newEvents_withRequest _ _ _ _ E), E. auto.
  - split; [|rewrite E; discriminate].
    right; right; left. rewrite (newEvents_withRequest _ _ _ _ E), E. auto.
  - assert (Hev := newEvents_one _ _ _ _ _ E). split.
    + right; right; right. eexists tr, _. cbv zeta. rewrite Hev, E.
      split; [reflexivity|]. split; [reflexivity|]. cbn [fst]. unfold ServeHTTP.
      destruct (RoundTrip rt _ tr _) as [detail|]; [right; left; eauto|].
      destruct (CopyAborts rt _ tr _); [right; right | left]; auto.
    + intros reason Hp. split.
      * rewrite E in Hp. cbn [fst] in Hp. unfold ServeHTTP in Hp.
        destruct (RoundTrip rt _ tr _); [discriminate|].
        destruct (CopyAborts rt _ tr _); [congruence | discriminate].
      * eexists _, tr, _. rewrite Hev. apply list_elem_of_here.
Qed.

Lemma serve_outcomes_witness :
  let h := Demo.gated "/api/v1/query" in
  let w := Demo.world "/proxy/globaldatasources/gprom/api/v1/query" in
  fst (serve Cases.runtimeCut h w) = Panic http.ErrAbortHandler /\
  dispatched (serve Cases.runtimeCut h) w.
Proof.
  intros h w. split; [reflexivity|].
  exact (proj2 (proj2 (serve_outcomes Cases.runtimeCut h w) http.ErrAbortHandler eq_refl)).
Defined.



(** ** The headers after [prepareRequest] *)

Lemma canonical_XRealIP : textproto.CanonicalMIMEHeaderKey echo.HeaderXRealIP = "X-Real-Ip".
Proof. reflexivity. Qed.

Lemma canonical_XForwardedProto :
  textproto.CanonicalMIMEHeaderKey echo.HeaderXForwardedProto = "X-Forwarded-Proto".
Proof. reflexivity. Qed.

Lemma withRealIP_other rt req key :
  key <> "X-Real-Ip" -> http.Header_ (withRealIP rt req) !! key = http.Header_ req !! key.
Proof.
  intros H. unfold withRealIP. destruct (_ =? _)%nat; [|reflexivity].
  simpl. now apply Header_Set_other.
Qed.

Lemma withForwardedProto_other rt req key :
  key <> "X-Forwarded-Proto" ->
  http.Header_ (withForwardedProto rt req) !! key = http.Header_ req !! key.
Proof.
  intros H. unfold withForwardedProto. destruct (_ =? _)%nat; [|reflexivity].
  simpl. now apply Header_Set_other.
Qed.

Lemma withConfigHeaders_other h req key :
  key ∉ configKeys h -> http.Header_ (withConfigHeaders h req) !! key = http.Header_ req !! key.
Proof.
  intros H. unfold withConfigHeaders. destruct (_ <? _)%nat; [|reflexivity].
  simpl. now apply setHeaders_other.
Qed.

Lemma authenticated_other h req key :
  key <> "Authorization" ->
  http.Header_ (fst (authenticated h req)) !! key = http.Header_ req !! key.
Proof.
  intros H. unfold authenticated. destruct (secret_ h) as [scrt|]; [|reflexivity].
  destruct (v1.BasicAuth scrt) as [basicAuth|], (v1.Authorization scrt) as [auth|];
    try destruct (secret.GetPassword basicAuth) as [password [err|]];
    try destruct (secret.GetCredentials auth) as [credential [err'|]];
    simpl; rewrite ?Header_Set_other by (now rewrite canonical_Authorization); reflexivity.
Qed.

Lemma prepareRequest_world rt h w :
  snd (prepareRequest rt h w) =
  withRequest w (fst (authenticated h (forwardedRequest rt h (request w)))).
Proof. now rewrite prepareRequest_forwardedRequest, setupAuthentication_authenticated. Qed.

(** X8.  [prepareRequest] leaves every header alone whose canonical
    key is none of [X-Real-Ip], [X-Forwarded-Proto], [Authorization] and the
    canonical keys of the configured headers; it keeps the method, the URL
    and the trace, and sets the host to the host of the URL of the
    configuration. *)
Theorem prepareRequest_frame (rt : Runtime) (h : httpProxy) (w : World) (key : string) :
  key ∉ ["X-Real-Ip"; "X-Forwarded-Proto"; "Authorization"] ++ configKeys h ->
  let w' := snd (prepareRequest rt h w) in
  http.Header_ (request w') !! key = http.Header_ (request w) !! key /\
  http.Method (request w') = http.Method (request w) /\
  http.URL (request w') = http.URL (request w) /\
  http.Host (request w') = url.Host (datasourceHTTP.URL (config h)) /\
  trace w' = trace w.
Proof.
  intros Hkey w'. unfold w'. rewrite prepareRequest_world. simpl.
  apply not_elem_of_app in Hkey as [Hfix Hcfg].
  apply not_elem_of_cons in Hfix as [H1 Hfix]. apply not_elem_of_cons in Hfix as [H2 Hfix].
  apply not_elem_of_cons in Hfix as [H3 _].
  destruct (authenticated_fields h (forwardedRequest rt h (request w))) as (-> & -> & ->).
  destruct (forwardedRequest_fields rt h (request w)) as (-> & -> & ->).
  rewrite authenticated_other by assumption.
  unfold forwardedRequest.
  rewrite withConfigHeaders_other, withForwardedProto_other, withRealIP_other by assumption.
  auto.
Qed.

Lemma prepareRequest_frame_witness :
  let h := Demo.withSecret Demo.bothSecret in
  let w := {| request :=
                http.withHeader (Demo.get "/x") (http.Header_Set ∅ "Accept" "application/json");
              trace := [] |} in
  let w' := snd (prepareRequest Demo.runtime h w) in
  http.Header_ (request w') !! "Accept" = Some ["application/json"] /\
  http.Method (request w') = "GET" /\
  http.URL (request w') = http.URL (request w) /\
  http.Host (request w') = "prometheus.example:9090" /\
  trace w' = [].
Proof.
  intros h w.
  apply (prepareRequest_frame Demo.runtime h w "Accept").
  vm_compute. intros H. repeat (apply elem_of_cons in H as [H|H]; [discriminate H|]).
  now apply elem_of_nil in H.
Defined.

Lemma Header_Get_lookup hd hd' key :
  hd !! textproto.CanonicalMIMEHeaderKey key = hd' !! textproto.CanonicalMIMEHeaderKey key ->
  http.Header_Get hd key = http.Header_Get hd' key.
Proof. unfold http.Header_Get. now intros ->. Qed.

Lemma Header_Get_Set hd key value : http.Header_Get (http.Header_Set hd key value) key = value.
Proof. unfold http.Header_Get. now rewrite Header_Set_same. Qed.

(** X9.  When no configured header has the canonical key [X-Real-Ip]
    or [X-Forwarded-Proto]: after [prepareRequest] the two headers have the
    value the incoming request gave them, if that is not empty, and
    otherwise the client address and the scheme the framework reports. *)
Theorem forwarding_headers (rt : Runtime) (h : httpProxy) (w : World) :
  "X-Real-Ip" ∉ configKeys h -> "X-Forwarded-Proto" ∉ configKeys h ->
  let req := request (snd (prepareRequest rt h w)) in
  let req0 := http.withHost (request w) (url.Host (datasourceHTTP.URL (config h))) in
  let realIP := http.Header_Get (http.Header_ (request w)) "X-Real-Ip" in
  let proto := http.Header_Get (http.Header_ (request w)) "X-Forwarded-Proto" in
  http.Header_Get (http.Header_ req) "X-Real-Ip" =
    (if (String.length realIP =? 0)%nat then RealIP rt req0 else realIP) /\
  http.Header_Get (http.Header_ req) "X-Forwarded-Proto" =
    (if (String.length proto =? 0)%nat then Scheme rt (withRealIP rt req0) else proto).
Proof.
  intros H1 H2 req req0 realIP proto. unfold req. rewrite prepareRequest_world. simpl.
  unfold forwardedRequest. fold req0. split.
  - rewrite (Header_Get_lookup _ (http.Header_ (withRealIP rt req0))).
    + unfold withRealIP. change (http.Header_ req0) with (http.Header_ (request w)).
      change echo.HeaderXRealIP with "X-Real-Ip". fold realIP.
      destruct (String.length realIP =? 0)%nat; [|reflexivity].
      apply Header_Get_Set.
    + change (textproto.CanonicalMIMEHeaderKey "X-Real-Ip") with "X-Real-Ip".
      rewrite authenticated_other, withConfigHeaders_other, withForwardedProto_other;
        [reflexivity | discriminate | assumption | discriminate].
  - rewrite (Header_Get_lookup _ (http.Header_ (withForwardedProto rt (withRealIP rt req0)))).
    + unfold withForwardedProto at 1.
      assert (Hp : http.Header_Get (http.Header_ (withRealIP rt req0)) echo.HeaderXForwardedProto
                   = proto).
      { unfold proto. apply Header_Get_lookup.
        rewrite withRealIP_other by discriminate. reflexivity. }
      rewrite Hp. destruct (String.length proto =? 0)%nat; [apply Header_Get_Set | exact Hp].
    + change (textproto.CanonicalMIMEHeaderKey "X-Forwarded-Proto") with "X-Forwarded-Proto".
      rewrite authenticated_other, withConfigHeaders_other; [reflexivity | assumption | discriminate].
Qed.

Lemma forwarding_headers_witness :
  let w := {| request :=
                http.withHeader (Demo.get "/x") (http.Header_Set ∅ "X-Real-IP" "198.51.100.4");
              trace := [] |} in
  let req := request (snd (prepareRequest Demo.runtime Cases.tenant w)) in
  http.Header_Get (http.Header_ req) "X-Real-Ip" = "198.51.100.4" /\
  http.Header_Get (http.Header_ req) "X-Forwarded-Proto" = "https".
Proof.
  intros w.
  apply (forwarding_headers Demo.runtime Cases.tenant w).
  - intros H. apply list_elem_of_singleton in H. discriminate H.
  - intros H. apply list_elem_of_singleton in H. discriminate H.
Defined.

(** X10.  When the canonical keys of the configured headers differ
    pairwise, each configured header has its configured value as only value
    after [prepareRequest], provided the proxy holds no secret or the key is
    not [Authorization]. *)
Theorem config_headers_are_set (rt : Runtime) (h : httpProxy) (w : World) (k v : string) :
  NoDup (configKeys h) ->
  (k, v) ∈ datasourceHTTP.Headers (config h) ->
  secret_ h = None \/ textproto.CanonicalMIMEHeaderKey k <> "Authorization" ->
  http.Header_Values (http.Header_ (request (snd (prepareRequest rt h w)))) k = [v].
Proof.
  intros Hnd Hin Hauth. rewrite prepareRequest_world. simpl.
  unfold http.Header_Values.
  assert (Hset : http.Header_ (forwardedRequest rt h (request w))
                   !! textproto.CanonicalMIMEHeaderKey k = Some [v]).
  { assert (Hlen : (0 <? length (datasourceHTTP.Headers (config h)))%nat = true).
    { destruct (datasourceHTTP.Headers (config h)); [now apply elem_of_nil in Hin | reflexivity]. }
    unfold forwardedRequest, withConfigHeaders. rewrite Hlen.
    change (http.Header_ (http.withHeader ?r ?hd)) with hd.
    now apply setHeaders_set. }
  destruct Hauth as [Hs|Hk].
  - unfold authenticated. rewrite Hs. simpl. now rewrite Hset.
  - rewrite authenticated_other by assumption. now rewrite Hset.
Qed.

Lemma config_headers_are_set_witness :
  http.Header_Values
    (http.Header_ (request (snd (prepareRequest Demo.runtime Cases.tenant (Demo.world "/x")))))
    "x-scope-orgid" = ["tenant-1"].
Proof.
  apply (config_headers_are_set Demo.runtime Cases.tenant (Demo.world "/x")
           "x-scope-orgid" "tenant-1").
  - apply NoDup_singleton.
  - apply list_elem_of_here.
  - left. reflexivity.
Defined.

(** X11.  The order in which the configured headers are set does not
    matter as long as their canonical keys differ pairwise; it does when two
    keys differ in case only: the one set last stays. *)
Theorem config_headers_order :
  (forall (hs hs' : list (string * string)) (hd : http.Header),
     Permutation hs hs' ->
     NoDup (map (fun kv => textproto.CanonicalMIMEHeaderKey (fst kv)) hs) ->
     setHeaders hs hd = setHeaders hs' hd) /\
  http.Header_Values (setHeaders [("x-scope", "a"); ("X-Scope", "b")] ∅) "X-Scope" = ["b"] /\
  http.Header_Values (setHeaders [("X-Scope", "b"); ("x-scope", "a")] ∅) "X-Scope" = ["a"].
Proof.
  split; [|split; reflexivity].
  intros hs hs' hd Hp Hnd. now apply setHeaders_permutation.
Qed.

Lemma config_headers_order_witness :
  setHeaders [("X-Scope-OrgID", "tenant-1"); ("Accept", "application/json")] ∅ =
  setHeaders [("Accept", "application/json"); ("X-Scope-OrgID", "tenant-1")] ∅.
Proof.
  apply (proj1 config_headers_order).
  - apply perm_swap.
  - vm_compute. apply NoDup_cons. split.
    + intros H. apply list_elem_of_singleton in H. discriminate H.
    + apply NoDup_singleton.
Defined.

(* ===================================================================== *)
(** * The pipelines from the path to the upstream *)
(* ===================================================================== *)

Section PipelineRuns.
Variable rt : Runtime.
Variable e : Proxy.

Lemma getGlobalDatasource_run name w :
  getGlobalDatasource rt e name w =
  (match GlobalDTS e name with
   | (_, Some err) => Ret (v1.DatasourceSpec_zero, Some (resolverError rt name err))
   | (Some dts, None) => Ret (v1.GlobalDatasource_Spec dts, None)
   | (None, None) => Panic nilPointer
   end, record w [GlobalDTS_Get name]).
Proof.
  unfold getGlobalDatasource, resolverError, bind, emit. simpl.
  destruct (GlobalDTS e name) as [[dts|] [err|]]; simpl;
    try destruct (databaseModel.IsKeyNotFound err); reflexivity.
Qed.

Lemma getProjectDatasource_run project name w :
  getProjectDatasource rt e project name w =
  (match DTS e project name with
   | (_, Some err) => Ret (v1.DatasourceSpec_zero, Some (resolverError rt name err))
   | (Some dts, None) => Ret (v1.Datasource_Spec dts, None)
   | (None, None) => Panic nilPointer
   end, record w [DTS_Get project name]).
Proof.
  unfold getProjectDatasource, resolverError, bind, emit. simpl.
  destruct (DTS e project name) as [[dts|] [err|]]; simpl;
    try destruct (databaseModel.IsKeyNotFound err); reflexivity.
Qed.

Lemma getDashboardDatasource_run project dashboard name w :
  getDashboardDatasource rt e project dashboard name w =
  (match Dashboard e project dashboard with
   | (_, Some err) => Ret (v1.DatasourceSpec_zero, Some (resolverError rt name err))
   | (Some db, None) =>
       match v1.Datasources (v1.Dashboard_Spec db) !! name with
       | Some dts => Ret (dts, None)
       | None => Ret (v1.DatasourceSpec_zero, Some (resolverError rt name (KeyNotFound "")))
       end
   | (None, None) => Panic nilPointer
   end, record w [Dashboard_Get project dashboard]).
Proof.
  unfold getDashboardDatasource, resolverError, bind, emit. simpl.
  destruct (Dashboard e project dashboard) as [[db|] [err|]]; simpl;
    try destruct (databaseModel.IsKeyNotFound err); try reflexivity.
  destruct (_ !! name); reflexivity.
Qed.

Lemma getGlobalSecret_run dtsName name w :
  exists r, getGlobalSecret rt e dtsName name w = (r, record w [GlobalSecret_Get name]) /\
    match r with
    | Ret (scrt, Some _) => scrt = None /\ exists err, snd (GlobalSecret e name) = Some err
    | Ret (scrt, None) => snd (GlobalSecret e name) = None
    | Panic _ => True
    end.
Proof.
  unfold getGlobalSecret, bind, emit. simpl.
  destruct (GlobalSecret e name) as [[s|] [err|]]; simpl;
    try destruct (databaseModel.IsKeyNotFound err); eexists; (split; [reflexivity|]); simpl; eauto.
Qed.

Lemma getProjectSecret_run project dtsName name w :
  exists r, getProjectSecret rt e project dtsName name w = (r, record w [Secret_Get project name]) /\
    match r with
    | Ret (scrt, Some _) => scrt = None /\ exists err, snd (Secret e project name) = Some err
    | Ret (scrt, None) => snd (Secret e project name) = None
    | Panic _ => True
    end.
Proof.
  unfold getProjectSecret, bind, emit. simpl.
  destruct (Secret e project name) as [[s|] [err|]]; simpl;
    try destruct (databaseModel.IsKeyNotFound err); eexists; (split; [reflexivity|]); simpl; eauto.
Qed.
End PipelineRuns.

Section NewProxyRuns.
Variable rt : Runtime.

Lemma newProxy_plain spec path crypto retrieveSecret cfg w :
  ValidateAndExtract rt (v1.Spec (v1.plugin spec)) = (Some cfg, None) ->
  GoString.nonEmpty (datasourceHTTP.Secret cfg) = false ->
  newProxy rt spec path crypto retrieveSecret w =
  (Ret (Some {| config := cfg; secret_ := None; path := path |}, None), w).
Proof. intros Hcfg Hs. unfold newProxy. now rewrite Hcfg, Hs. Qed.

Lemma newProxy_config_failed spec path crypto retrieveSecret cfg err w :
  ValidateAndExtract rt (v1.Spec (v1.plugin spec)) = (cfg, Some err) ->
  newProxy rt spec path crypto retrieveSecret w =
  (Ret (None, Some (HTTPError 502 "unable to find the http config")), w).
Proof. intros Hcfg. unfold newProxy. now rewrite Hcfg. Qed.

(** When [newProxy] hands out a proxy: the configuration names no secret,
    or the retrieval of the secret failed. *)
Lemma newProxy_yields spec path crypto retrieveSecret w h err w' :
  newProxy rt spec path crypto retrieveSecret w = (Ret (Some h, err), w') ->
  exists cfg,
    ValidateAndExtract rt (v1.Spec (v1.plugin spec)) = (Some cfg, None) /\
    config h = cfg /\
    (GoString.nonEmpty (datasourceHTTP.Secret cfg) = false \/
     exists scrt rerr w1,
       retrieveSecret (datasourceHTTP.Secret cfg) w = (Ret (scrt, Some rerr), w1)).
Proof.
  unfold newProxy.
  destruct (ValidateAndExtract rt _) as [[cfg|] [verr|]]; try discriminate.
  destruct (GoString.nonEmpty (datasourceHTTP.Secret cfg)) eqn:Hs.
  - unfold bind at 1.
    destruct (retrieveSecret _ w) as [[[scrt [rerr|]]|r] w1] eqn:Hr; try discriminate.
    unfold bind, emit, liftRes. simpl.
    destruct (crypto.Decrypt crypto scrt) as [[scrt' [derr|]]|r]; simpl; try discriminate.
    intros [= <- <- <-]. exists cfg. split; [reflexivity|]. split; [reflexivity|]. right. eauto.
  - intros [= <- <- <-]. exists cfg. auto.
Qed.
End NewProxyRuns.

Section Pipelines.
Variable rt : Runtime.
Variable e : Proxy.

Lemma proxyGlobalDatasource_run w :
  proxyGlobalDatasource rt e w =
  match extractGlobalDatasourceAndPath (requestPath w) with
  | (_, _, Some err) => (Ret (Some err), w)
  | (name, path, None) =>
      match GlobalDTS e name with
      | (_, Some err) => (Ret (Some (resolverError rt name err)), record w [GlobalDTS_Get name])
      | (Some dts, None) =>
          proxied rt e (v1.GlobalDatasource_Spec dts) path (fun n => getGlobalSecret rt e name n)
            (record w [GlobalDTS_Get name])
      | (None, None) => (Panic nilPointer, record w [GlobalDTS_Get name])
      end
  end.
Proof.
  unfold proxyGlobalDatasource, requestPath.
  rewrite (bind_run getRequest _ w (request w) w eq_refl).
  destruct (extractGlobalDatasourceAndPath _) as [[name path] [err|]]; [reflexivity|].
  unfold bind at 1. rewrite getGlobalDatasource_run.
  destruct (GlobalDTS e name) as [[dts|] [err|]]; reflexivity.
Qed.

Lemma proxyProjectDatasource_run w :
  proxyProjectDatasource rt e w =
  match extractProjectDatasourceAndPath (requestPath w) with
  | (_, _, _, Some err) => (Ret (Some err), w)
  | (project, name, path, None) =>
      match DTS e project name with
      | (_, Some err) => (Ret (Some (resolverError rt name err)), record w [DTS_Get project name])
      | (Some dts, None) =>
          proxied rt e (v1.Datasource_Spec dts) path (fun n => getProjectSecret rt e project name n)
            (record w [DTS_Get project name])
      | (None, None) => (Panic nilPointer, record w [DTS_Get project name])
      end
  end.
Proof.
  unfold proxyProjectDatasource, requestPath.
  rewrite (bind_run getRequest _ w (request w) w eq_refl).
  destruct (extractProjectDatasourceAndPath _) as [[[project name] path] [err|]]; [reflexivity|].
  unfold bind at 1. rewrite getProjectDatasource_run.
  destruct (DTS e project name) as [[dts|] [err|]]; reflexivity.
Qed.

Lemma proxyDashboardDatasource_run w :
  proxyDashboardDatasource rt e w =
  match extractProjectDashboardDatasourceAndPath (requestPath w) with
  | (_, _, _, _, Some err) => (Ret (Some err), w)
  | (project, dashboard, name, path, None) =>
      match Dashboard e project dashboard with
      | (_, Some err) =>
          (Ret (Some (resolverError rt name err)), record w [Dashboard_Get project dashboard])
      | (Some db, None) =>
          match v1.Datasources (v1.Dashboard_Spec db) !! name with
          | Some dts =>
              proxied rt e dts path (fun n => getProjectSecret rt e project name n)
                (record w [Dashboard_Get project dashboard])
          | None =>
              (Ret (Some (resolverError rt name (KeyNotFound ""))),
               record w [Dashboard_Get project dashboard])
          end
      | (None, None) => (Panic nilPointer, record w [Dashboard_Get project dashboard])
      end
  end.
Proof.
  unfold proxyDashboardDatasource, requestPath.
  rewrite (bind_run getRequest _ w (request w) w eq_refl).
  destruct (extractProjectDashboardDatasourceAndPath _)
    as [[[[project dashboard] name] path] [err|]]; [reflexivity|].
  unfold bind at 1. rewrite getDashboardDatasource_run.
  destruct (Dashboard e project dashboard) as [[db|] [err|]]; try reflexivity.
  destruct (_ !! name); reflexivity.
Qed.

Lemma proxied_config_failed dts path retrieveSecret cfg err w :
  ValidateAndExtract rt (v1.Spec (v1.plugin dts)) = (cfg, Some err) ->
  proxied rt e dts path retrieveSecret w =
  (Ret (Some (HTTPError 502 "unable to find the http config")), w).
Proof.
  intros H. unfold proxied, bind. now rewrite (newProxy_config_failed rt _ _ _ _ cfg err).
Qed.

Lemma proxied_plain dts path retrieveSecret cfg w :
  ValidateAndExtract rt (v1.Spec (v1.plugin dts)) = (Some cfg, None) ->
  GoString.nonEmpty (datasourceHTTP.Secret cfg) = false ->
  proxied rt e dts path retrieveSecret w =
  serve rt {| config := cfg; secret_ := None; path := path |} w.
Proof.
  intros H Hs. unfold proxied, bind. now rewrite (newProxy_plain rt _ _ _ _ cfg).
Qed.
End Pipelines.

(** X12.  When the path is extracted and the store of the datasource,
    or of the dashboard, answers with an error, or the dashboard has no
    datasource under the name, the pipeline returns the error of the
    resolver (404 for a key not found, 500 otherwise) after this one call
    of the store. *)
Theorem failed_lookup_ends_the_pipeline (rt : Runtime) (e : Proxy) (w : World) :
  (forall name path dts err,
     extractGlobalDatasourceAndPath (requestPath w) = (name, path, None) ->
     GlobalDTS e name = (dts, Some err) ->
     proxyGlobalDatasource rt e w =
     (Ret (Some (resolverError rt name err)), record w [GlobalDTS_Get name])) /\
  (forall project name path dts err,
     extractProjectDatasourceAndPath (requestPath w) = (project, name, path, None) ->
     DTS e project name = (dts, Some err) ->
     proxyProjectDatasource rt e w =
     (Ret (Some (resolverError rt name err)), record w [DTS_Get project name])) /\
  (forall project dashboard name path db err,
     extractProjectDashboardDatasourceAndPath (requestPath w)
       = (project, dashboard, name, path, None) ->
     Dashboard e project dashboard = (db, Some err) ->
     proxyDashboardDatasource rt e w =
     (Ret (Some (resolverError rt name err)), record w [Dashboard_Get project dashboard])) /\
  (forall project dashboard name path db,
     extractProjectDashboardDatasourceAndPath (requestPath w)
       = (project, dashboard, name, path, None) ->
     Dashboard e project dashboard = (Some db, None) ->
     v1.Datasources (v1.Dashboard_Spec db) !! name = None ->
     proxyDashboardDatasource rt e w =
     (Ret (Some (HTTPError 404
                   ("unable to forward the request to the datasource " +:+ Quote rt name
                    +:+ ", datasource doesn't exist"))),
      record w [Dashboard_Get project dashboard])).
Proof.
  split; [|split; [|split]].
  - intros name path dts err Hx Hs. rewrite proxyGlobalDatasource_run, Hx, Hs.
    now destruct dts.
  - intros project name path dts err Hx Hs. rewrite proxyProjectDatasource_run, Hx, Hs.
    now destruct dts.
  - intros project dashboard name path db err Hx Hs.
    rewrite proxyDashboardDatasource_run, Hx, Hs. now destruct db.
  - intros project dashboard name path db Hx Hs Hk.
    now rewrite proxyDashboardDatasource_run, Hx, Hs, Hk.
Qed.

Lemma failed_lookup_ends_the_pipeline_witness :
  proxyGlobalDatasource Demo.runtime (Demo.brokenStores Demo.identityCrypto)
    (Demo.world "/proxy/globaldatasources/gprom/api/v1/query")
    = (Ret (Some (HTTPError 500 "internal server error")),
       record (Demo.world "/proxy/globaldatasources/gprom/api/v1/query") [GlobalDTS_Get "gprom"]) /\
  proxyProjectDatasource Demo.runtime (Demo.stores true Demo.identityCrypto)
    (Demo.world "/proxy/projects/p1/datasources/gone/api/v1/query")
    = (Ret (Some (HTTPError 404
                    ("unable to forward the request to the datasource " +:+ Demo.quote "gone"
                     +:+ ", datasource doesn't exist"))),
       record (Demo.world "/proxy/projects/p1/datasources/gone/api/v1/query")
         [DTS_Get "p1" "gone"]) /\
  proxyDashboardDatasource Demo.runtime (Demo.brokenStores Demo.identityCrypto)
    (Demo.world "/proxy/projects/p1/dashboards/d1/datasources/ds-key/api/v1/query")
    = (Ret (Some (HTTPError 500 "internal server error")),
       record (Demo.world "/proxy/projects/p1/dashboards/d1/datasources/ds-key/api/v1/query")
         [Dashboard_Get "p1" "d1"]) /\
  proxyDashboardDatasource Demo.runtime (Demo.stores true Demo.identityCrypto)
    (Demo.world "/proxy/projects/p1/dashboards/d1/datasources/other-key/api/v1/query")
    = (Ret (Some (HTTPError 404
                    ("unable to forward the request to the datasource " +:+ Demo.quote "other-key"
                     +:+ ", datasource doesn't exist"))),
       record (Demo.world "/proxy/projects/p1/dashboards/d1/datasources/other-key/api/v1/query")
         [Dashboard_Get "p1" "d1"]).
Proof.
  split; [|split; [|split]].
  - apply (proj1 (failed_lookup_ends_the_pipeline Demo.runtime
                    (Demo.brokenStores Demo.identityCrypto)
                    (Demo.world "/proxy/globaldatasources/gprom/api/v1/query"))
             "gprom" "/api/v1/query" None (Failure "connection refused"));
      vm_compute; reflexivity.
  - apply (proj1 (proj2 (failed_lookup_ends_the_pipeline Demo.runtime
                           (Demo.stores true Demo.identityCrypto)
                           (Demo.world "/proxy/projects/p1/datasources/gone/api/v1/query")))
             "p1" "gone" "/api/v1/query" None (KeyNotFound "key not found"));
      vm_compute; reflexivity.
  - apply (proj1 (proj2 (proj2 (failed_lookup_ends_the_pipeline Demo.runtime
                           (Demo.brokenStores Demo.identityCrypto)
                           (Demo.world
                              "/proxy/projects/p1/dashboards/d1/datasources/ds-key/api/v1/query"))))
             "p1" "d1" "ds-key" "/api/v1/query" None (Failure "connection refused"));
      vm_compute; reflexivity.
  - apply (proj2 (proj2 (proj2 (failed_lookup_ends_the_pipeline Demo.runtime
                           (Demo.stores true Demo.identityCrypto)
                           (Demo.world
                              "/proxy/projects/p1/dashboards/d1/datasources/other-key/api/v1/query"))))
             "p1" "d1" "other-key" "/api/v1/query"
             {| v1.Dashboard_Spec :=
                  {| v1.Datasources := {[ "ds-key" := Demo.datasource "http-with-secret" ]} |} |});
      vm_compute; reflexivity.
Defined.

(** X13.  When the datasource is found and its plugin holds no valid
    HTTP configuration, each pipeline returns the 502 error of [newProxy]
    after the one call of the store. *)
Theorem invalid_config_ends_the_pipeline (rt : Runtime) (e : Proxy) (w : World) :
  let badGateway := HTTPError 502 "unable to find the http config" in
  (forall name path dts cfg err,
     extractGlobalDatasourceAndPath (requestPath w) = (name, path, None) ->
     GlobalDTS e name = (Some dts, None) ->
     ValidateAndExtract rt (v1.Spec (v1.plugin (v1.GlobalDatasource_Spec dts))) = (cfg, Some err) ->
     proxyGlobalDatasource rt e w = (Ret (Some badGateway), record w [GlobalDTS_Get name])) /\
  (forall project name path dts cfg err,
     extractProjectDatasourceAndPath (requestPath w) = (project, name, path, None) ->
     DTS e project name = (Some dts, None) ->
     ValidateAndExtract rt (v1.Spec (v1.plugin (v1.Datasource_Spec dts))) = (cfg, Some err) ->
     proxyProjectDatasource rt e w = (Ret (Some badGateway), record w [DTS_Get project name])) /\
  (forall project dashboard name path db dts cfg err,
     extractProjectDashboardDatasourceAndPath (requestPath w)
       = (project, dashboard, name, path, None) ->
     Dashboard e project dashboard = (Some db, None) ->
     v1.Datasources (v1.Dashboard_Spec db) !! name = Some dts ->
     ValidateAndExtract rt (v1.Spec (v1.plugin dts)) = (cfg, Some err) ->
     proxyDashboardDatasource rt e w =
     (Ret (Some badGateway), record w [Dashboard_Get project dashboard])).
Proof.
  cbv zeta. split; [|split].
  - intros name path dts cfg err Hx Hs Hc.
    rewrite proxyGlobalDatasource_run, Hx, Hs. eapply proxied_config_failed; eauto.
  - intros project name path dts cfg err Hx Hs Hc.
    rewrite proxyProjectDatasource_run, Hx, Hs. eapply proxied_config_failed; eauto.
  - intros project dashboard name path db dts cfg err Hx Hs Hk Hc.
    rewrite proxyDashboardDatasource_run, Hx, Hs, Hk. eapply proxied_config_failed; eauto.
Qed.

Lemma invalid_config_ends_the_pipeline_witness :
  let e := Cases.storesOf "sql" in
  let badGateway := HTTPError 502 "unable to find the http config" in
  proxyGlobalDatasource Demo.runtime e (Demo.world "/proxy/globaldatasources/gprom/api/v1/query")
    = (Ret (Some badGateway),
       record (Demo.world "/proxy/globaldatasources/gprom/api/v1/query") [GlobalDTS_Get "gprom"]) /\
  proxyProjectDatasource Demo.runtime e (Demo.world Demo.queryPath)
    = (Ret (Some badGateway), record (Demo.world Demo.queryPath) [DTS_Get "p1" "prom1"]) /\
  proxyDashboardDatasource Demo.runtime e
    (Demo.world "/proxy/projects/p1/dashboards/d1/datasources/ds-key/api/v1/query")
    = (Ret (Some badGateway),
       record (Demo.world "/proxy/projects/p1/dashboards/d1/datasources/ds-key/api/v1/query")
         [Dashboard_Get "p1" "d1"]).
Proof.
  intros e badGateway. split; [|split].
  - apply (proj1 (invalid_config_ends_the_pipeline Demo.runtime e
                    (Demo.world "/proxy/globaldatasources/gprom/api/v1/query"))
             "gprom" "/api/v1/query" {| v1.GlobalDatasource_Spec := Demo.datasource "sql" |}
             None (Failure "no http config"));
      vm_compute; reflexivity.
  - apply (proj1 (proj2 (invalid_config_ends_the_pipeline Demo.runtime e
                           (Demo.world Demo.queryPath)))
             "p1" "prom1" "/api/v1/query" {| v1.Datasource_Spec := Demo.datasource "sql" |}
             None (Failure "no http config"));
      vm_compute; reflexivity.
  - apply (proj2 (proj2 (invalid_config_ends_the_pipeline Demo.runtime e
                           (Demo.world
                              "/proxy/projects/p1/dashboards/d1/datasources/ds-key/api/v1/query")))
             "p1" "d1" "ds-key" "/api/v1/query"
             {| v1.Dashboard_Spec :=
                  {| v1.Datasources := {[ "ds-key" := Demo.datasource "sql" ]} |} |}
             (Demo.datasource "sql") None (Failure "no http config"));
      vm_compute; reflexivity.
Defined.

Lemma nonEmpty_empty s : s = ""%string -> GoString.nonEmpty s = false.
Proof. now intros ->. Qed.

Lemma serve_plain rt h w :
  secret_ h = None ->
  datasourceHTTP.AllowedEndpoints (config h) = [] \/ permits h (http.Method (request w)) ->
  let transport :=
    {| http.ProxyFromEnvironment := true;
       http.DialTimeout := 30000000000;
       http.DialKeepAlive := 30000000000;
       http.TLSHandshakeTimeout := 10000000000;
       http.IdleConnTimeout := 90000000000;
       http.ForceAttemptHTTP2 := true;
       http.TLSClientConfig := Some (tls.withMinVersion tls.VersionTLS12) |} in
  let req := http.withPath (forwardedRequest rt h (request w)) (path h) in
  serve rt h w =
  (ServeHTTP rt (datasourceHTTP.URL (config h)) transport req,
   {| request := req;
      trace := trace w ++ [ReverseProxy_ServeHTTP (datasourceHTTP.URL (config h)) transport req] |}).
Proof.
  intros Hs Hgate transport req. apply (gate_open h (request w)) in Hgate.
  rewrite serve_run, Hgate. unfold authenticated, prepareTransport, prepareTLSConfig.
  rewrite Hs. reflexivity.
Qed.

Lemma record_record w evs1 evs2 : record (record w evs1) evs2 = record w (evs1 ++ evs2).
Proof. unfold record. simpl. now rewrite <- app_assoc. Qed.

(** X14.  For a datasource whose configuration names no secret and
    whose allow-list is empty or, the extracted path being ASCII, permits
    the request: each pipeline looks the datasource up and calls the reverse
    proxy once, with the URL of the configuration, the transport without
    client secret (TLS 1.2 at least) and the forwarded request; it ends as
    that call ends: without error, with the error of the round trip, or with
    the panic of a cut answer.  The forwarded request has the host of the
    upstream, the extracted path and the method of the incoming request. *)
Theorem plain_datasource_is_proxied (rt : Runtime) (e : Proxy) (w : World) :
  let transport :=
    {| http.ProxyFromEnvironment := true;
       http.DialTimeout := 30000000000;
       http.DialKeepAlive := 30000000000;
       http.TLSHandshakeTimeout := 10000000000;
       http.IdleConnTimeout := 90000000000;
       http.ForceAttemptHTTP2 := true;
       http.TLSClientConfig := Some (tls.withMinVersion tls.VersionTLS12) |} in
  let outcome lookup cfg path :=
    let h := {| config := cfg; secret_ := None; path := path |} in
    let req := http.withPath (forwardedRequest rt h (request w)) path in
    (ServeHTTP rt (datasourceHTTP.URL cfg) transport req,
     {| request := req;
        trace := trace w ++ [lookup; ReverseProxy_ServeHTTP (datasourceHTTP.URL cfg) transport req] |}) in
  let open cfg path :=
    datasourceHTTP.AllowedEndpoints cfg = [] \/
    (isASCII path = true /\
     permits {| config := cfg; secret_ := None; path := path |} (http.Method (request w))) in
  (forall name path dts cfg,
     extractGlobalDatasourceAndPath (requestPath w) = (name, path, None) ->
     GlobalDTS e name = (Some dts, None) ->
     ValidateAndExtract rt (v1.Spec (v1.plugin (v1.GlobalDatasource_Spec dts))) = (Some cfg, None) ->
     datasourceHTTP.Secret cfg = "" -> open cfg path ->
     proxyGlobalDatasource rt e w = outcome (GlobalDTS_Get name) cfg path) /\
  (forall project name path dts cfg,
     extractProjectDatasourceAndPath (requestPath w) = (project, name, path, None) ->
     DTS e project name = (Some dts, None) ->
     ValidateAndExtract rt (v1.Spec (v1.plugin (v1.Datasource_Spec dts))) = (Some cfg, None) ->
     datasourceHTTP.Secret cfg = "" -> open cfg path ->
     proxyProjectDatasource rt e w = outcome (DTS_Get project name) cfg path) /\
  (forall project dashboard name path db dts cfg,
     extractProjectDashboardDatasourceAndPath (requestPath w)
       = (project, dashboard, name, path, None) ->
     Dashboard e project dashboard = (Some db, None) ->
     v1.Datasources (v1.Dashboard_Spec db) !! name = Some dts ->
     ValidateAndExtract rt (v1.Spec (v1.plugin dts)) = (Some cfg, None) ->
     datasourceHTTP.Secret cfg = "" -> open cfg path ->
     proxyDashboardDatasource rt e w = outcome (Dashboard_Get project dashboard) cfg path) /\
  (forall h req,
     http.Host (http.withPath (forwardedRequest rt h req) (path h))
       = url.Host (datasourceHTTP.URL (config h)) /\
     url.Path (http.URL (http.withPath (forwardedRequest rt h req) (path h))) = path h /\
     http.Method (http.withPath (forwardedRequest rt h req) (path h)) = http.Method req).
Proof.
  cbv zeta. split; [|split; [|split]].
  - intros name path dts cfg Hx Hs Hc Hsec Hopen.
    rewrite proxyGlobalDatasource_run, Hx, Hs.
    rewrite (proxied_plain rt e _ _ _ cfg _ Hc (nonEmpty_empty _ Hsec)).
    rewrite serve_plain by (destruct Hopen as [?|[_ ?]]; auto). simpl. now rewrite <- app_assoc.
  - intros project name path dts cfg Hx Hs Hc Hsec Hopen.
    rewrite proxyProjectDatasource_run, Hx, Hs.
    rewrite (proxied_plain rt e _ _ _ cfg _ Hc (nonEmpty_empty _ Hsec)).
    rewrite serve_plain by (destruct Hopen as [?|[_ ?]]; auto). simpl. now rewrite <- app_assoc.
  - intros project dashboard name path db dts cfg Hx Hs Hk Hc Hsec Hopen.
    rewrite proxyDashboardDatasource_run, Hx, Hs, Hk.
    rewrite (proxied_plain rt e _ _ _ cfg _ Hc (nonEmpty_empty _ Hsec)).
    rewrite serve_plain by (destruct Hopen as [?|[_ ?]]; auto). simpl. now rewrite <- app_assoc.
  - intros h req. destruct (forwardedRequest_fields rt h req) as (Hm & Hu & Hh). simpl. auto.
Qed.

Lemma plain_datasource_is_proxied_witness :
  let e := Cases.storesOf "http" in
  let globalPath := "/proxy/globaldatasources/gprom/api/v1/query" in
  let dashboardPath := "/proxy/projects/p1/dashboards/d1/datasources/ds-key" in
  proxyGlobalDatasource Demo.runtime e (Demo.world globalPath)
    = (Ret None,
       {| request := Cases.sent "/api/v1/query";
          trace := [GlobalDTS_Get "gprom";
                    ReverseProxy_ServeHTTP Demo.upstream Cases.transport
                      (Cases.sent "/api/v1/query")] |}) /\
  proxyProjectDatasource Demo.runtime e (Demo.world Demo.queryPath)
    = (Ret None,
       {| request := Cases.sent "/api/v1/query";
          trace := [DTS_Get "p1" "prom1";
                    ReverseProxy_ServeHTTP Demo.upstream Cases.transport
                      (Cases.sent "/api/v1/query")] |}) /\
  proxyDashboardDatasource Demo.runtime e (Demo.world dashboardPath)
    = (Ret None,
       {| request := Cases.sent "/";
          trace := [Dashboard_Get "p1" "d1";
                    ReverseProxy_ServeHTTP Demo.upstream Cases.transport (Cases.sent "/")] |}) /\
  proxyGlobalDatasource Cases.runtimeCut e (Demo.world globalPath)
    = (Panic http.ErrAbortHandler,
       {| request := Cases.sent "/api/v1/query";
          trace := [GlobalDTS_Get "gprom";
                    ReverseProxy_ServeHTTP Demo.upstream Cases.transport
                      (Cases.sent "/api/v1/query")] |}).
Proof.
  intros e globalPath dashboardPath. split; [|split; [|split]].
  - apply (proj1 (plain_datasource_is_proxied Demo.runtime e (Demo.world globalPath))
             "gprom" "/api/v1/query" {| v1.GlobalDatasource_Spec := Demo.datasource "http" |}
             Demo.configPlain);
      try (vm_compute; reflexivity).
    left. reflexivity.
  - apply (proj1 (proj2 (plain_datasource_is_proxied Demo.runtime e (Demo.world Demo.queryPath)))
             "p1" "prom1" "/api/v1/query" {| v1.Datasource_Spec := Demo.datasource "http" |}
             Demo.configPlain);
      try (vm_compute; reflexivity).
    left. reflexivity.
  - apply (proj1 (proj2 (proj2 (plain_datasource_is_proxied Demo.runtime e
                                  (Demo.world dashboardPath))))
             "p1" "d1" "ds-key" "/"
             {| v1.Dashboard_Spec :=
                  {| v1.Datasources := {[ "ds-key" := Demo.datasource "http" ]} |} |}
             (Demo.datasource "http") Demo.configPlain);
      try (vm_compute; reflexivity).
    left. reflexivity.
  - apply (proj1 (plain_datasource_is_proxied Cases.runtimeCut e (Demo.world globalPath))
             "gprom" "/api/v1/query" {| v1.GlobalDatasource_Spec := Demo.datasource "http" |}
             Demo.configPlain);
      try (vm_compute; reflexivity).
    left. reflexivity.
Defined.

Lemma not_dispatched {A} (m : M A) w : emitsOnly notDispatch m w -> ~ dispatched m w.
Proof.
  intros H (target & transport & req & Hin). apply emitsOnly_newEvents in H.
  rewrite Forall_forall in H. exact (H _ Hin).
Qed.

Lemma not_dispatched_after {A} (m : M A) w evs r w' :
  Forall notDispatch evs -> m w = (r, w') -> emitsOnly notDispatch (fun _ => (r, w')) (record w evs) ->
  ~ dispatched m w.
Proof.
  intros Hevs E (evs' & Ht & Hevs'). apply not_dispatched.
  exists (evs ++ evs'). rewrite E. simpl in *. rewrite Ht, <- app_assoc.
  split; [reflexivity | now apply Forall_app].
Qed.

Lemma emitsOnly_result {A} (P : Event -> Prop) (m : M A) w :
  emitsOnly P m w -> emitsOnly P (fun _ => m w) w.
Proof. auto. Qed.

Section Retrieved.
Variable rt : Runtime.
Variable e : Proxy.

(** A run of [proxied] that reaches the reverse proxy: the configuration
    names no secret, or the retrieval of the secret failed. *)
Lemma proxied_dispatched dts path retrieveSecret first w :
  notDispatch first ->
  (forall name w', emitsOnly notDispatch (retrieveSecret name) w') ->
  forall (m : M (option error)),
    m w = proxied rt e dts path retrieveSecret (record w [first]) ->
    dispatched m w ->
    exists cfg,
      ValidateAndExtract rt (v1.Spec (v1.plugin dts)) = (Some cfg, None) /\
      (datasourceHTTP.Secret cfg = "" \/
       exists scrt rerr w1,
         retrieveSecret (datasourceHTTP.Secret cfg) (record w [first]) = (Ret (scrt, Some rerr), w1)).
Proof.
  intros Hfirst Hretr m Hm Hd.
  unfold proxied in Hm. unfold bind in Hm.
  pose proof (newProxy_emits rt notDispatch dts path (Crypto e) retrieveSecret (record w [first])
                Hretr (fun _ => I)) as Hnew.
  destruct (newProxy rt dts path (Crypto e) retrieveSecret (record w [first]))
    as [[[[h|] [err|]]|r] w1] eqn:E; simpl in Hm.
  all: assert (Hw1 : forall r' : Res (option error),
                 emitsOnly notDispatch (fun _ => (r', w1)) (record w [first]))
         by (intros r'; destruct Hnew as (evs & Ht & Hevs); rewrite E in Ht; exists evs;
             split; [exact Ht | exact Hevs]).
  - exfalso. revert Hd. apply (not_dispatched_after m w [first] _ w1 ltac:(auto) Hm); auto.
  - apply newProxy_yields in E as (cfg & Hc & _ & Hs). exists cfg. split; [assumption|].
    destruct Hs as [Hs|Hs]; [left | now right].
    destruct (datasourceHTTP.Secret cfg); [reflexivity | discriminate].
  - exfalso. revert Hd. apply (not_dispatched_after m w [first] _ w1 ltac:(auto) Hm); auto.
  - exfalso. revert Hd. apply (not_dispatched_after m w [first] _ w1 ltac:(auto) Hm); auto.
  - exfalso. revert Hd. apply (not_dispatched_after m w [first] _ w1 ltac:(auto) Hm); auto.
Qed.
End Retrieved.

Lemma not_dispatched_run {A} (m : M A) w r evs :
  m w = (r, record w evs) -> Forall notDispatch evs -> ~ dispatched m w.
Proof.
  intros E Hevs. apply not_dispatched. exists evs. now rewrite E.
Qed.

Lemma not_dispatched_same {A} (m : M A) w r : m w = (r, w) -> ~ dispatched m w.
Proof.
  intros E. apply not_dispatched. exists []. rewrite E. simpl. now rewrite app_nil_r.
Qed.

(** X15.  A pipeline reaches the reverse proxy only for a path that
    is extracted and a datasource that is found and has a valid
    configuration, and then only if the configuration names no secret or
    the store of the secrets answered with an error. *)
Theorem dispatch_means_no_secret_was_retrieved (rt : Runtime) (e : Proxy) (w : World) :
  (dispatched (proxyGlobalDatasource rt e) w ->
   exists name path dts cfg,
     extractGlobalDatasourceAndPath (requestPath w) = (name, path, None) /\
     GlobalDTS e name = (Some dts, None) /\
     ValidateAndExtract rt (v1.Spec (v1.plugin (v1.GlobalDatasource_Spec dts))) = (Some cfg, None) /\
     (datasourceHTTP.Secret cfg = "" \/
      exists err, snd (GlobalSecret e (datasourceHTTP.Secret cfg)) = Some err)) /\
  (dispatched (proxyProjectDatasource rt e) w ->
   exists project name path dts cfg,
     extractProjectDatasourceAndPath (requestPath w) = (project, name, path, None) /\
     DTS e project name = (Some dts, None) /\
     ValidateAndExtract rt (v1.Spec (v1.plugin (v1.Datasource_Spec dts))) = (Some cfg, None) /\
     (datasourceHTTP.Secret cfg = "" \/
      exists err, snd (Secret e project (datasourceHTTP.Secret cfg)) = Some err)) /\
  (dispatched (proxyDashboardDatasource rt e) w ->
   exists project dashboard name path db dts cfg,
     extractProjectDashboardDatasourceAndPath (requestPath w)
       = (project, dashboard, name, path, None) /\
     Dashboard e project dashboard = (Some db, None) /\
     v1.Datasources (v1.Dashboard_Spec db) !! name = Some dts /\
     ValidateAndExtract rt (v1.Spec (v1.plugin dts)) = (Some cfg, None) /\
     (datasourceHTTP.Secret cfg = "" \/
      exists err, snd (Secret e project (datasourceHTTP.Secret cfg)) = Some err)).
Proof.
  split; [|split].
  - intros Hd. pose proof (proxyGlobalDatasource_run rt e w) as Hrun.
    destruct (extractGlobalDatasourceAndPath (requestPath w)) as [[name path] [err|]] eqn:Hx;
      [now apply not_dispatched_same in Hrun|].
    destruct (GlobalDTS e name) as [[dts|] [err|]] eqn:Hs;
      try (apply not_dispatched_run in Hrun; [contradiction | repeat constructor]).
    destruct (proxied_dispatched rt e _ path _ (GlobalDTS_Get name) w I
                (fun n w' => getGlobalSecret_emits rt notDispatch e name n w' I) _ Hrun Hd)
      as (cfg & Hc & Hsec).
    exists name, path, dts, cfg. repeat split; try assumption.
    destruct Hsec as [Hsec | (scrt & rerr & w1 & Hr)]; [now left | right].
    destruct (getGlobalSecret_run rt e name (datasourceHTTP.Secret cfg)
                (record w [GlobalDTS_Get name])) as (r & Hr' & Hcase).
    rewrite Hr in Hr'. injection Hr' as <- _. simpl in Hcase. apply Hcase.
  - intros Hd. pose proof (proxyProjectDatasource_run rt e w) as Hrun.
    destruct (extractProjectDatasourceAndPath (requestPath w))
      as [[[project name] path] [err|]] eqn:Hx;
      [now apply not_dispatched_same in Hrun|].
    destruct (DTS e project name) as [[dts|] [err|]] eqn:Hs;
      try (apply not_dispatched_run in Hrun; [contradiction | repeat constructor]).
    destruct (proxied_dispatched rt e _ path _ (DTS_Get project name) w I
                (fun n w' => getProjectSecret_emits rt notDispatch e project name n w' I) _ Hrun Hd)
      as (cfg & Hc & Hsec).
    exists project, name, path, dts, cfg. repeat split; try assumption.
    destruct Hsec as [Hsec | (scrt & rerr & w1 & Hr)]; [now left | right].
    destruct (getProjectSecret_run rt e project name (datasourceHTTP.Secret cfg)
                (record w [DTS_Get project name])) as (r & Hr' & Hcase).
    rewrite Hr in Hr'. injection Hr' as <- _. simpl in Hcase. apply Hcase.
  - intros Hd. pose proof (proxyDashboardDatasource_run rt e w) as Hrun.
    destruct (extractProjectDashboardDatasourceAndPath (requestPath w))
      as [[[[project dashboard] name] path] [err|]] eqn:Hx;
      [now apply not_dispatched_same in Hrun|].
    destruct (Dashboard e project dashboard) as [[db|] [err|]] eqn:Hs;
      try (apply not_dispatched_run in Hrun; [contradiction | repeat constructor]).
    destruct (v1.Datasources (v1.Dashboard_Spec db) !! name) as [dts|] eqn:Hk;
      [|apply not_dispatched_run in Hrun; [contradiction | repeat constructor]].
    destruct (proxied_dispatched rt e _ path _ (Dashboard_Get project dashboard) w I
                (fun n w' => getProjectSecret_emits rt notDispatch e project name n w' I) _ Hrun Hd)
      as (cfg & Hc & Hsec).
    exists project, dashboard, name, path, db, dts, cfg. repeat split; try assumption.
    destruct Hsec as [Hsec | (scrt & rerr & w1 & Hr)]; [now left | right].
    destruct (getProjectSecret_run rt e project name (datasourceHTTP.Secret cfg)
                (record w [Dashboard_Get project dashboard])) as (r & Hr' & Hcase).
    rewrite Hr in Hr'. injection Hr' as <- _. simpl in Hcase. apply Hcase.
Qed.

Lemma dispatch_means_no_secret_was_retrieved_witness :
  let e := Cases.storesOf "http" in
  let w := Demo.world "/proxy/globaldatasources/gprom/api/v1/query" in
  exists name path dts cfg,
    extractGlobalDatasourceAndPath (requestPath w) = (name, path, None) /\
    GlobalDTS e name = (Some dts, None) /\
    ValidateAndExtract Demo.runtime (v1.Spec (v1.plugin (v1.GlobalDatasource_Spec dts)))
      = (Some cfg, None) /\
    (datasourceHTTP.Secret cfg = "" \/
     exists err, snd (GlobalSecret e (datasourceHTTP.Secret cfg)) = Some err).
Proof.
  intros e w.
  apply (proj1 (dispatch_means_no_secret_was_retrieved Demo.runtime e w)).
  exists Demo.upstream, Cases.transport, (Cases.sent "/api/v1/query").
  apply list_elem_of_further, list_elem_of_here.
Defined.

Section Names.
Variable rt : Runtime.
Variable e : Proxy.

Lemma proxyGlobalDatasource_names w : emitsOnly wellNamed (proxyGlobalDatasource rt e) w.
Proof.
  unfold proxyGlobalDatasource.
  apply emitsOnly_bind; [apply emitsOnly_getRequest | intros req w' _].
  destruct (extractGlobalDatasourceAndPath _) as [[dtsName path] [err|]] eqn:Hx;
    [apply emitsOnly_ret|].
  apply extractGlobal_sound in Hx as (pre & suffix & post & _ & Hn & _).
  apply emitsOnly_bind; [now apply getGlobalDatasource_emits | intros [dts [err|]] w'' _];
    [apply emitsOnly_ret|].
  apply emitsOnly_bind.
  - apply newProxy_emits; [|easy]. intros name w3. now apply getGlobalSecret_emits.
  - intros [pr [err|]] w3 _; [apply emitsOnly_ret | now apply callServe_emits].
Qed.

Lemma proxyProjectDatasource_names w : emitsOnly wellNamed (proxyProjectDatasource rt e) w.
Proof.
  unfold proxyProjectDatasource.
  apply emitsOnly_bind; [apply emitsOnly_getRequest | intros req w' _].
  destruct (extractProjectDatasourceAndPath _) as [[[projectName dtsName] path] [err|]] eqn:Hx;
    [apply emitsOnly_ret|].
  apply extractProject_sound in Hx as (pre & suffix & post & _ & Hp & Hn & _).
  apply emitsOnly_bind; [now apply getProjectDatasource_emits | intros [dts [err|]] w'' _];
    [apply emitsOnly_ret|].
  apply emitsOnly_bind.
  - apply newProxy_emits; [|easy]. intros name w3. now apply getProjectSecret_emits.
  - intros [pr [err|]] w3 _; [apply emitsOnly_ret | now apply callServe_emits].
Qed.

Lemma proxyDashboardDatasource_names w : emitsOnly wellNamed (proxyDashboardDatasource rt e) w.
Proof.
  unfold proxyDashboardDatasource.
  apply emitsOnly_bind; [apply emitsOnly_getRequest | intros req w' _].
  destruct (extractProjectDashboardDatasourceAndPath _)
    as [[[[projectName dashboardName] dtsName] path] [err|]] eqn:Hx; [apply emitsOnly_ret|].
  apply extractDashboard_sound in Hx as (pre & suffix & post & _ & Hp & Hd & Hn & _).
  apply emitsOnly_bind; [now apply getDashboardDatasource_emits | intros [dts [err|]] w'' _];
    [apply emitsOnly_ret|].
  apply emitsOnly_bind.
  - apply newProxy_emits; [|easy]. intros name w3. now apply getProjectSecret_emits.
  - intros [pr [err|]] w3 _; [apply emitsOnly_ret | now apply callServe_emits].
Qed.
End Names.

Lemma Proxy_Proxy_run rt e next w :
  Proxy_Proxy rt e next w =
  if MatchString globalProxyMatcher (requestPath w) then proxyGlobalDatasource rt e w
  else if MatchString projectProxyMatcher (requestPath w) then proxyProjectDatasource rt e w
  else if MatchString dashboardProxyMatcher (requestPath w) then proxyDashboardDatasource rt e w
  else next w.
Proof.
  unfold Proxy_Proxy, requestPath.
  rewrite (bind_run getRequest _ w (request w) w eq_refl).
  destruct (MatchString globalProxyMatcher _), (MatchString projectProxyMatcher _),
    (MatchString dashboardProxyMatcher _); reflexivity.
Qed.

(** A pattern without [^] and [$] matches a text wherever the text stands. *)
Lemma Matches_anywhere pre re u post :
  Matches pre re u post -> anchorFree re = true -> forall pre2 post2, Matches pre2 re u post2.
Proof.
  induction 1; simpl; intros Hf pre2 post2; try discriminate;
    try (apply andb_true_iff in Hf as [Hf1 Hf2]); try solve [econstructor; eauto].
Qed.

Lemma validRest_empty : validRest "" = true.
Proof. reflexivity. Qed.

(** The search of [MatchString] finds each of the three patterns exactly
    in the paths that hold its template somewhere. *)
Lemma MatchString_global requestPath :
  MatchString globalProxyMatcher requestPath = true <-> holdsGlobalTemplate requestPath.
Proof.
  rewrite MatchString_Found. split.
  - intros (pre & u & post & Hw & HM).
    pose proof (Matches_anywhere _ _ _ _ HM eq_refl [] []) as HM0. clear HM. rename HM0 into HM.
    rewrite <- (bytes_str u) in HM.
    apply (proj1 (whole_path_matches (GoString.str u))) in HM
      as (name & suffix & Hu & Hn & _).
    exists (GoString.str pre), name, (suffix +:+ GoString.str post). split; [|assumption].
    apply bytes_inj. rewrite Hw, !bytes_app, !bytes_str.
    rewrite <- (bytes_str u), Hu, !bytes_app. now rewrite <- !app_assoc.
  - intros (pre & name & post & -> & Hn).
    exists (GoString.bytes pre), (GoString.bytes ("/proxy/globaldatasources/" +:+ name +:+ "")),
      (GoString.bytes post).
    split; [rewrite !bytes_app; change (GoString.bytes "") with (@nil ascii);
            now rewrite app_nil_r, <- ?app_assoc|].
    apply (Matches_anywhere []  _ _ []); [|reflexivity].
    apply (proj1 (whole_path_matches _)). exists name, "". auto using validRest_empty.
Qed.

Lemma MatchString_project requestPath :
  MatchString projectProxyMatcher requestPath = true <-> holdsProjectTemplate requestPath.
Proof.
  rewrite MatchString_Found. split.
  - intros (pre & u & post & Hw & HM).
    pose proof (Matches_anywhere _ _ _ _ HM eq_refl [] []) as HM0. clear HM. rename HM0 into HM.
    rewrite <- (bytes_str u) in HM.
    apply (proj1 (proj2 (whole_path_matches (GoString.str u)))) in HM
      as (project & name & suffix & Hu & Hp & Hn & _).
    exists (GoString.str pre), project, name, (suffix +:+ GoString.str post).
    split; [|auto].
    apply bytes_inj. rewrite Hw, !bytes_app, !bytes_str.
    rewrite <- (bytes_str u), Hu, !bytes_app. now rewrite <- !app_assoc.
  - intros (pre & project & name & post & -> & Hp & Hn).
    exists (GoString.bytes pre),
      (GoString.bytes ("/proxy/projects/" +:+ project +:+ "/datasources/" +:+ name +:+ "")),
      (GoString.bytes post).
    split; [rewrite !bytes_app; change (GoString.bytes "") with (@nil ascii);
            now rewrite app_nil_r, <- ?app_assoc|].
    apply (Matches_anywhere []  _ _ []); [|reflexivity].
    apply (proj1 (proj2 (whole_path_matches _))). exists project, name, "".
    auto using validRest_empty.
Qed.

Lemma MatchString_dashboard requestPath :
  MatchString dashboardProxyMatcher requestPath = true <-> holdsDashboardTemplate requestPath.
Proof.
  rewrite MatchString_Found. split.
  - intros (pre & u & post & Hw & HM).
    pose proof (Matches_anywhere _ _ _ _ HM eq_refl [] []) as HM0. clear HM. rename HM0 into HM.
    rewrite <- (bytes_str u) in HM.
    apply (proj2 (proj2 (whole_path_matches (GoString.str u)))) in HM
      as (project & dashboard & name & suffix & Hu & Hp & Hd & Hn & _).
    exists (GoString.str pre), project, dashboard, name, (suffix +:+ GoString.str post).
    split; [|auto].
    apply bytes_inj. rewrite Hw, !bytes_app, !bytes_str.
    rewrite <- (bytes_str u), Hu, !bytes_app. now rewrite <- !app_assoc.
  - intros (pre & project & dashboard & name & post & -> & Hp & Hd & Hn).
    exists (GoString.bytes pre),
      (GoString.bytes ("/proxy/projects/" +:+ project +:+ "/dashboards/" +:+ dashboard
                       +:+ "/datasources/" +:+ name +:+ "")),
      (GoString.bytes post).
    split; [rewrite !bytes_app; change (GoString.bytes "") with (@nil ascii);
            now rewrite app_nil_r, <- ?app_assoc|].
    apply (Matches_anywhere []  _ _ []); [|reflexivity].
    apply (proj2 (proj2 (whole_path_matches _))). exists project, dashboard, name, "".
    auto using validRest_empty.
Qed.

Lemma MatchString_false re s (P : Prop) :
  (MatchString re s = true <-> P) -> ~ P -> MatchString re s = false.
Proof. intros H Hn. destruct (MatchString re s); [|reflexivity]. exfalso. tauto. Qed.

(** C7, as amended.  The three templates are searched for in the path of the
    request.  When the path holds none of them anywhere, the middleware is
    the next handler: run from the same world, so with the request as it
    came and with no call made to any store.  When the path holds one
    somewhere, whatever stands before it, the middleware is the pipeline of
    that template, the global one first, then the project one. *)
Theorem path_without_template_passes_through (rt : Runtime) (e : Proxy)
    (next : M (option error)) (w : World) :
  (~ holdsGlobalTemplate (requestPath w) ->
   ~ holdsProjectTemplate (requestPath w) ->
   ~ holdsDashboardTemplate (requestPath w) ->
   Proxy_Proxy rt e next w = next w) /\
  (holdsGlobalTemplate (requestPath w) ->
   Proxy_Proxy rt e next w = proxyGlobalDatasource rt e w) /\
  (~ holdsGlobalTemplate (requestPath w) ->
   holdsProjectTemplate (requestPath w) ->
   Proxy_Proxy rt e next w = proxyProjectDatasource rt e w) /\
  (~ holdsGlobalTemplate (requestPath w) ->
   ~ holdsProjectTemplate (requestPath w) ->
   holdsDashboardTemplate (requestPath w) ->
   Proxy_Proxy rt e next w = proxyDashboardDatasource rt e w).
Proof.
  rewrite Proxy_Proxy_run.
  pose proof (MatchString_global (requestPath w)) as Hg.
  pose proof (MatchString_project (requestPath w)) as Hp.
  pose proof (MatchString_dashboard (requestPath w)) as Hd.
  split; [|split; [|split]].
  - intros Ng Np Nd.
    now rewrite (MatchString_false _ _ _ Hg Ng), (MatchString_false _ _ _ Hp Np),
      (MatchString_false _ _ _ Hd Nd).
  - intros Yg. apply Hg in Yg. now rewrite Yg.
  - intros Ng Yp. apply Hp in Yp. now rewrite (MatchString_false _ _ _ Hg Ng), Yp.
  - intros Ng Np Yd. apply Hd in Yd.
    now rewrite (MatchString_false _ _ _ Hg Ng), (MatchString_false _ _ _ Hp Np), Yd.
Qed.

Lemma path_without_template_passes_through_witness :
  let e := Demo.stores true Demo.identityCrypto in
  let prefixed := "/api/v1/proxy/globaldatasources/gprom/api/v1/query" in
  let dashboardPath := "/proxy/projects/p1/dashboards/d1/datasources/ds-key/api/v1/query" in
  Proxy_Proxy Demo.runtime e Demo.next (Demo.world "/api/v1/projects/p1/dashboards")
    = Demo.next (Demo.world "/api/v1/projects/p1/dashboards") /\
  Proxy_Proxy Demo.runtime e Demo.next (Demo.world prefixed)
    = proxyGlobalDatasource Demo.runtime e (Demo.world prefixed) /\
  Proxy_Proxy Demo.runtime e Demo.next (Demo.world Demo.queryPath)
    = proxyProjectDatasource Demo.runtime e (Demo.world Demo.queryPath) /\
  Proxy_Proxy Demo.runtime e Demo.next (Demo.world dashboardPath)
    = proxyDashboardDatasource Demo.runtime e (Demo.world dashboardPath).
Proof.
  intros e prefixed dashboardPath. split; [|split; [|split]].
  - apply (proj1 (path_without_template_passes_through Demo.runtime e Demo.next
                    (Demo.world "/api/v1/projects/p1/dashboards"))).
    + intros H. apply MatchString_global in H. vm_compute in H. discriminate H.
    + intros H. apply MatchString_project in H. vm_compute in H. discriminate H.
    + intros H. apply MatchString_dashboard in H. vm_compute in H. discriminate H.
  - apply (proj1 (proj2 (path_without_template_passes_through Demo.runtime e Demo.next
                           (Demo.world prefixed)))).
    exists "/api/v1", "gprom", "/api/v1/query". split; reflexivity.
  - apply (proj1 (proj2 (proj2 (path_without_template_passes_through Demo.runtime e Demo.next
                                  (Demo.world Demo.queryPath))))).
    + intros H. apply MatchString_global in H. vm_compute in H. discriminate H.
    + exists "", "p1", "prom1", "/api/v1/query". split; [reflexivity | split; reflexivity].
  - apply (proj2 (proj2 (proj2 (path_without_template_passes_through Demo.runtime e Demo.next
                                  (Demo.world dashboardPath))))).
    + intros H. apply MatchString_global in H. vm_compute in H. discriminate H.
    + intros H. apply MatchString_project in H. vm_compute in H. discriminate H.
    + exists "", "p1", "d1", "ds-key", "/api/v1/query".
      split; [reflexivity | split; [reflexivity | split; reflexivity]].
Defined.

(** C7, counterexample.  The path
    /api/v1/proxy/globaldatasources/gprom/api/v1/query is not the global
    template, nor the project or the dashboard template, filled in: none of
    the three patterns matches it as a whole.  Yet the middleware does not
    hand it to the next handler: it looks the datasource [gprom] up,
    rewrites the request and calls the reverse proxy. *)
Lemma prefixed_path_is_proxied :
  let path := "/api/v1/proxy/globaldatasources/gprom/api/v1/query" in
  let w := Demo.world path in
  let run := Proxy_Proxy Demo.runtime (Cases.storesOf "http") Demo.next in
  ~ Matches [] globalProxyMatcher (GoString.bytes path) [] /\
  ~ Matches [] projectProxyMatcher (GoString.bytes path) [] /\
  ~ Matches [] dashboardProxyMatcher (GoString.bytes path) [] /\
  run w <> Demo.next w /\
  newEvents run w =
    [GlobalDTS_Get "gprom";
     ReverseProxy_ServeHTTP Demo.upstream Cases.transport (Cases.sent "/api/v1/query")] /\
  request (snd (run w)) = Cases.sent "/api/v1/query" /\
  request (snd (run w)) <> request w.
Proof.
  intros path w run.
  split; [|split; [|split; [|split; [|split; [|split]]]]].
  - intros H. apply (proj1 (whole_path_matches path)) in H as (name & suffix & H & _).
    discriminate H.
  - intros H. apply (proj1 (proj2 (whole_path_matches path))) in H
      as (project & name & suffix & H & _).
    discriminate H.
  - intros H. apply (proj2 (proj2 (whole_path_matches path))) in H
      as (project & dashboard & name & suffix & H & _).
    discriminate H.
  - intros H. apply (f_equal (fun r => trace (snd r))) in H. vm_compute in H. discriminate H.
  - vm_compute. reflexivity.
  - vm_compute. reflexivity.
  - intros H. apply (f_equal http.Host) in H. vm_compute in H. discriminate H.
Qed.

(** X16.  A path made of the project or the dashboard template and,
    as its suffix, the global template: the project and the dashboard
    extraction return the names of the outer template and the whole inner
    template as forwarded path, but the middleware hands the request to the
    global pipeline, whose extraction returns the name and the suffix of
    the inner template. *)
Theorem global_template_takes_over (project dashboard name g suffix : string) :
  validName project = true -> validName dashboard = true -> validName name = true ->
  validName g = true -> validRest suffix = true ->
  let nested := "/proxy/globaldatasources/" +:+ g +:+ suffix in
  let viaProject := "/proxy/projects/" +:+ project +:+ "/datasources/" +:+ name +:+ nested in
  let viaDashboard := "/proxy/projects/" +:+ project +:+ "/dashboards/" +:+ dashboard
                      +:+ "/datasources/" +:+ name +:+ nested in
  extractProjectDatasourceAndPath viaProject = (project, name, nested, None) /\
  extractProjectDashboardDatasourceAndPath viaDashboard
    = (project, dashboard, name, nested, None) /\
  forall rt e next w,
    requestPath w = viaProject \/ requestPath w = viaDashboard ->
    Proxy_Proxy rt e next w = proxyGlobalDatasource rt e w /\
    extractGlobalDatasourceAndPath (requestPath w) = (g, forwarded suffix, None).
Proof.
  intros Hp Hd Hn Hg Hs nested viaProject viaDashboard.
  destruct (global_in_project project name g suffix Hp Hn Hg Hs) as (Hx1 & Hm1 & Hg1).
  destruct (global_in_dashboard project dashboard name g suffix Hp Hd Hn Hg Hs)
    as (Hx2 & Hm2 & Hg2).
  split; [exact Hx1|]. split; [exact Hx2|].
  intros rt e next w [Hw|Hw]; rewrite Proxy_Proxy_run, Hw; subst viaProject viaDashboard nested.
  - now rewrite Hm1.
  - now rewrite Hm2.
Qed.

Lemma global_template_takes_over_witness :
  let viaProject := "/proxy/projects/p1/datasources/prom1/proxy/globaldatasources/gprom/api/v1/query" in
  let viaDashboard :=
    "/proxy/projects/p1/dashboards/d1/datasources/ds-key/proxy/globaldatasources/gprom/api/v1/query" in
  let e := Demo.stores false Demo.identityCrypto in
  extractProjectDatasourceAndPath viaProject
    = ("p1", "prom1", "/proxy/globaldatasources/gprom/api/v1/query", None) /\
  extractProjectDashboardDatasourceAndPath viaDashboard
    = ("p1", "d1", "ds-key", "/proxy/globaldatasources/gprom/api/v1/query", None) /\
  Proxy_Proxy Demo.runtime e Demo.next (Demo.world viaProject)
    = proxyGlobalDatasource Demo.runtime e (Demo.world viaProject) /\
  extractGlobalDatasourceAndPath viaProject = ("gprom", "/api/v1/query", None) /\
  Proxy_Proxy Demo.runtime e Demo.next (Demo.world viaDashboard)
    = proxyGlobalDatasource Demo.runtime e (Demo.world viaDashboard) /\
  extractGlobalDatasourceAndPath viaDashboard = ("gprom", "/api/v1/query", None).
Proof.
  intros viaProject viaDashboard e.
  destruct (global_template_takes_over "p1" "d1" "prom1" "gprom" "/api/v1/query"
              eq_refl eq_refl eq_refl eq_refl eq_refl) as (Hp & _ & Hall).
  destruct (global_template_takes_over "p1" "d1" "ds-key" "gprom" "/api/v1/query"
              eq_refl eq_refl eq_refl eq_refl eq_refl) as (_ & Hd & Hall').
  split; [exact Hp|]. split; [exact Hd|].
  destruct (Hall Demo.runtime e Demo.next (Demo.world viaProject) (or_introl eq_refl)) as [H1 H2].
  destruct (Hall' Demo.runtime e Demo.next (Demo.world viaDashboard) (or_intror eq_refl))
    as [H3 H4].
  repeat split; assumption.
Defined.

(** X17.  A path made of the dashboard template and, as its suffix,
    the project template of any project: the project extraction returns the
    project and the datasource of the inner template, and the middleware
    hands the request to the project pipeline whenever the global pattern is
    not found in the path. *)
Theorem project_template_takes_over (project dashboard name project2 name2 suffix : string) :
  validName project = true -> validName dashboard = true -> validName name = true ->
  validName project2 = true -> validName name2 = true -> validRest suffix = true ->
  let nested := "/proxy/projects/" +:+ project2 +:+ "/datasources/" +:+ name2 +:+ suffix in
  let path := "/proxy/projects/" +:+ project +:+ "/dashboards/" +:+ dashboard
              +:+ "/datasources/" +:+ name +:+ nested in
  extractProjectDashboardDatasourceAndPath path = (project, dashboard, name, nested, None) /\
  extractProjectDatasourceAndPath path = (project2, name2, forwarded suffix, None) /\
  forall rt e next w,
    requestPath w = path -> MatchString globalProxyMatcher path = false ->
    Proxy_Proxy rt e next w = proxyProjectDatasource rt e w.
Proof.
  intros Hp Hd Hn Hp2 Hn2 Hs nested path.
  destruct (project_in_dashboard project dashboard name project2 name2 suffix Hp Hd Hn Hp2 Hn2 Hs)
    as (Hx & Hm & Hx2).
  split; [exact Hx|]. split; [exact Hx2|].
  intros rt e next w Hw Hg. rewrite Proxy_Proxy_run, Hw, Hg. subst path nested.
  now rewrite Hm.
Qed.

Lemma project_template_takes_over_witness :
  let path :=
    "/proxy/projects/p1/dashboards/d1/datasources/ds-key/proxy/projects/p2/datasources/prom2/api" in
  let e := Demo.stores false Demo.identityCrypto in
  extractProjectDashboardDatasourceAndPath path
    = ("p1", "d1", "ds-key", "/proxy/projects/p2/datasources/prom2/api", None) /\
  extractProjectDatasourceAndPath path = ("p2", "prom2", "/api", None) /\
  Proxy_Proxy Demo.runtime e Demo.next (Demo.world path)
    = proxyProjectDatasource Demo.runtime e (Demo.world path).
Proof.
  intros path e.
  destruct (project_template_takes_over "p1" "d1" "ds-key" "p2" "prom2" "/api"
              eq_refl eq_refl eq_refl eq_refl eq_refl eq_refl) as (Hd & Hp & Hall).
  split; [exact Hd|]. split; [exact Hp|].
  apply (Hall Demo.runtime e Demo.next (Demo.world path) eq_refl).
  vm_compute. reflexivity.
Defined.

(** X18.  Every project, dashboard and datasource name the pipelines,
    and so the middleware, look up in a store is one or more bytes of the
    class of letters, digits, underscore and hyphen. *)
Theorem stores_see_valid_names (rt : Runtime) (e : Proxy) (w : World) :
  emitsOnly wellNamed (proxyGlobalDatasource rt e) w /\
  emitsOnly wellNamed (proxyProjectDatasource rt e) w /\
  emitsOnly wellNamed (proxyDashboardDatasource rt e) w /\
  forall next, emitsOnly wellNamed next w -> emitsOnly wellNamed (Proxy_Proxy rt e next) w.
Proof.
  split; [apply proxyGlobalDatasource_names|].
  split; [apply proxyProjectDatasource_names|].
  split; [apply proxyDashboardDatasource_names|].
  intros next Hnext. unfold emitsOnly. rewrite Proxy_Proxy_run.
  destruct (MatchString globalProxyMatcher _); [apply proxyGlobalDatasource_names|].
  destruct (MatchString projectProxyMatcher _); [apply proxyProjectDatasource_names|].
  destruct (MatchString dashboardProxyMatcher _); [apply proxyDashboardDatasource_names|].
  exact Hnext.
Qed.

Lemma stores_see_valid_names_witness :
  emitsOnly wellNamed
    (Proxy_Proxy Demo.runtime (Demo.stores true Demo.identityCrypto) Demo.next)
    (Demo.world Demo.queryPath).
Proof.
  apply (proj2 (proj2 (proj2 (stores_see_valid_names Demo.runtime
                                (Demo.stores true Demo.identityCrypto)
                                (Demo.world Demo.queryPath))))).
  exists []. split; [reflexivity | constructor].
Defined.

Lemma FindAllIndex_nil re whole : FindAllIndex re whole = [] <-> doExecute re 0 whole = None.
Proof.
  split.
  - intros H. destruct (doExecute re 0 whole) as [m|] eqn:Hm; [|reflexivity].
    exfalso. revert H. unfold FindAllIndex. rewrite Nat.add_comm.
    change (2 + length whole)%nat with (S (S (length whole))).
    rewrite allMatches_S. change (length whole <? 0)%nat with false. cbv iota.
    rewrite drop_0, Hm. destruct (bounds m) as [mstart mend].
    rewrite bool_decide_eq_false_2 by discriminate. rewrite andb_false_r. discriminate.
  - intros H. unfold FindAllIndex. rewrite Nat.add_comm. apply allMatches_none.
    now rewrite drop_0.
Qed.

Lemma FindAllString_none re s :
  length (FindAllString re s) = 0%nat <-> MatchString re s = false.
Proof.
  unfold FindAllString, MatchString. rewrite length_map.
  pose proof (FindAllIndex_nil re (GoString.bytes s)) as H.
  destruct (doExecute re 0 (GoString.bytes s)) as [m|].
  - split; [|discriminate]. intros Hl. apply nil_length_inv in Hl. apply H in Hl. discriminate.
  - split; [reflexivity|]. intros _. now rewrite (proj2 H eq_refl).
Qed.

Lemma single_match {T} (l : list T) : length l = 1%nat -> exists x, l = [x].
Proof. destruct l as [|x [|y l]]; simpl; intros H; try discriminate. eauto. Qed.

Lemma extractGlobal_count requestPath :
  let count := length (FindAllString globalProxyMatcher requestPath) in
  if (count =? 1)%nat
  then snd (extractGlobalDatasourceAndPath requestPath) = None
  else extractGlobalDatasourceAndPath requestPath = ("", "", Some notProperlyFormatted).
Proof.
  unfold FindAllString, extractGlobalDatasourceAndPath, FindAllStringSubmatch.
  rewrite !length_map. cbv zeta.
  destruct (FindAllIndex globalProxyMatcher (GoString.bytes requestPath)) as [|m [|m2 rest]] eqn:HF;
    try reflexivity.
  apply first_match in HF as (pre & u & post & c' & Hw & HC & ->).
  apply global_registers in HC as (name & suffix & -> & Hn & Hs & Hm). cbv zeta in Hm.
  rewrite Hm. reflexivity.
Qed.

Lemma extractProject_count requestPath :
  let count := length (FindAllString projectProxyMatcher requestPath) in
  if (count =? 1)%nat
  then snd (extractProjectDatasourceAndPath requestPath) = None
  else extractProjectDatasourceAndPath requestPath = ("", "", "", Some notProperlyFormatted).
Proof.
  unfold FindAllString, extractProjectDatasourceAndPath, FindAllStringSubmatch.
  rewrite !length_map. cbv zeta.
  destruct (FindAllIndex projectProxyMatcher (GoString.bytes requestPath)) as [|m [|m2 rest]] eqn:HF;
    try reflexivity.
  apply first_match in HF as (pre & u & post & c' & Hw & HC & ->).
  apply project_registers in HC as (project & name & suffix & -> & Hp & Hn & Hs & Hm).
  cbv zeta in Hm. rewrite Hm. reflexivity.
Qed.

Lemma extractDashboard_count requestPath :
  let count := length (FindAllString dashboardProxyMatcher requestPath) in
  if (count =? 1)%nat
  then snd (extractProjectDashboardDatasourceAndPath requestPath) = None
  else extractProjectDashboardDatasourceAndPath requestPath
       = ("", "", "", "", Some notProperlyFormatted).
Proof.
  unfold FindAllString, extractProjectDashboardDatasourceAndPath, FindAllStringSubmatch.
  rewrite !length_map. cbv zeta.
  destruct (FindAllIndex dashboardProxyMatcher (GoString.bytes requestPath))
    as [|m [|m2 rest]] eqn:HF; try reflexivity.
  apply first_match in HF as (pre & u & post & c' & Hw & HC & ->).
  apply dashboard_registers in HC as (project & dashboard & name & suffix & -> & Hp & Hd & Hn & Hs & Hm).
  cbv zeta in Hm. rewrite Hm. reflexivity.
Qed.

(** X19.  The extraction functions fail exactly when the number of
    successive matches of their pattern in the path is not one: no match
    means the pattern is not found at all, one match is always accepted (the
    checks on the number of groups never reject), and with another count the
    pipeline returns the 502 error without any call; so does the middleware
    for a path with two or more matches of the global pattern. *)
Theorem extraction_fails_on_the_match_count (rt : Runtime) (e : Proxy) (w : World) :
  let count re := length (FindAllString re (requestPath w)) in
  let rejected := (Ret (Some notProperlyFormatted), w) in
  (forall re, count re = 0%nat <-> MatchString re (requestPath w) = false) /\
  (count globalProxyMatcher = 1%nat ->
   snd (extractGlobalDatasourceAndPath (requestPath w)) = None) /\
  (count projectProxyMatcher = 1%nat ->
   snd (extractProjectDatasourceAndPath (requestPath w)) = None) /\
  (count dashboardProxyMatcher = 1%nat ->
   snd (extractProjectDashboardDatasourceAndPath (requestPath w)) = None) /\
  (count globalProxyMatcher <> 1%nat -> proxyGlobalDatasource rt e w = rejected) /\
  (count projectProxyMatcher <> 1%nat -> proxyProjectDatasource rt e w = rejected) /\
  (count dashboardProxyMatcher <> 1%nat -> proxyDashboardDatasource rt e w = rejected) /\
  ((1 < count globalProxyMatcher)%nat -> forall next, Proxy_Proxy rt e next w = rejected).
Proof.
  intros count rejected.
  pose proof (extractGlobal_count (requestPath w)) as Hg.
  pose proof (extractProject_count (requestPath w)) as Hp.
  pose proof (extractDashboard_count (requestPath w)) as Hd.
  cbv zeta in Hg, Hp, Hd. fold (count globalProxyMatcher) in Hg.
  fold (count projectProxyMatcher) in Hp. fold (count dashboardProxyMatcher) in Hd.
  assert (Hgr : count globalProxyMatcher <> 1%nat -> proxyGlobalDatasource rt e w = rejected).
  { intros Hc. apply Nat.eqb_neq in Hc. rewrite Hc in Hg.
    now rewrite proxyGlobalDatasource_run, Hg. }
  split; [intros re; apply FindAllString_none|].
  split; [intros Hc; now rewrite Hc in Hg|].
  split; [intros Hc; now rewrite Hc in Hp|].
  split; [intros Hc; now rewrite Hc in Hd|].
  split; [exact Hgr|].
  split. { intros Hc. apply Nat.eqb_neq in Hc. rewrite Hc in Hp.
           now rewrite proxyProjectDatasource_run, Hp. }
  split. { intros Hc. apply Nat.eqb_neq in Hc. rewrite Hc in Hd.
           now rewrite proxyDashboardDatasource_run, Hd. }
  intros Hc next. rewrite Proxy_Proxy_run.
  destruct (MatchString globalProxyMatcher (requestPath w)) eqn:Hm.
  - apply Hgr. lia.
  - apply FindAllString_none in Hm. fold (count globalProxyMatcher) in Hm. lia.
Qed.

Lemma extraction_fails_on_the_match_count_witness :
  let w := Demo.world "/proxy/globaldatasources/a~/proxy/globaldatasources/b" in
  Proxy_Proxy Demo.runtime (Demo.stores true Demo.identityCrypto) Demo.next w
    = (Ret (Some notProperlyFormatted), w) /\
  snd (extractProjectDatasourceAndPath (requestPath (Demo.world Demo.queryPath))) = None.
Proof.
  intros w. split.
  - apply (proj2 (proj2 (proj2 (proj2 (proj2 (proj2 (proj2
             (extraction_fails_on_the_match_count Demo.runtime
                (Demo.stores true Demo.identityCrypto) w)))))))).
    vm_compute. lia.
  - apply (proj1 (proj2 (proj2 (extraction_fails_on_the_match_count Demo.runtime
                                  (Demo.stores true Demo.identityCrypto)
                                  (Demo.world Demo.queryPath))))).
    vm_compute. reflexivity.
Defined.
